(** * Screenshot manager: the capture pipeline of [screenshot_cli.py] and
    [screenshot_gui.py]

    A shallow embedding of the two entry points' pipeline: URL extraction,
    file naming, the worker pool with its outcome loop, the URL mapping and
    the scan history.

    Conventions.
    - A Python [str] is a [string]; the character numbered [n] stands for the
      code point U+00[n], so texts range over U+0000..U+00FF.  The character
      tables below ([isspace], [isalnum]) are CPython's on that range.
    - A Python [set] of strings is a [gset string], a [dict] from strings to
      strings a [gmap string string], a Python [list] a [list].
    - Everything outside the two files (the browser, the file system, the
      thread scheduler, the clock) is an explicit argument. *)

From Stdlib Require Import Ascii NArith DecimalString.
From stdpp Require Import gmap strings list fin_maps sorting.

Local Open Scope stdpp_scope.

(** ** Python run-time library, as far as the two files use it *)

Module Py.

Local Open Scope char_scope.

Definition code (c : ascii) : N := N_of_ascii c.

Definition in_range (lo hi : N) (c : ascii) : bool :=
  ((lo <=? code c) && (code c <=? hi))%N.

(** [c in cs] *)
Fixpoint one_of (cs : string) (c : ascii) : bool :=
  match cs with
  | EmptyString => false
  | String a cs' => Ascii.eqb a c || one_of cs' c
  end.

(** [str.isspace], which is also the class [\s] of [re] on [str]. *)
Definition isspace (c : ascii) : bool :=
  in_range 9 13 c || in_range 28 32 c
  || (code c =? 133)%N || (code c =? 160)%N.

Definition ascii_alpha (c : ascii) : bool :=
  in_range 65 90 c || in_range 97 122 c.

Definition ascii_digit (c : ascii) : bool := in_range 48 57 c.

(** [str.isalnum]: ASCII letters and digits, and on U+0080..U+00FF the
    letters and the numeric characters of that block. *)
Definition isalnum (c : ascii) : bool :=
  ascii_alpha c || ascii_digit c
  || (code c =? 170)%N || in_range 178 179 c || (code c =? 181)%N
  || in_range 185 186 c || in_range 188 190 c
  || in_range 192 214 c || in_range 216 246 c || in_range 248 255 c.

(** The class [\w] of [re] on [str]. *)
Definition isword (c : ascii) : bool := isalnum c || Ascii.eqb c "_".

(** [str.lower] on the characters it is applied to here (ASCII). *)
Definition lower_char (c : ascii) : ascii :=
  if in_range 65 90 c then ascii_of_N (code c + 32) else c.

Fixpoint lower (s : string) : string :=
  match s with
  | EmptyString => EmptyString
  | String c s' => String (lower_char c) (lower s')
  end.

Fixpoint str_forall (p : ascii → bool) (s : string) : bool :=
  match s with
  | EmptyString => true
  | String c s' => p c && str_forall p s'
  end.

Fixpoint str_filter (p : ascii → bool) (s : string) : string :=
  match s with
  | EmptyString => EmptyString
  | String c s' => if p c then String c (str_filter p s') else str_filter p s'
  end.

(** Longest prefix whose characters satisfy [p], and what follows it. *)
Fixpoint span (p : ascii → bool) (s : string) : string * string :=
  match s with
  | EmptyString => (EmptyString, EmptyString)
  | String c s' =>
      if p c then let '(a, b) := span p s' in (String c a, b)
      else (EmptyString, s)
  end.

Definition nonempty (s : string) : bool :=
  match s with EmptyString => false | String _ _ => true end.

(** [s.startswith(lit)]: what follows [lit], when [s] starts with it. *)
Fixpoint strip_prefix (lit s : string) : option string :=
  match lit, s with
  | EmptyString, _ => Some s
  | String a lit', String c s' =>
      if Ascii.eqb a c then strip_prefix lit' s' else None
  | String _ _, EmptyString => None
  end.

(** [str.partition] at the first character satisfying [p]:
    [Some (before, after)], or [None] when there is none. *)
Fixpoint split_at (p : ascii → bool) (s : string) : option (string * string) :=
  match s with
  | EmptyString => None
  | String c s' =>
      if p c then Some (EmptyString, s')
      else match split_at p s' with
           | Some (a, b) => Some (String c a, b)
           | None => None
           end
  end.

(** [str.lstrip(chars)]. *)
Fixpoint lstrip (p : ascii → bool) (s : string) : string :=
  match s with
  | EmptyString => EmptyString
  | String c s' => if p c then lstrip p s' else s
  end.

(** *** [re]: the token pattern of [read_content], compiled with
    [re.IGNORECASE]: [http], an optional [s], [://], then one or more
    characters other than white space, angle brackets, the double quote,
    braces, the bar, the backslash, the caret, the backtick and square
    brackets. *)

(** The negated class of the pattern. *)
Definition url_char (c : ascii) : bool :=
  negb (isspace c || Ascii.eqb c "034" || one_of "<>{}|\^`[]" c).

(** A literal of the pattern under IGNORECASE, anchored at the start of
    [s]: the characters matched (as they are in [s]) and the rest. *)
Fixpoint match_literal_ci (lit s : string) : option (string * string) :=
  match lit, s with
  | EmptyString, _ => Some (EmptyString, s)
  | String a lit', String c s' =>
      if Ascii.eqb (lower_char a) (lower_char c) then
        match match_literal_ci lit' s' with
        | Some (m, r) => Some (String c m, r)
        | None => None
        end
      else None
  | String _ _, EmptyString => None
  end.

(** One alternative of the backtracking search: the literal, then the
    greedy class repeated at least once. *)
Definition match_with (lit s : string) : option string :=
  match match_literal_ci lit s with
  | Some (m, r) =>
      let body := fst (span url_char r) in
      if nonempty body then Some (m +:+ body) else None
  | None => None
  end.

(** The pattern anchored at the start of [s].  The optional [s] is greedy:
    the engine first tries it present, then absent. *)
Definition match_token (s : string) : option string :=
  match match_with "https://" s with
  | Some m => Some m
  | None => match_with "http://" s
  end.

(** [re.findall]: leftmost matches, left to right, without overlap.  The
    scan resumes where the previous match ended: [skip] counts the
    characters of that match still to pass over. *)
Fixpoint findall_from (skip : nat) (s : string) : list string :=
  match s with
  | EmptyString => []
  | String _ s' =>
      match skip with
      | S k => findall_from k s'
      | O =>
          match match_token s with
          | Some m => m :: findall_from (String.length m - 1) s'
          | None => findall_from 0 s'
          end
      end
  end.

Definition findall (text : string) : list string := findall_from 0 text.

(** [re.sub(r'[^\w\-_\.]', '_', s)]: every character outside the class
    [\w], [-], [_], [.] becomes an underscore. *)
Definition keep_char (c : ascii) : bool := isword c || one_of "-_." c.

Fixpoint sub_unsafe (s : string) : string :=
  match s with
  | EmptyString => EmptyString
  | String c s' => String (if keep_char c then c else "_") (sub_unsafe s')
  end.

(** *** [urllib.parse.urlparse] *)

Record ParseResult := { scheme : string; netloc : string; rest : string }.

Inductive parsed :=
| Parsed (r : ParseResult)
| ValueError.

(** WHATWG C0 control or space, stripped from the left of the URL. *)
Definition c0_or_space (c : ascii) : bool := in_range 0 32 c.

(** Tab, carriage return, line feed: removed anywhere in the URL. *)
Definition unsafe_byte (c : ascii) : bool :=
  Ascii.eqb c "009" || Ascii.eqb c "013" || Ascii.eqb c "010".

Definition scheme_char (c : ascii) : bool :=
  ascii_alpha c || ascii_digit c || one_of "+-." c.

Definition netloc_delim (c : ascii) : bool := one_of "/?#" c.

Definition has_char (a : ascii) (s : string) : bool := one_of s a.

(** [urlsplit], which [urlparse] calls first; the later split of the
    path's parameters leaves [scheme] and [netloc] alone, and [rest] keeps
    path, query and fragment undivided.  A netloc with an unmatched square
    bracket raises ValueError.  (The NFKC check of the netloc never fires
    below U+0100.) *)
Definition urlparse (url : string) : parsed :=
  let url := lstrip c0_or_space url in
  let url := str_filter (λ c, negb (unsafe_byte c)) url in
  let '(sch, url) :=
    match split_at (Ascii.eqb ":") url with
    | Some (String c0 pre, post) =>
        if ascii_alpha c0 && str_forall scheme_char (String c0 pre)
        then (lower (String c0 pre), post)
        else (EmptyString, url)
    | _ => (EmptyString, url)
    end in
  match strip_prefix "//" url with
  | Some after =>
      let '(nl, r) := span (λ c, negb (netloc_delim c)) after in
      if xorb (has_char "[" nl) (has_char "]" nl) then ValueError
      else Parsed {| scheme := sch; netloc := nl; rest := r |}
  | None => Parsed {| scheme := sch; netloc := EmptyString; rest := url |}
  end.

(** *** [os.path] (POSIX) *)

Fixpoint endswith_char (a : ascii) (s : string) : bool :=
  match s with
  | EmptyString => false
  | String c EmptyString => Ascii.eqb c a
  | String _ s' => endswith_char a s'
  end.

(** [os.path.join(a, b)] *)
Definition path_join (a b : string) : string :=
  match b with
  | String "/" _ => b
  | _ =>
      if negb (nonempty a) || endswith_char "/" a then a +:+ b
      else a +:+ "/" +:+ b
  end.

(** [os.path.basename(p)]: what follows the last slash. *)
Fixpoint basename (p : string) : string :=
  match p with
  | EmptyString => EmptyString
  | String c p' =>
      if has_char "/" p' then basename p'
      else if Ascii.eqb c "/" then p' else p
  end.

End Py.

(** ** Data shared by the two entry points *)

(** The tuple [(success, url, result)] a capture task returns: [result] is
    the file path on success and the text of the exception otherwise. *)
Record Outcome := { ok : bool; url : string; result : string }.

(** One element of the history file. *)
Record HistoryEntry := {
  date : string;
  entry_input_file : option string;
  entry_output_dir : string;
  total_urls : nat;
  successful : nat
}.

(** A JSON file on disk: missing, unreadable as JSON, or holding a value. *)
Inductive json_file (A : Type) :=
| Absent
| Garbled
| Content (a : A).
Arguments Absent {A}.
Arguments Garbled {A}.
Arguments Content {A} a.

(** The working directory.  [texts] gives the decoded text of the files
    that can be opened for reading; the two [_writable] flags say whether
    opening the state files for writing succeeds. *)
Record Disk := {
  texts : string → option string;
  mapping_json : json_file (gmap string string);
  history_json : json_file (list HistoryEntry);
  mapping_writable : bool;
  history_writable : bool
}.

(** The arguments of [page.screenshot]. *)
Inductive image_type := Jpeg | Png.

Record Shot := {
  shot_path : string;
  shot_type : image_type;
  shot_quality : Z;
  shot_full_page : bool
}.

(** The browser behind [sync_playwright]: each call either goes through
    ([None]) or raises an exception with the given text.  [goto] stands for
    everything from the launch to the settle delay after [page.goto]. *)
Record Browser := {
  goto : string → Z → option string;
  screenshot : string → Shot → option string
}.

(** [str(n)] for a natural number. *)
Definition str (n : nat) : string := NilZero.string_of_uint (Nat.to_uint n).

(** What the user sees or what is signalled to the front end.
    [PrintError prefix] is a printed line made of [prefix] and the text of
    an exception raised by the operating system; the [Emit] events are the
    Qt signals of the GUI, with the numbers their texts are formatted from. *)
Inductive Event :=
| Print (line : string)
| PrintError (prefix : string)
| BarUpdate (current : nat) (message : string)
| BarFinish (message : string)
| Executor (max_workers : nat)
| Submit (task_url : string)
| CancelFuture (index : nat)
| ExecutorShutdown
| EmitNoUrls
| EmitProgress (completed total succeeded : nat)
| EmitNewImage (path : string)
| EmitCompleted
| StatusNoUrls
| EnableStart
| DisableStop.

(** *** [concurrent.futures] *)

(** The course of one submitted task over the run, on a clock of whole
    seconds: never taken by a worker, taken at [t0] and never finished,
    finished at [t1] with the value the task returned, or cancelled while it
    waited in the queue. *)
Inductive Future :=
| Pending
| Running (o : Outcome) (t0 : nat)
| Done (o : Outcome) (t0 t1 : nat)
| Cancelled.

Inductive Raised := TimeoutError | CancelledError.

(** [future.result(timeout)] called at time [now]: the value as soon as the
    future is finished, TimeoutError when that is not within [timeout]
    seconds of the call. *)
Definition future_result (now timeout : nat) (f : Future) : Outcome + Raised :=
  match f with
  | Done o _ t1 => if t1 <=? now + timeout then inl o else inr TimeoutError
  | Cancelled => inr CancelledError
  | Running _ _ | Pending => inr TimeoutError
  end.

(** [str(e)] of the two exceptions: both carry no text. *)
Definition raised_text (e : Raised) : string := EmptyString.

Definition finished (f : Future) : bool :=
  match f with Done _ _ _ | Cancelled => true | _ => false end.

(** The time at which [as_completed] can yield a future. *)
Definition completion_time (f : Future) : nat :=
  match f with Done _ _ t1 => t1 | _ => 0 end.

(** ThreadPoolExecutor: tasks wait in submission order, and at most
    [max_workers] of them run at a time.  [task] is the submitted function;
    its first argument is the value of the stop flag the task reads when a
    worker takes it.  The steps: a second passes; the user asks to stop; a
    free worker takes the head of the queue; a running task finishes; a
    waiting task is cancelled (which the GUI does once it has seen the stop
    flag and left its loop). *)
Module Pool.

Record State := {
  futures : list Future;
  clock : nat;
  active : bool;
  completed : list nat
}.

Definition is_running (f : Future) : bool :=
  match f with Running _ _ => true | _ => false end.

Definition is_pending (f : Future) : bool :=
  match f with Pending => true | _ => false end.

Fixpoint count (p : Future → bool) (l : list Future) : nat :=
  match l with
  | [] => 0
  | f :: l' => (if p f then 1 else 0) + count p l'
  end.

(** The number of workers that are busy. *)
Definition running (s : State) : nat := count is_running (futures s).

(** [[executor.submit(task, url) for url in urls]] *)
Definition submit_all (urls : list string) : State :=
  {| futures := (λ _, Pending) <$> urls; clock := 0; active := true;
     completed := [] |}.

Section steps.
Variable max_workers : nat.
Variable task : bool → string → Outcome.
Variable urls : list string.

Inductive step : State → State → Prop :=
| step_tick s :
    step s {| futures := futures s; clock := S (clock s);
              active := active s; completed := completed s |}
| step_stop s :
    step s {| futures := futures s; clock := clock s;
              active := false; completed := completed s |}
| step_start s i u :
    futures s !! i = Some Pending →
    (∀ j, j < i → futures s !! j ≠ Some Pending) →
    running s < max_workers →
    urls !! i = Some u →
    step s {| futures := <[i := Running (task (active s) u) (clock s)]> (futures s);
              clock := clock s; active := active s;
              completed := completed s |}
| step_finish s i o t0 :
    futures s !! i = Some (Running o t0) →
    step s {| futures := <[i := Done o t0 (clock s)]> (futures s);
              clock := clock s; active := active s;
              completed := completed s ++ [i] |}
| step_cancel s i :
    active s = false →
    futures s !! i = Some Pending →
    step s {| futures := <[i := Cancelled]> (futures s);
              clock := clock s; active := active s;
              completed := completed s |}.

Definition reachable : State → Prop := rtc step (submit_all urls).

(** Nothing waits and nothing runs. *)
Definition quiescent (s : State) : Prop :=
  Forall (λ f, finished f = true) (futures s).

End steps.

(** What [as_completed(futures)] yields, in the order of completion. *)
Definition as_completed (s : State) : list Future :=
  omap (λ i, futures s !! i) (completed s).

End Pool.

(** [str(z)] for an integer. *)
Definition str_int (z : Z) : string :=
  if (z <? 0)%Z then "-" +:+ str (Z.abs_nat z) else str (Z.abs_nat z).

(** [s[:n] + "..." if len(s) > n else s] *)
Definition shorten (n : nat) (s : string) : string :=
  if n <? String.length s then String.substring 0 n s +:+ "..." else s.

(** ** The command-line entry point, [screenshot_cli.py] *)

Module CLI.

Record Self := {
  input_file : option string;
  output_dir : string;
  threads : Z;
  quality : Z;
  timeout : Z;
  images : list string;
  url_mapping : gmap string string;
  urls : list string
}.

Definition set_url_mapping (m : gmap string string) (self : Self) : Self :=
  {| input_file := input_file self; output_dir := output_dir self;
     threads := threads self; quality := quality self;
     timeout := timeout self; images := images self;
     url_mapping := m; urls := urls self |}.

Definition set_images (l : list string) (self : Self) : Self :=
  {| input_file := input_file self; output_dir := output_dir self;
     threads := threads self; quality := quality self;
     timeout := timeout self; images := l;
     url_mapping := url_mapping self; urls := urls self |}.

Definition set_urls (l : list string) (self : Self) : Self :=
  {| input_file := input_file self; output_dir := output_dir self;
     threads := threads self; quality := quality self;
     timeout := timeout self; images := images self;
     url_mapping := url_mapping self; urls := l |}.

Definition load_url_mapping (d : Disk) (self : Self) : Self * list Event :=
  match mapping_json d with
  | Content m => (set_url_mapping m self, [])
  | Absent => (self, [])
  | Garbled => (self, [PrintError "[!] Mapping load error: "])
  end.

Definition save_url_mapping (self : Self) (d : Disk) : Disk * list Event :=
  if mapping_writable d then
    ({| texts := texts d; mapping_json := Content (url_mapping self);
        history_json := history_json d;
        mapping_writable := mapping_writable d;
        history_writable := history_writable d |}, [])
  else (d, [PrintError "[!] Mapping save error: "]).

(** [__init__] *)
Definition init (d : Disk) (input_file : option string) (output_dir : string)
    (threads quality timeout : Z) : Self * list Event :=
  load_url_mapping d
    {| input_file := input_file; output_dir := output_dir;
       threads := threads; quality := quality; timeout := timeout;
       images := []; url_mapping := ∅; urls := [] |}.

(** The body of the [for match in re.findall(...)] loop: a ValueError of
    [urlparse] is swallowed by the bare [except]. *)
Definition add_match (urls : gset string) (m : string) : gset string :=
  match Py.urlparse m with
  | Py.Parsed parsed =>
      if Py.nonempty (Py.netloc parsed)
      then urls ∪ {[ Py.scheme parsed +:+ "://" +:+ Py.netloc parsed ]}
      else urls
  | Py.ValueError => urls
  end.

(** The extraction proper: from the text read to the set [urls]. *)
Definition extract (text : string) : gset string :=
  foldl add_match ∅ (Py.findall text).

Definition read_content (d : Disk) (self : Self) : list string * list Event :=
  match input_file self with
  | None | Some EmptyString => ([], [Print "[!] No input file specified"])
  | Some path =>
      match texts d path with
      | Some text => (elements (extract text), [])
      | None => ([], [PrintError "[!] Read error: "])
      end
  end.

Definition capture_screenshot (b : Browser) (self : Self) (url : string)
  : Outcome :=
  match goto b url (timeout self) with
  | Some e => {| ok := false; url := url; result := e |}
  | None =>
      match Py.urlparse url with
      | Py.ValueError =>
          {| ok := false; url := url; result := "Invalid IPv6 URL" |}
      | Py.Parsed parsed =>
          let safe_name := Py.sub_unsafe (Py.netloc parsed) in
          let filepath :=
            Py.path_join (output_dir self) (safe_name +:+ ".jpg") in
          match screenshot b url
                  {| shot_path := filepath; shot_type := Jpeg;
                     shot_quality := quality self;
                     shot_full_page := false |} with
          | Some e => {| ok := false; url := url; result := e |}
          | None => {| ok := true; url := url; result := filepath |}
          end
      end
  end.

Definition load_history (d : Disk) : list HistoryEntry * list Event :=
  match history_json d with
  | Content h => (h, [])
  | Absent => ([], [])
  | Garbled => ([], [PrintError "[!] History load error: "])
  end.

Definition save_to_history (today : string) (self : Self)
    (total_urls successful : nat) (d : Disk) : Disk * list Event :=
  let '(history, ev) := load_history d in
  let entry :=
    {| date := today; entry_input_file := input_file self;
       entry_output_dir := output_dir self;
       total_urls := total_urls; successful := successful |} in
  let history := entry :: history in
  let history := take 20 history in
  if history_writable d then
    ({| texts := texts d; mapping_json := mapping_json d;
        history_json := Content history;
        mapping_writable := mapping_writable d;
        history_writable := history_writable d |}, ev)
  else (d, ev ++ [PrintError "[!] History save error: "]).

(** The variables of the outcome loop of [run_scan]; [now] is the time on
    the main thread's clock. *)
Record Loop := {
  self : Self;
  successful_captures : nat;
  failed_captures : nat;
  now : nat;
  log : list Event
}.

(** One turn of [for i, future in enumerate(as_completed(futures))]:
    [as_completed] hands the future over once it has completed. *)
Definition loop_body (i : nat) (future : Future) (st : Loop) : Loop :=
  let now := Nat.max (now st) (completion_time future) in
  match future_result now 60 future with
  | inl o =>
      if ok o then
        let name := Py.basename (result o) in
        {| self := set_url_mapping (<[name := url o]> (url_mapping (self st)))
                     (set_images (images (self st) ++ [result o]) (self st));
           successful_captures := successful_captures st + 1;
           failed_captures := failed_captures st;
           now := now;
           log := log st ++ [BarUpdate (i + 1) ("OK " +:+ name)] |}
      else
        {| self := self st;
           successful_captures := successful_captures st;
           failed_captures := failed_captures st + 1;
           now := now;
           log := log st ++
                  [BarUpdate (i + 1) ("ERR Failed: " +:+ shorten 20 (url o))] |}
  | inr e =>
      {| self := self st;
         successful_captures := successful_captures st;
         failed_captures := failed_captures st + 1;
         now := now;
         log := log st ++
                [BarUpdate (i + 1) ("ERR Error: " +:+ shorten 20 (raised_text e))] |}
  end.

Fixpoint loop (i : nat) (yielded : list Future) (st : Loop) : Loop :=
  match yielded with
  | [] => st
  | future :: rest => loop (S i) rest (loop_body i future st)
  end.

(** What [run_scan] does not decide: the disk, the browser, the date, and
    the course the executor gives to the submitted tasks. *)
Record World := {
  disk : Disk;
  browser : Browser;
  today : string;
  scheduler : nat → list string → Pool.State
}.

Definition run_scan (w : World) (self0 : Self) : Self * Disk * list Event :=
  let ev_start :=
    [Print ("[->] Reading content from: " +:+ default "None" (input_file self0))] in
  let '(found, ev_read) := read_content (disk w) self0 in
  let self1 := set_urls found self0 in
  let total := length found in
  if total =? 0 then
    (self1, disk w,
     ev_start ++ ev_read ++ [Print "[!] No valid URLs found in file"])
  else
    let ev_found :=
      [Print ("[OK] Found " +:+ str total +:+ " URLs to process");
       Print ("[->] Output directory: " +:+ output_dir self1);
       Print ("[->] Using " +:+ str_int (threads self1) +:+ " threads")] in
    let st :=
      if (threads self1 <=? 0)%Z then
        {| self := self1; successful_captures := 0; failed_captures := 0;
           now := 0; log := [PrintError "[!] Scan error: "] |}
      else
        let n := Z.to_nat (threads self1) in
        let futures := scheduler w n found in
        loop 0 (Pool.as_completed futures)
          {| self := self1; successful_captures := 0; failed_captures := 0;
             now := 0; log := Executor n :: (Submit <$> found) |} in
    let '(d1, ev_map) := save_url_mapping (self st) (disk w) in
    let '(d2, ev_hist) :=
      save_to_history (today w) (self st) (length (urls (self st)))
        (successful_captures st) d1 in
    let summary :=
      str (successful_captures st) +:+ "/" +:+ str total
      +:+ " successful captures" in
    (self st, d2,
     ev_start ++ ev_read ++ ev_found ++ log st ++ ev_map ++ ev_hist ++
     [BarFinish ("[OK] " +:+ summary);
      Print ("[OK] Scan completed! " +:+ summary);
      Print ("[->] Results saved to: " +:+ output_dir self1)] ++
     (if 0 <? failed_captures st
      then [Print ("[!] " +:+ str (failed_captures st) +:+ " captures failed")]
      else [])).

End CLI.

(** ** The graphical entry point, [screenshot_gui.py] *)

Module GUI.

(** The attributes of the window the pipeline uses.  [input_file] is
    [None] until a file has been chosen (the attribute does not exist). *)
Record Self := {
  input_file : option string;
  output_dir : string;
  images : list string;
  url_mapping : gmap string string;
  urls : list string;
  scan_active : bool
}.

Definition set_url_mapping (m : gmap string string) (self : Self) : Self :=
  {| input_file := input_file self; output_dir := output_dir self;
     images := images self; url_mapping := m; urls := urls self;
     scan_active := scan_active self |}.

Definition set_images (l : list string) (self : Self) : Self :=
  {| input_file := input_file self; output_dir := output_dir self;
     images := l; url_mapping := url_mapping self; urls := urls self;
     scan_active := scan_active self |}.

Definition set_urls (l : list string) (self : Self) : Self :=
  {| input_file := input_file self; output_dir := output_dir self;
     images := images self; url_mapping := url_mapping self; urls := l;
     scan_active := scan_active self |}.

Definition set_scan_active (b : bool) (self : Self) : Self :=
  {| input_file := input_file self; output_dir := output_dir self;
     images := images self; url_mapping := url_mapping self;
     urls := urls self; scan_active := b |}.

Definition load_url_mapping (d : Disk) (self : Self) : Self * list Event :=
  match mapping_json d with
  | Content m => (set_url_mapping m self, [])
  | Absent => (self, [])
  | Garbled => (set_url_mapping ∅ self, [PrintError "Mapping load error: "])
  end.

Definition save_url_mapping (self : Self) (d : Disk) : Disk * list Event :=
  if mapping_writable d then
    ({| texts := texts d; mapping_json := Content (url_mapping self);
        history_json := history_json d;
        mapping_writable := mapping_writable d;
        history_writable := history_writable d |}, [])
  else (d, [PrintError "Mapping save error: "]).

(** [stop_scan], as far as the pipeline sees it. *)
Definition stop_scan (self : Self) : Self := set_scan_active false self.

(** The body of the [for match in re.findall(...)] loop of the nested
    [read_content]. *)
Definition add_match (urls : gset string) (m : string) : gset string :=
  match Py.urlparse m with
  | Py.Parsed parsed =>
      if Py.nonempty (Py.netloc parsed)
      then urls ∪ {[ Py.scheme parsed +:+ "://" +:+ Py.netloc parsed ]}
      else urls
  | Py.ValueError => urls
  end.

Definition extract (text : string) : gset string :=
  foldl add_match ∅ (Py.findall text).

(** Opening a file whose name is missing raises inside the [try]. *)
Definition read_content (d : Disk) (self : Self) : list string * list Event :=
  match input_file self with
  | None => ([], [PrintError "Read error: "])
  | Some path =>
      match texts d path with
      | Some text => (elements (extract text), [])
      | None => ([], [PrintError "Read error: "])
      end
  end.

(** The nested [capture]; [active] is [self.scan_active] as the task
    reads it when a worker takes it. *)
Definition capture (b : Browser) (self : Self) (active : bool) (url : string)
  : Outcome :=
  if negb active then
    {| ok := false; url := url; result := "Process stopped" |}
  else
    match goto b url 15000 with
    | Some e => {| ok := false; url := url; result := e |}
    | None =>
        match Py.urlparse url with
        | Py.ValueError =>
            {| ok := false; url := url; result := "Invalid IPv6 URL" |}
        | Py.Parsed parsed =>
            let safe_name := Py.sub_unsafe (Py.netloc parsed) in
            let filepath :=
              Py.path_join (output_dir self) (safe_name +:+ ".png") in
            match screenshot b url
                    {| shot_path := filepath; shot_type := Jpeg;
                       shot_quality := 85; shot_full_page := false |} with
            | Some e => {| ok := false; url := url; result := e |}
            | None => {| ok := true; url := url; result := filepath |}
            end
        end
    end.

Definition load_history (d : Disk) : list HistoryEntry * list Event :=
  match history_json d with
  | Content h => (h, [])
  | Absent => ([], [])
  | Garbled => ([], [PrintError "History load error: "])
  end.

Definition save_to_history (today : string) (self : Self)
    (total_urls successful : nat) (d : Disk) : Disk * list Event :=
  let '(history, ev) := load_history d in
  let entry :=
    {| date := today;
       entry_input_file := Some (default "Unknown" (input_file self));
       entry_output_dir := output_dir self;
       total_urls := total_urls; successful := successful |} in
  let history := entry :: history in
  let history := take 20 history in
  if history_writable d then
    ({| texts := texts d; mapping_json := mapping_json d;
        history_json := Content history;
        mapping_writable := mapping_writable d;
        history_writable := history_writable d |}, ev)
  else (d, ev ++ [PrintError "History save error: "]).

Record Loop := {
  self : Self;
  successful_captures : nat;
  now : nat;
  log : list Event
}.

(** One turn of the outcome loop past the check of the stop flag. *)
Definition loop_body (total i : nat) (future : Future) (st : Loop) : Loop :=
  let now := Nat.max (now st) (completion_time future) in
  match future_result now 60 future with
  | inl o =>
      if ok o then
        let name := Py.basename (result o) in
        {| self := set_url_mapping (<[name := url o]> (url_mapping (self st)))
                     (set_images (images (self st) ++ [result o]) (self st));
           successful_captures := successful_captures st + 1;
           now := now;
           log := log st ++
                  [EmitNewImage (result o);
                   EmitProgress (i + 1) total (successful_captures st + 1)] |}
      else
        {| self := self st;
           successful_captures := successful_captures st;
           now := now;
           log := log st ++
                  [EmitProgress (i + 1) total (successful_captures st)] |}
  | inr e =>
      {| self := self st;
         successful_captures := successful_captures st;
         now := now;
         log := log st ++
                [PrintError "Error processing result: ";
                 EmitProgress (i + 1) total (successful_captures st)] |}
  end.

(** [for i, future in enumerate(as_completed(futures))]: [stopped i] tells
    whether [self.scan_active] is found false at the check that opens
    turn [i]; the loop then cancels [futures[i:]] and breaks. *)
Fixpoint loop (stopped : nat → bool) (total i : nat)
    (yielded : list Future) (st : Loop) : Loop :=
  match yielded with
  | [] => st
  | future :: rest =>
      if stopped i then
        {| self := self st;
           successful_captures := successful_captures st;
           now := now st;
           log := log st ++ (CancelFuture <$> seq i (total - i)) |}
      else loop stopped total (S i) rest (loop_body total i future st)
  end.

(** What [run_scan] does not decide.  [cpu_count] is [os.cpu_count()],
    and [stopped] the moments at which the user's stop request is seen. *)
Record World := {
  disk : Disk;
  browser : Browser;
  today : string;
  cpu_count : option nat;
  scheduler : nat → list string → Pool.State;
  stopped : nat → bool
}.

Definition run_scan (w : World) (self0 : Self) : Self * Disk * list Event :=
  let '(found, ev_read) := read_content (disk w) self0 in
  let self1 := set_urls found self0 in
  let total := length found in
  if total =? 0 then
    (self1, disk w,
     ev_read ++ [EmitNoUrls; StatusNoUrls; EnableStart; DisableStop])
  else
    let num_threads :=
      Nat.min 4 (match cpu_count w with Some 0 | None => 1 | Some n => n end) in
    let futures := scheduler w num_threads found in
    let st :=
      loop (stopped w) total 0 (Pool.as_completed futures)
        {| self := self1; successful_captures := 0; now := 0;
           log := Executor num_threads :: (Submit <$> found) |} in
    let '(d1, ev_map) := save_url_mapping (self st) (disk w) in
    let '(d2, ev_hist) :=
      save_to_history (today w) (self st) (length (urls (self st)))
        (successful_captures st) d1 in
    (set_scan_active false (self st), d2,
     ev_read ++ log st ++ [ExecutorShutdown] ++ ev_map ++ ev_hist ++
     [EmitCompleted]).

End GUI.

(** ** More of the Python run-time library *)

Module PyStr.

Local Open Scope char_scope.

(** [str.lower] on texts of U+0000..U+00FF: the ASCII capitals and the
    capitals U+00C0..U+00DE (but for the multiplication sign) move up by
    32.  On this range the lower case of a text is that of its characters,
    one by one; beyond it [str.lower] also looks at the neighbours of a
    character (a capital sigma at the end of a word), so that the lower
    case of a text is not made of those of its parts. *)
Definition lower_char (c : ascii) : ascii :=
  if Py.in_range 65 90 c || Py.in_range 192 214 c || Py.in_range 216 222 c
  then ascii_of_N (Py.code c + 32) else c.

Fixpoint lower (s : string) : string :=
  match s with
  | EmptyString => EmptyString
  | String c s' => String (lower_char c) (lower s')
  end.

(** [s.startswith(pre)] *)
Definition startswith (pre s : string) : bool :=
  match Py.strip_prefix pre s with Some _ => true | None => false end.

(** [s.endswith(suf)] *)
Fixpoint endswith (suf s : string) : bool :=
  String.eqb s suf
  || match s with
     | EmptyString => false
     | String _ s' => endswith suf s'
     end.

(** [sub in s] *)
Fixpoint contains (sub s : string) : bool :=
  startswith sub s
  || match s with
     | EmptyString => false
     | String _ s' => contains sub s'
     end.

(** [s.replace(old, '')] for a non-empty [old]: the occurrences are taken
    from the left and do not overlap; [skip] counts the characters of the
    occurrence being removed that are still to pass over. *)
Fixpoint remove_from (skip : nat) (old s : string) : string :=
  match s with
  | EmptyString => EmptyString
  | String c s' =>
      match skip with
      | S k => remove_from k old s'
      | O =>
          if startswith old s then remove_from (String.length old - 1) old s'
          else String c (remove_from 0 old s')
      end
  end.

Definition remove_all (old s : string) : string := remove_from 0 old s.

(** [sorted(l)] on strings: the order of the code points. *)
Definition sorted (l : list string) : list string := merge_sort String.le l.

End PyStr.

(** ** The CLI's progress bar and its housekeeping commands *)

Module Tools.

(** Of [ProgressBar.update] the two parts made of text: the status tag
    chosen from the message, and the message as it is displayed. *)
Definition status (message : string) : string :=
  if PyStr.contains "OK" message then "[OK]"
  else if PyStr.contains "ERR" message then "[ERR]"
  else if PyStr.contains "->" message then "[>>]"
  else "[..]".

Definition displayed (message : string) : string :=
  if 30 <? String.length message
  then String.substring 0 (30 - 3) message +:+ "..."
  else message.

(** The file names [list_images] and [export_to_zip] take for images. *)
Definition is_image_name (f : string) : bool :=
  existsb (λ suf, PyStr.endswith suf (PyStr.lower f)) [".png"; ".jpg"; ".jpeg"].

(** What [export_to_zip] has written: the archive's name and its members,
    each with the path it was read from and its name in the archive.
    [complete] is false when a member could not be added and the export
    stopped there. *)
Record Archive := {
  archive_name : string;
  members : list (string * string);
  complete : bool
}.

(** The loop over [self.images]: [readable] tells whether [zipf.write]
    can read the file. *)
Fixpoint add_members (readable : string → bool) (i : nat) (images : list string)
  : list (string * string) * list Event * bool :=
  match images with
  | [] => ([], [], true)
  | img_path :: rest =>
      if readable img_path then
        let name := Py.basename img_path in
        let '(ms, ev, done) := add_members readable (S i) rest in
        ((img_path, name) :: ms,
         BarUpdate (i + 1) ("Adding " +:+ shorten 20 name) :: ev, done)
      else ([], [], false)
  end.

(** [export_to_zip(filename)].  [listing] is [os.listdir(self.output_dir)],
    or [None] when the directory does not exist; [default_name] is the
    name made from the date; [creatable] tells whether the archive can be
    opened for writing. *)
Definition export_to_zip (listing : option (list string))
    (readable : string → bool) (creatable : bool) (default_name : string)
    (filename : option string) (self : CLI.Self)
  : CLI.Self * option Archive * list Event :=
  let self :=
    match CLI.images self, listing with
    | [], Some files =>
        CLI.set_images
          (Py.path_join (CLI.output_dir self) <$> List.filter is_image_name files)
          self
    | _, _ => self
    end in
  match CLI.images self with
  | [] => (self, None, [Print "[!] No images to export"])
  | _ =>
      let filename :=
        match filename with
        | None | Some EmptyString => default_name
        | Some name => name
        end in
      let ev_start := [Print ("[->] Creating ZIP archive: " +:+ filename)] in
      if creatable then
        let '(ms, ev, done) := add_members readable 0 (CLI.images self) in
        (self,
         Some {| archive_name := filename; members := ms; complete := done |},
         ev_start ++ ev ++
         (if done
          then [BarFinish "[OK] ZIP export completed";
                Print ("[OK] ZIP export successful: " +:+ filename)]
          else [BarFinish "[ERR] ZIP export failed";
                PrintError "[!] Error during ZIP export: "]))
      else
        (self, None,
         ev_start ++ [BarFinish "[ERR] ZIP export failed";
                      PrintError "[!] Error during ZIP export: "])
  end.

End Tools.

(** ** The GUI's viewer: thumbnails, navigation, deletion *)

Module Viewer.

(** The window beyond the pipeline: the index of the image on display and
    the thumbnail list, one item per file path, in the order of the rows. *)
Record Window := {
  self : GUI.Self;
  current_index : Z;
  thumbnails : list string
}.

Definition with_images (l : list string) (w : Window) : Window :=
  {| self := GUI.set_images l (self w); current_index := current_index w;
     thumbnails := thumbnails w |}.

Definition with_index (i : Z) (w : Window) : Window :=
  {| self := self w; current_index := i; thumbnails := thumbnails w |}.

Definition number_of_images (w : Window) : Z :=
  Z.of_nat (length (GUI.images (self w))).

(** The file names [load_captures] takes for images. *)
Definition is_image_name (f : string) : bool :=
  existsb (λ suf, PyStr.endswith suf (PyStr.lower f))
    [".png"; ".jpg"; ".jpeg"; ".gif"; ".bmp"].

(** [load_captures]; [listing] is [os.listdir(self.output_dir)], or [None]
    when the directory does not exist. *)
Definition load_captures (listing : option (list string)) (w : Window) : Window :=
  let images :=
    match listing with
    | Some files =>
        PyStr.sorted
          (Py.path_join (GUI.output_dir (self w)) <$> List.filter is_image_name files)
    | None => []
    end in
  {| self := GUI.set_images images (self w);
     current_index := match images with [] => current_index w | _ => 0 end;
     thumbnails := images |}.

(** [add_new_image_to_list], the slot of the [scan_new_image] signal. *)
Definition add_new_image_to_list (filepath : string) (w : Window) : Window :=
  {| self := self w;
     current_index :=
       if length (GUI.images (self w)) =? 1 then 0 else current_index w;
     thumbnails := thumbnails w ++ [filepath] |}.

(** [filter_thumbnails]: for each row, whether it is hidden. *)
Definition filter_thumbnails (text : string) (w : Window) : list bool :=
  (λ filepath,
     if Py.nonempty text
     then negb (PyStr.contains (PyStr.lower text)
                  (PyStr.lower (Py.basename filepath)))
     else false) <$> thumbnails w.

(** [thumbnail_clicked] on the item of row [row]. *)
Definition thumbnail_clicked (row : Z) (w : Window) : Window :=
  with_index row w.

(** What [show_current_image] puts on display. *)
Inductive Display :=
| NoSelection
| Unloadable
| Shown (filename url : string).

(** The address guessed from a file name that the mapping does not know. *)
Definition guessed_url (filename : string) : string :=
  "https://" +:+
  PyStr.remove_all ".bmp"
    (PyStr.remove_all ".gif"
       (PyStr.remove_all ".jpeg"
          (PyStr.remove_all ".jpg" (PyStr.remove_all ".png" filename)))).

(** [show_current_image]; [loadable] tells whether Qt can read the file. *)
Definition show_current_image (loadable : string → bool) (w : Window) : Display :=
  if ((0 <=? current_index w) && (current_index w <? number_of_images w))%Z then
    match GUI.images (self w) !! Z.to_nat (current_index w) with
    | Some path =>
        if loadable path then
          let filename := Py.basename path in
          Shown filename
            (match GUI.url_mapping (self w) !! filename with
             | Some url => url
             | None => guessed_url filename
             end)
        else Unloadable
    | None => NoSelection
    end
  else NoSelection.

(** [update_navigation]: whether the previous, next and delete buttons
    are enabled. *)
Definition update_navigation (w : Window) : bool * bool * bool :=
  let has_images := (0 <? number_of_images w)%Z in
  (has_images && (0 <? current_index w)%Z,
   has_images && (current_index w <? number_of_images w - 1)%Z,
   has_images).

Definition prev_image (w : Window) : Window :=
  if (0 <? current_index w)%Z then with_index (current_index w - 1) w else w.

Definition next_image (w : Window) : Window :=
  if (current_index w <? number_of_images w - 1)%Z
  then with_index (current_index w + 1) w else w.

(** How [delete_current_image] ends. *)
Inductive Deletion :=
| NothingToDelete
| Declined
| Removed (filename : string)
| RemoveFailed.

(** [del l[i]] for an index in range. *)
Definition del_at {A} (i : nat) (l : list A) : list A := take i l ++ drop (S i) l.

(** [delete_current_image]; [confirmed] is the user's answer and
    [removable] tells whether [os.remove] succeeds. *)
Definition delete_current_image (confirmed removable : bool) (d : Disk)
    (w : Window) : Window * Disk * Deletion :=
  if negb ((0 <=? current_index w) && (current_index w <? number_of_images w))%Z
  then (w, d, NothingToDelete)
  else
    match GUI.images (self w) !! Z.to_nat (current_index w) with
    | None => (w, d, NothingToDelete)
    | Some path =>
        let filename := Py.basename path in
        if negb confirmed then (w, d, Declined)
        else if negb removable then (w, d, RemoveFailed)
        else
          let '(self1, d1) :=
            match GUI.url_mapping (self w) !! filename with
            | Some _ =>
                let self1 :=
                  GUI.set_url_mapping (delete filename (GUI.url_mapping (self w)))
                    (self w) in
                (self1, (GUI.save_url_mapping self1 d).1)
            | None => (self w, d)
            end in
          let i := Z.to_nat (current_index w) in
          let images := del_at i (GUI.images self1) in
          let n := Z.of_nat (length images) in
          ({| self := GUI.set_images images self1;
              current_index :=
                if (n <=? current_index w)%Z then Z.max 0 (n - 1)
                else current_index w;
              thumbnails := del_at i (thumbnails w) |},
           d1, Removed filename)
    end.

(** [closeEvent], as far as the mapping goes. *)
Definition closeEvent (d : Disk) (w : Window) : Disk :=
  (GUI.save_url_mapping (self w) d).1.

End Viewer.

(** ** Vocabulary of the statements *)

(** The values held by the futures the outcome loop receives. *)
Definition outcomes (yielded : list Future) : list Outcome :=
  omap (λ f, match f with Done o _ _ => Some o | _ => None end) yielded.

Definition succeeded (os : list Outcome) : list Outcome :=
  filter (λ o, ok o = true) os.

(** The progress notifications in a log: the completed counts passed to
    [progress_bar.update] (CLI) and formatted into [scan_progress] (GUI). *)
Definition bar_updates (log : list Event) : list nat :=
  omap (λ e, match e with BarUpdate n _ => Some n | _ => None end) log.

Definition progress_signals (log : list Event) : list nat :=
  omap (λ e, match e with EmitProgress n _ _ => Some n | _ => None end) log.

(** The events that show the executor at work. *)
Definition pool_event (e : Event) : bool :=
  match e with Executor _ | Submit _ => true | _ => false end.

(** A whole run of the executor on [urls] without a stop request: every
    task has finished. *)
Definition complete_run (max_workers : nat) (task : bool → string → Outcome)
    (urls : list string) (s : Pool.State) : Prop :=
  Pool.reachable max_workers task urls s ∧ Pool.active s = true ∧
  Pool.quiescent s.

(** The origin a match of the token pattern contributes to the set, if
    any: none when [urlparse] raises or the netloc is empty. *)
Definition origin_of (m : string) : option string :=
  match Py.urlparse m with
  | Py.Parsed parsed =>
      if Py.nonempty (Py.netloc parsed)
      then Some (Py.scheme parsed +:+ "://" +:+ Py.netloc parsed)
      else None
  | Py.ValueError => None
  end.

(** The characters an extracted netloc is made of: those of the token
    class other than [/], [?] and [#]. *)
Definition netloc_char (c : ascii) : bool :=
  Py.url_char c && negb (Py.netloc_delim c).

(** An origin as C2 words it, with the port the spec's data model allows:
    [http] or [https], [://], a non-empty host, and then nothing or [:] and
    the digits of a port.  A host holds none of [@], [:], [/], [?], [#]. *)
Definition host_char (c : ascii) : bool :=
  Py.url_char c && negb (Py.one_of "@:/?#" c).

Definition is_host_origin (u : string) : bool :=
  match
    match Py.strip_prefix "http://" u with
    | Some after => Some after
    | None => Py.strip_prefix "https://" u
    end
  with
  | Some after =>
      let '(host, tail) := Py.span host_char after in
      Py.nonempty host
      && match tail with
         | EmptyString => true
         | String c port =>
             Ascii.eqb c ":" && Py.str_forall Py.ascii_digit port
         end
  | None => false
  end.

(** The text of end-to-end scenario A. *)
Definition scenario_A : string :=
  "visit http://a.com/x and also http://a.com/y plus https://b.org".

(** The number of turns the GUI's outcome loop completes on [n] yielded
    futures, counted from turn [i]: all of them, or those before the first
    check that finds the stop flag set. *)
Fixpoint turns (stopped : nat → bool) (i n : nat) : nat :=
  match n with
  | 0 => 0
  | S n' => if stopped i then 0 else S (turns stopped (S i) n')
  end.


(** The history file as [load_history] reads it. *)
Definition persisted_history (d : Disk) : list HistoryEntry :=
  match history_json d with Content h => h | _ => [] end.

(** The mapping file as [load_url_mapping] reads it into a fresh object. *)
Definition persisted_mapping (d : Disk) : gmap string string :=
  match mapping_json d with Content m => m | _ => ∅ end.

(** The end of a session of either entry point: the call of
    [save_to_history] with the date, the object and the two counts. *)
Inductive Session :=
| CliSession (today : string) (self : CLI.Self) (total successful : nat)
| GuiSession (today : string) (self : GUI.Self) (total successful : nat).

Definition append_history (x : Session) (d : Disk) : Disk :=
  match x with
  | CliSession today self total successful =>
      (CLI.save_to_history today self total successful d).1
  | GuiSession today self total successful =>
      (GUI.save_to_history today self total successful d).1
  end.

(** The entry the session's [save_to_history] builds. *)
Definition session_entry (x : Session) : HistoryEntry :=
  match x with
  | CliSession today self total successful =>
      {| date := today; entry_input_file := CLI.input_file self;
         entry_output_dir := CLI.output_dir self;
         total_urls := total; successful := successful |}
  | GuiSession today self total successful =>
      {| date := today;
         entry_input_file := Some (default "Unknown" (GUI.input_file self));
         entry_output_dir := GUI.output_dir self;
         total_urls := total; successful := successful |}
  end.

Definition after_sessions (xs : list Session) (d : Disk) : Disk :=
  foldl (λ d x, append_history x d) d xs.

(** The file stem both capture functions derive from a URL: the netloc
    with [re.sub] applied; [None] when [urlparse] raises. *)
Definition file_stem (u : string) : option string :=
  match Py.urlparse u with
  | Py.Parsed parsed => Some (Py.sub_unsafe (Py.netloc parsed))
  | Py.ValueError => None
  end.

(** The sanitisation as C6 words it: every character that is not a word
    character becomes an underscore. *)
Fixpoint replace_non_word (s : string) : string :=
  match s with
  | EmptyString => EmptyString
  | String c s' =>
      String (if Py.isword c then c else "_"%char) (replace_non_word s')
  end.

(** An origin as the extraction writes it: [http] or [https], [://], and a
    non-empty netloc of characters of the token class other than [/], [?]
    and [#]. *)
Definition is_origin (u : string) : Prop :=
  ∃ sch nl, u = sch +:+ "://" +:+ nl
    ∧ (sch = "http" ∨ sch = "https")
    ∧ Py.nonempty nl = true
    ∧ Py.str_forall netloc_char nl = true.

(** What may follow the netloc inside one token: nothing, or a path, query
    or fragment made of characters of the token class. *)
Definition is_url_tail (t : string) : Prop :=
  Py.str_forall Py.url_char t = true
  ∧ match t with
    | EmptyString => True
    | String c _ => Py.netloc_delim c = true
    end.

(** A list of URLs written one per line. *)
Definition one_per_line (l : list string) : string :=
  foldr (λ u acc, u +:+ String "010"%char acc) EmptyString l.

(** The index is that of an image of the list. *)
Definition index_in_range (w : Viewer.Window) : Prop :=
  (0 ≤ Viewer.current_index w < Viewer.number_of_images w)%Z.

(** The loop variables [run_scan] of the CLI ends with once URLs were
    found: those of the loop, or the initial ones when the executor could
    not be created. *)
Definition cli_scan_loop (w : CLI.World) (cli : CLI.Self) (found : list string)
  : CLI.Loop :=
  if (CLI.threads cli <=? 0)%Z then
    {| CLI.self := CLI.set_urls found cli; CLI.successful_captures := 0;
       CLI.failed_captures := 0; CLI.now := 0;
       CLI.log := [PrintError "[!] Scan error: "] |}
  else
    CLI.loop 0
      (Pool.as_completed (CLI.scheduler w (Z.to_nat (CLI.threads cli)) found))
      {| CLI.self := CLI.set_urls found cli; CLI.successful_captures := 0;
         CLI.failed_captures := 0; CLI.now := 0;
         CLI.log := Executor (Z.to_nat (CLI.threads cli)) :: (Submit <$> found) |}.

(** The number of workers [run_scan] of the GUI asks for, and the loop
    variables it ends with once URLs were found. *)
Definition gui_workers (w : GUI.World) : nat :=
  Nat.min 4 (match GUI.cpu_count w with Some 0 | None => 1 | Some n => n end).

Definition gui_scan_loop (w : GUI.World) (gui : GUI.Self) (found : list string)
  : GUI.Loop :=
  GUI.loop (GUI.stopped w) (length found) 0
    (Pool.as_completed (GUI.scheduler w (gui_workers w) found))
    {| GUI.self := GUI.set_urls found gui; GUI.successful_captures := 0;
       GUI.now := 0;
       GUI.log := Executor (gui_workers w) :: (Submit <$> found) |}.

(** The index is that of an image of the list, unless there is none. *)
Definition index_settled (w : Viewer.Window) : Prop :=
  GUI.images (Viewer.self w) = [] ∨ index_in_range w.

(** The members and the completion flag of [add_members]. *)
Definition add_members_result (readable : string → bool) (i : nat)
    (images : list string) : list (string * string) * bool :=
  ((Tools.add_members readable i images).1.1,
   (Tools.add_members readable i images).2).

(** ** Sample inputs *)

(** A browser that captures every page, and one that fails on every page. *)
Definition obliging_browser : Browser :=
  {| goto := λ _ _, None; screenshot := λ _ _, None |}.

Definition failing_browser : Browser :=
  {| goto := λ _ _, Some "timeout"; screenshot := λ _ _, None |}.

(** The command line [-i urls.txt] with the defaults of [main]. *)
Definition sample_cli : CLI.Self :=
  {| CLI.input_file := Some "urls.txt"; CLI.output_dir := "screenshots";
     CLI.threads := 4; CLI.quality := 85; CLI.timeout := 15000;
     CLI.images := []; CLI.url_mapping := ∅; CLI.urls := [] |}.

(** The window after [urls.txt] has been chosen and a scan started. *)
Definition sample_gui : GUI.Self :=
  {| GUI.input_file := Some "urls.txt"; GUI.output_dir := "screenshots";
     GUI.images := []; GUI.url_mapping := ∅; GUI.urls := [];
     GUI.scan_active := true |}.

(** A working directory holding only [urls.txt]. *)
Definition fresh_disk (text : string) : Disk :=
  {| texts := λ path, if decide (path = "urls.txt") then Some text else None;
     mapping_json := Absent; history_json := Absent;
     mapping_writable := true; history_writable := true |}.

(** Worlds over that directory in which the executor is observed right
    after the submission. *)
Definition sample_cli_world (text : string) : CLI.World :=
  {| CLI.disk := fresh_disk text; CLI.browser := obliging_browser;
     CLI.today := "2026-01-01 00:00:00";
     CLI.scheduler := λ _ urls, Pool.submit_all urls |}.

Definition sample_gui_world (text : string) : GUI.World :=
  {| GUI.disk := fresh_disk text; GUI.browser := obliging_browser;
     GUI.today := "2026-01-01 00:00:00"; GUI.cpu_count := Some 8;
     GUI.scheduler := λ _ urls, Pool.submit_all urls;
     GUI.stopped := λ _, false |}.

(** A directory with a mapping file from an earlier scan, the CLI object
    that starts on it, and a world in which every task finishes, in the
    order of submission, one second after it was taken. *)
Definition earlier_mapping : gmap string string :=
  {[ "old.example.jpg" := "http://old.example" ]}.

Definition later_disk : Disk :=
  {| texts := λ path,
       if decide (path = "urls.txt") then Some "go to https://b.org/now"
       else None;
     mapping_json := Content earlier_mapping; history_json := Absent;
     mapping_writable := true; history_writable := true |}.

Definition later_cli : CLI.Self := (CLI.load_url_mapping later_disk sample_cli).1.

Definition in_order (task : string → Outcome) (urls : list string) : Pool.State :=
  {| Pool.futures := (λ u, Done (task u) 0 1) <$> urls; Pool.clock := 1;
     Pool.active := true; Pool.completed := seq 0 (length urls) |}.

Definition later_world : CLI.World :=
  {| CLI.disk := later_disk; CLI.browser := obliging_browser;
     CLI.today := "2026-01-02 00:00:00";
     CLI.scheduler := λ _, in_order (CLI.capture_screenshot obliging_browser later_cli) |}.



Definition gui_start : GUI.Loop :=
  {| GUI.self := sample_gui; GUI.successful_captures := 0; GUI.now := 0;
     GUI.log := [] |}.

Definition cli_start : CLI.Loop :=
  {| CLI.self := sample_cli; CLI.successful_captures := 0;
     CLI.failed_captures := 0; CLI.now := 0; CLI.log := [] |}.

(** A page that takes 100 seconds to capture: the executor after the task
    was taken at time 0 and finished at time 100. *)
Definition slow_url : string := "http://slow.example".

Definition slow_run (task : bool → string → Outcome) : Pool.State :=
  {| Pool.futures := [Done (task true slow_url) 0 100]; Pool.clock := 100;
     Pool.active := true; Pool.completed := [0] |}.

(** Worlds in which the one page found takes 100 seconds, a CLI object
    whose [threads] option is 0, and a world for it. *)
Definition slow_cli_world : CLI.World :=
  {| CLI.disk := fresh_disk "see http://slow.example/page";
     CLI.browser := obliging_browser; CLI.today := "2026-01-03 00:00:00";
     CLI.scheduler := λ _ _,
       slow_run (λ _, CLI.capture_screenshot obliging_browser
                        (CLI.set_urls [slow_url] sample_cli)) |}.

Definition slow_gui_world : GUI.World :=
  {| GUI.disk := fresh_disk "see http://slow.example/page";
     GUI.browser := obliging_browser; GUI.today := "2026-01-03 00:00:00";
     GUI.cpu_count := Some 8;
     GUI.scheduler := λ _ _,
       slow_run (GUI.capture obliging_browser
                   (GUI.set_urls [slow_url] sample_gui));
     GUI.stopped := λ _, false |}.

Definition idle_cli : CLI.Self :=
  {| CLI.input_file := Some "urls.txt"; CLI.output_dir := "screenshots";
     CLI.threads := 0; CLI.quality := 85; CLI.timeout := 15000;
     CLI.images := []; CLI.url_mapping := ∅; CLI.urls := [] |}.


(** The window after the scan of the GUI in the slow world, and the
    window of a GUI started after the scan of the CLI there, once the file
    the CLI wrote has been loaded from the output directory. *)
Definition slow_gui_window : Viewer.Window :=
  {| Viewer.self := (GUI.run_scan slow_gui_world sample_gui).1.1;
     Viewer.current_index := 0;
     Viewer.thumbnails := ["screenshots/slow.example.png"] |}.

Definition slow_cli_window : Viewer.Window :=
  Viewer.load_captures (Some ["slow.example.jpg"])
    {| Viewer.self :=
         (GUI.load_url_mapping (CLI.run_scan slow_cli_world sample_cli).1.2
            sample_gui).1;
       Viewer.current_index := 0; Viewer.thumbnails := [] |}.

(** A window on two captures, the first of which is on display; the
    mapping knows the first only. *)
Definition two_image_window : Viewer.Window :=
  {| Viewer.self :=
       GUI.set_url_mapping {[ "a.com.png" := "http://a.com" ]}
         (GUI.set_images ["screenshots/a.com.png"; "screenshots/b.org.png"]
            sample_gui);
     Viewer.current_index := 0;
     Viewer.thumbnails := ["screenshots/a.com.png"; "screenshots/b.org.png"] |}.

(** * Properties *)

(** ** The executor *)

Section pool_facts.
Variable max_workers : nat.
Variable task : bool → string → Outcome.
Variable urls : list string.

Abbreviation step := (Pool.step max_workers task urls).
Abbreviation reachable := (Pool.reachable max_workers task urls).

(** What holds of every state of the executor: one future per URL; the
    completion order lists the finished tasks, each once; and as long as
    no stop was requested, nothing is cancelled and every task taken by a
    worker computes the task function of its own URL. *)
Record pool_inv (s : Pool.State) : Prop := {
  inv_length : length (Pool.futures s) = length urls;
  inv_nodup : NoDup (Pool.completed s);
  inv_completed : ∀ i,
    i ∈ Pool.completed s ↔ ∃ o t0 t1, Pool.futures s !! i = Some (Done o t0 t1);
  inv_value : Pool.active s = true → ∀ i f,
    Pool.futures s !! i = Some f →
    match f with
    | Pending => True
    | Running o _ | Done o _ _ => ∃ u, urls !! i = Some u ∧ o = task true u
    | Cancelled => False
    end
}.

Lemma pool_inv_init : pool_inv (Pool.submit_all urls).
Proof.
  split; simpl.
  - by rewrite length_fmap.
  - constructor.
  - intros i. split; [by intros ?%elem_of_nil|].
    intros (o & t0 & t1 & H). rewrite list_lookup_fmap in H.
    destruct (urls !! i); discriminate.
  - intros _ i f H. rewrite list_lookup_fmap in H.
    destruct (urls !! i); simplify_eq/=; done.
Qed.

Lemma pool_inv_step s s' : pool_inv s → step s s' → pool_inv s'.
Proof.
  intros [Hlen Hnd Hc Hv] Hstep.
  destruct Hstep as [s|s|s i u Hi Hfifo Hrun Hu|s i o t0 Hi|s i Hact Hi];
    split; simpl; try done.
  - (* start *) by rewrite length_insert.
  - intros j. rewrite Hc. destruct (decide (i = j)) as [->|Hne].
    + rewrite list_lookup_insert_eq by (by eapply lookup_lt_Some).
      rewrite Hi. split; intros (? & ? & ? & [=]).
    + by rewrite list_lookup_insert_ne.
  - intros Hact j f. destruct (decide (i = j)) as [->|Hne].
    + rewrite list_lookup_insert_eq by (by eapply lookup_lt_Some).
      intros [= <-]. rewrite Hact. eauto.
    + rewrite list_lookup_insert_ne by done. by apply Hv.
  - (* finish *) by rewrite length_insert.
  - apply NoDup_app. split_and!; [done| |apply NoDup_singleton].
    intros j Hj ->%list_elem_of_singleton.
    apply Hc in Hj as (? & ? & ? & Hj). congruence.
  - intros j. rewrite elem_of_app, list_elem_of_singleton, Hc.
    destruct (decide (i = j)) as [->|Hne].
    + rewrite list_lookup_insert_eq by (by eapply lookup_lt_Some).
      split; eauto.
    + rewrite list_lookup_insert_ne by done.
      split; [intros [?|?]; done | auto].
  - intros Hact j f. destruct (decide (i = j)) as [->|Hne].
    + rewrite list_lookup_insert_eq by (by eapply lookup_lt_Some).
      intros [= <-]. by apply (Hv Hact j (Running o t0)).
    + rewrite list_lookup_insert_ne by done. by apply Hv.
  - (* cancel *) by rewrite length_insert.
  - intros j. rewrite Hc. destruct (decide (i = j)) as [->|Hne].
    + rewrite list_lookup_insert_eq by (by eapply lookup_lt_Some).
      rewrite Hi. split; intros (? & ? & ? & [=]).
    + by rewrite list_lookup_insert_ne.
  - congruence.
Qed.

Lemma pool_inv_reachable s : reachable s → pool_inv s.
Proof.
  unfold Pool.reachable. revert s.
  apply (rtc_ind_r _ _ pool_inv_init).
  intros s1 s2 _ Hstep Hinv. by eapply pool_inv_step.
Qed.

(** The stop flag never comes back. *)
Lemma active_step s s' : step s s' → Pool.active s' = true → Pool.active s = true.
Proof. by destruct 1. Qed.

(** Counting futures, and the effect of changing one of them. *)
Lemma count_insert (p : Future → bool) l i x y :
  l !! i = Some x →
  Pool.count p (<[i := y]> l) + (if p x then 1 else 0)
  = Pool.count p l + (if p y then 1 else 0).
Proof.
  revert i. induction l as [|f l IH]; intros [|i] H; simplify_eq/=.
  - lia.
  - specialize (IH i H). lia.
Qed.

Lemma count_first (p : Future → bool) l :
  0 < Pool.count p l →
  ∃ i x, l !! i = Some x ∧ p x = true ∧
         ∀ j y, j < i → l !! j = Some y → p y = false.
Proof.
  induction l as [|f l IH]; simpl; [lia|].
  destruct (p f) eqn:Hf.
  - intros _. exists 0, f. split_and!; [done..|]. intros; lia.
  - intros H. destruct IH as (i & x & Hi & Hx & Hlt); [lia|].
    exists (S i), x. split_and!; [done..|].
    intros [|j] y Hj Hy; simplify_eq/=; [done|].
    apply (Hlt j y); [lia|done].
Qed.

Lemma count_zero (p : Future → bool) l :
  Pool.count p l = 0 → Forall (λ f, p f = false) l.
Proof.
  induction l as [|f l IH]; simpl; [constructor|].
  destruct (p f) eqn:Hf; [lia|]. intros H. constructor; auto.
Qed.

Lemma quiescent_count s :
  Pool.count Pool.is_pending (Pool.futures s) = 0 →
  Pool.count Pool.is_running (Pool.futures s) = 0 →
  Pool.quiescent s.
Proof.
  intros Hp%count_zero Hr%count_zero. unfold Pool.quiescent.
  rewrite Forall_forall in *. intros f Hf.
  specialize (Hp f Hf). specialize (Hr f Hf). by destruct f.
Qed.

(** No deadlock: with at least one worker, and as long as no stop was
    requested, the executor can always go on until every task has
    finished. *)
Lemma pool_can_finish s :
  1 ≤ max_workers → pool_inv s → Pool.active s = true →
  ∃ s', rtc step s s' ∧ Pool.quiescent s' ∧ Pool.active s' = true.
Proof.
  intros Hw.
  remember (2 * Pool.count Pool.is_pending (Pool.futures s)
            + Pool.count Pool.is_running (Pool.futures s)) as m eqn:Hm.
  revert s Hm. induction m as [m IH] using lt_wf_ind. intros s Hm Hinv Hact.
  destruct (decide (0 < Pool.count Pool.is_running (Pool.futures s)))
    as [Hr|Hr].
  { (* a running task finishes *)
    apply count_first in Hr as (i & [| o t0 | |] & Hi & ? & _); try done.
    set (s1 := {| Pool.futures := <[i := Done o t0 (Pool.clock s)]> (Pool.futures s);
                  Pool.clock := Pool.clock s; Pool.active := Pool.active s;
                  Pool.completed := Pool.completed s ++ [i] |}).
    assert (step s s1) as Hstep by (by eapply Pool.step_finish).
    pose proof (count_insert Pool.is_pending _ _ _
                  (Done o t0 (Pool.clock s)) Hi) as Hp.
    pose proof (count_insert Pool.is_running _ _ _
                  (Done o t0 (Pool.clock s)) Hi) as Hq.
    simpl in Hp, Hq.
    destruct (IH (2 * Pool.count Pool.is_pending (Pool.futures s1)
                  + Pool.count Pool.is_running (Pool.futures s1)))
      with (s := s1) as (s' & Hs' & ?); simpl; [lia|done| |done|].
    { by eapply pool_inv_step. }
    exists s'. split; [by eapply rtc_l|done]. }
  destruct (decide (0 < Pool.count Pool.is_pending (Pool.futures s)))
    as [Hp|Hp].
  { (* the head of the queue is taken by a free worker *)
    apply count_first in Hp as (i & [| | |] & Hi & ? & Hfirst); try done.
    destruct (urls !! i) as [u|] eqn:Hu.
    2:{ apply lookup_ge_None in Hu. apply lookup_lt_Some in Hi.
        rewrite (inv_length _ Hinv) in Hi. lia. }
    set (f1 := Running (task (Pool.active s) u) (Pool.clock s)).
    set (s1 := {| Pool.futures := <[i := f1]> (Pool.futures s);
                  Pool.clock := Pool.clock s; Pool.active := Pool.active s;
                  Pool.completed := Pool.completed s |}).
    assert (step s s1) as Hstep.
    { eapply Pool.step_start; [done| |unfold Pool.running; lia|done].
      intros j Hj Hpj. by specialize (Hfirst j Pending Hj Hpj). }
    pose proof (count_insert Pool.is_pending _ _ _ f1 Hi) as Hp.
    pose proof (count_insert Pool.is_running _ _ _ f1 Hi) as Hq.
    simpl in Hp, Hq.
    destruct (IH (2 * Pool.count Pool.is_pending (Pool.futures s1)
                  + Pool.count Pool.is_running (Pool.futures s1)))
      with (s := s1) as (s' & Hs' & ?); simpl; [lia|done| |done|].
    { by eapply pool_inv_step. }
    exists s'. split; [by eapply rtc_l|done]. }
  exists s. split_and!; [done| |done].
  apply quiescent_count; lia.
Qed.

(** When every task has finished and no stop was requested, each URL has
    its own finished future, and the completion order is a rearrangement of
    the submission order. *)
Lemma quiescent_done s i u :
  pool_inv s → Pool.active s = true → Pool.quiescent s →
  urls !! i = Some u →
  ∃ t0 t1, Pool.futures s !! i = Some (Done (task true u) t0 t1).
Proof.
  intros Hinv Hact Hq Hu.
  destruct (Pool.futures s !! i) as [f|] eqn:Hf.
  2:{ apply lookup_ge_None in Hf. apply lookup_lt_Some in Hu.
      rewrite (inv_length _ Hinv) in Hf. lia. }
  pose proof (inv_value _ Hinv Hact i f Hf) as Hv.
  unfold Pool.quiescent in Hq. rewrite Forall_forall in Hq.
  specialize (Hq f (list_elem_of_lookup_2 _ _ _ Hf)).
  destruct f as [|o t0|o t0 t1|]; try done.
  destruct Hv as (u' & Hu' & ->). simplify_eq. eauto.
Qed.

Lemma quiescent_completed s :
  pool_inv s → Pool.active s = true → Pool.quiescent s →
  Pool.completed s ≡ₚ seq 0 (length urls).
Proof.
  intros Hinv Hact Hq. apply NoDup_Permutation.
  - apply Hinv.
  - apply NoDup_seq.
  - intros i. rewrite (inv_completed _ Hinv), elem_of_seq. split.
    + intros (o & t0 & t1 & Hi). apply lookup_lt_Some in Hi.
      rewrite (inv_length _ Hinv) in Hi. lia.
    + intros [_ Hi]. destruct (lookup_lt_is_Some_2 urls i) as [u Hu]; [lia|].
      destruct (quiescent_done s i u) as (t0 & t1 & ?); eauto.
Qed.

Lemma fmap_seq_lookup {A} (g : string → A) (l : list string) :
  (λ i, g (default EmptyString (l !! i))) <$> seq 0 (length l) = g <$> l.
Proof.
  apply list_eq. intros i. rewrite !list_lookup_fmap.
  destruct (decide (i < length l)) as [Hi|Hi].
  - rewrite lookup_seq_lt by done. simpl.
    destruct (lookup_lt_is_Some_2 l i Hi) as [u Hu]. by rewrite Hu.
  - rewrite lookup_seq_ge by lia. by rewrite lookup_ge_None_2 by lia.
Qed.

Lemma as_completed_outcomes s :
  pool_inv s → Pool.active s = true → Pool.quiescent s →
  outcomes (Pool.as_completed s)
  = (λ i, task true (default EmptyString (urls !! i))) <$> Pool.completed s
  ∧ length (Pool.as_completed s) = length (Pool.completed s)
  ∧ Forall (λ f, ∃ o t0 t1, f = Done o t0 t1) (Pool.as_completed s).
Proof.
  intros Hinv Hact Hq. unfold Pool.as_completed, outcomes.
  assert (∀ i, i ∈ Pool.completed s → i < length urls) as Hlt.
  { intros i (o & t0 & t1 & Hi)%(inv_completed _ Hinv).
    apply lookup_lt_Some in Hi. by rewrite <-(inv_length _ Hinv). }
  induction (Pool.completed s) as [|i l IH]; [done|].
  destruct IH as (IH1 & IH2 & IH3).
  { intros j Hj. apply Hlt. by right. }
  destruct (lookup_lt_is_Some_2 urls i) as [u Hu]; [apply Hlt; by left|].
  destruct (quiescent_done s i u) as (t0 & t1 & Hi); [done..|].
  cbn [omap list_omap]. rewrite Hi. cbn [omap list_omap].
  split_and!.
  - rewrite fmap_cons, Hu. simpl. f_equal. apply IH1.
  - simpl. by rewrite IH2.
  - constructor; [eauto|done].
Qed.

(** The executor loses nothing: a complete run yields one finished future
    per submitted URL, holding the value of the task for that URL. *)
Lemma complete_run_outcomes s :
  complete_run max_workers task urls s →
  length (Pool.as_completed s) = length urls
  ∧ Forall (λ f, ∃ o t0 t1, f = Done o t0 t1) (Pool.as_completed s)
  ∧ outcomes (Pool.as_completed s) ≡ₚ task true <$> urls.
Proof.
  intros (Hr%pool_inv_reachable & Hact & Hq).
  destruct (as_completed_outcomes s) as (Ho & Hl & Hd); [done..|].
  pose proof (quiescent_completed s Hr Hact Hq) as Hp.
  split_and!; [|done|].
  - by rewrite Hl, Hp, length_seq.
  - rewrite Ho, Hp. by rewrite fmap_seq_lookup.
Qed.

Lemma complete_run_exists :
  1 ≤ max_workers → ∃ s, complete_run max_workers task urls s.
Proof.
  intros Hw.
  destruct (pool_can_finish (Pool.submit_all urls)) as (s & Hs & Hq & Hact);
    [done|apply pool_inv_init|done|].
  exists s. by split_and!.
Qed.





End pool_facts.

(** ** The outcome loops *)

(** A future handed over by [as_completed] answers at once: the loop's
    clock has reached its completion time. *)
Lemma done_result now o t0 t1 :
  future_result (Nat.max now (completion_time (Done o t0 t1))) 60 (Done o t0 t1)
  = inl o.
Proof.
  simpl. destruct (Nat.leb_spec t1 (Nat.max now t1 + 60)); [done|lia].
Qed.

Lemma succeeded_cons o os :
  succeeded (o :: os) = if ok o then o :: succeeded os else succeeded os.
Proof.
  unfold succeeded. rewrite filter_cons.
  destruct (ok o); by case_decide.
Qed.

Lemma cli_capture_url b self u : url (CLI.capture_screenshot b self u) = u.
Proof.
  unfold CLI.capture_screenshot.
  repeat (case_match; simpl; try done).
Qed.

Lemma gui_capture_url b self active u : url (GUI.capture b self active u) = u.
Proof.
  unfold GUI.capture.
  repeat (case_match; simpl; try done).
Qed.

Lemma cli_loop_done fs : ∀ i st,
  Forall (λ f, ∃ o t0 t1, f = Done o t0 t1) fs →
  let st' := CLI.loop i fs st in
  CLI.successful_captures st'
  = CLI.successful_captures st + length (succeeded (outcomes fs))
  ∧ CLI.successful_captures st' + CLI.failed_captures st'
    = CLI.successful_captures st + CLI.failed_captures st + length fs
  ∧ CLI.images (CLI.self st')
    = CLI.images (CLI.self st) ++ (result <$> succeeded (outcomes fs))
  ∧ bar_updates (CLI.log st') = bar_updates (CLI.log st) ++ seq (S i) (length fs).
Proof.
  induction fs as [|f fs IH]; intros i st Hall; simpl.
  { rewrite !app_nil_r. split_and!; [| |done..]; unfold succeeded; simpl; lia. }
  apply Forall_cons in Hall as [(o & t0 & t1 & ->) Hall].
  destruct (IH (S i) (CLI.loop_body i (Done o t0 t1) st) Hall)
    as (H1 & H2 & H3 & H4).
  revert H1 H2 H3 H4. clear IH. unfold CLI.loop_body. rewrite done_result.
  change (outcomes (Done o t0 t1 :: fs)) with (o :: outcomes fs).
  rewrite succeeded_cons.
  destruct (ok o); simpl;
    (match goal with
     | |- context [CLI.loop ?a ?b ?c] => generalize (CLI.loop a b c)
     end);
    intros r H1 H2 H3 H4; rewrite H3, H4;
    unfold bar_updates; rewrite omap_app; simpl;
    rewrite <-?app_assoc; simpl; replace (i + 1) with (S i) by lia;
    split_and!; try done; lia.
Qed.

Lemma gui_loop_done total fs : ∀ i st,
  Forall (λ f, ∃ o t0 t1, f = Done o t0 t1) fs →
  let st' := GUI.loop (λ _, false) total i fs st in
  GUI.successful_captures st'
  = GUI.successful_captures st + length (succeeded (outcomes fs))
  ∧ GUI.images (GUI.self st')
    = GUI.images (GUI.self st) ++ (result <$> succeeded (outcomes fs))
  ∧ progress_signals (GUI.log st')
    = progress_signals (GUI.log st) ++ seq (S i) (length fs).
Proof.
  induction fs as [|f fs IH]; intros i st Hall; simpl.
  { rewrite !app_nil_r. split_and!; [|done..]; unfold succeeded; simpl; lia. }
  apply Forall_cons in Hall as [(o & t0 & t1 & ->) Hall].
  destruct (IH (S i) (GUI.loop_body total i (Done o t0 t1) st) Hall)
    as (H1 & H3 & H4).
  revert H1 H3 H4. clear IH. unfold GUI.loop_body. rewrite done_result.
  change (outcomes (Done o t0 t1 :: fs)) with (o :: outcomes fs).
  rewrite succeeded_cons.
  destruct (ok o); simpl;
    (match goal with
     | |- context [GUI.loop ?z ?t ?a ?b ?c] => generalize (GUI.loop z t a b c)
     end);
    intros r H1 H3 H4; rewrite H3, H4;
    unfold progress_signals; rewrite omap_app; simpl;
    rewrite <-?app_assoc; simpl; replace (i + 1) with (S i) by lia;
    split_and!; try done; lia.
Qed.

(** ** C1: one outcome per submitted URL *)

(** C1.  For every list of URLs submitted to the executor with at least one
    worker and no stop request, the run can be completed, and whenever it
    is, the outcome loop of either entry point receives exactly as many
    outcomes as URLs were submitted: they are, up to the order of
    completion, the values of the capture task on the submitted URLs, each
    tagged with its own URL, and the loop notifies progress once for each
    (counts 1 to N) and counts each as a success or a failure. *)
Theorem every_submitted_url_yields_one_outcome
    (C : nat) (b : Browser) (cli : CLI.Self) (gui : GUI.Self)
    (urls : list string) :
  1 ≤ C →
  (∃ s, complete_run C (λ _, CLI.capture_screenshot b cli) urls s)
  ∧ (∃ s, complete_run C (GUI.capture b gui) urls s)
  ∧ (∀ s st, complete_run C (λ _, CLI.capture_screenshot b cli) urls s →
       let yielded := Pool.as_completed s in
       let st' := CLI.loop 0 yielded st in
       length yielded = length urls
       ∧ outcomes yielded ≡ₚ CLI.capture_screenshot b cli <$> urls
       ∧ url <$> outcomes yielded ≡ₚ urls
       ∧ bar_updates (CLI.log st')
         = bar_updates (CLI.log st) ++ seq 1 (length urls)
       ∧ CLI.successful_captures st' + CLI.failed_captures st'
         = CLI.successful_captures st + CLI.failed_captures st + length urls
       ∧ CLI.successful_captures st'
         = CLI.successful_captures st + length (succeeded (outcomes yielded)))
  ∧ (∀ s st, complete_run C (GUI.capture b gui) urls s →
       let yielded := Pool.as_completed s in
       let st' := GUI.loop (λ _, false) (length urls) 0 yielded st in
       length yielded = length urls
       ∧ outcomes yielded ≡ₚ GUI.capture b gui true <$> urls
       ∧ url <$> outcomes yielded ≡ₚ urls
       ∧ progress_signals (GUI.log st')
         = progress_signals (GUI.log st) ++ seq 1 (length urls)
       ∧ GUI.successful_captures st'
         = GUI.successful_captures st + length (succeeded (outcomes yielded))).
Proof.
  intros HC. split_and!.
  - by apply complete_run_exists.
  - by apply complete_run_exists.
  - intros s st Hrun.
    destruct (complete_run_outcomes _ _ _ s Hrun) as (Hlen & Hdone & Hperm).
    destruct (cli_loop_done _ 0 st Hdone) as (H1 & H2 & _ & H4).
    cbn zeta. rewrite H4, H2, Hlen. split_and!; try done.
    rewrite Hperm, <-list_fmap_compose.
    erewrite list_fmap_ext; [by rewrite list_fmap_id|].
    intros _ u _. apply cli_capture_url.
  - intros s st Hrun.
    destruct (complete_run_outcomes _ _ _ s Hrun) as (Hlen & Hdone & Hperm).
    destruct (gui_loop_done (length urls) _ 0 st Hdone) as (H1 & _ & H4).
    cbn zeta. rewrite H4, Hlen. split_and!; try done.
    rewrite Hperm, <-list_fmap_compose.
    erewrite list_fmap_ext; [by rewrite list_fmap_id|].
    intros _ u _. apply gui_capture_url.
Qed.

Lemma every_submitted_url_yields_one_outcome_witness :
  1 ≤ 2
  ∧ ∃ s, complete_run 2 (λ _, CLI.capture_screenshot obliging_browser sample_cli)
           ["http://a.com"; "https://b.org"] s.
Proof.
  split; [lia|].
  apply (every_submitted_url_yields_one_outcome 2 obliging_browser sample_cli
           sample_gui ["http://a.com"; "https://b.org"]).
  lia.
Defined.

(** ** C5: the scan history *)

Lemma append_history_persisted x d :
  persisted_history (append_history x d)
  = if history_writable d
    then session_entry x :: take 19 (persisted_history d)
    else persisted_history d.
Proof.
  destruct x as [today self total k|today self total k]; simpl;
    unfold CLI.save_to_history, GUI.save_to_history,
      CLI.load_history, GUI.load_history, persisted_history;
    destruct (history_json d) eqn:Hj, (history_writable d) eqn:Hw; simpl;
    rewrite ?Hj; done.
Qed.

Lemma append_history_writable x d :
  history_writable (append_history x d) = history_writable d.
Proof.
  destruct x as [today self total k|today self total k]; simpl;
    unfold CLI.save_to_history, GUI.save_to_history,
      CLI.load_history, GUI.load_history;
    destruct (history_json d) eqn:Hj, (history_writable d) eqn:Hw; simpl;
    rewrite ?Hw; done.
Qed.

Lemma after_sessions_writable xs d :
  history_writable (after_sessions xs d) = history_writable d.
Proof.
  revert d. induction xs as [|x xs IH]; intros d; [done|].
  change (after_sessions (x :: xs) d)
    with (after_sessions xs (append_history x d)).
  by rewrite IH, append_history_writable.
Qed.

Lemma after_sessions_snoc xs x d :
  after_sessions (xs ++ [x]) d = append_history x (after_sessions xs d).
Proof. unfold after_sessions. by rewrite foldl_app. Qed.

(** C5.  Starting from a history of at most 20 entries (in particular from
    no history file), after any number of sessions of either entry point
    the persisted history has at most 20 entries; and when the history file
    can be written, the last session's entry is at index 0, in front of the
    19 newest entries of the history before it: the entry is inserted at
    the front, and the oldest entry is dropped on overflow. *)
Theorem history_capped_newest_first (xs : list Session) (d : Disk) :
  length (persisted_history d) ≤ 20 →
  length (persisted_history (after_sessions xs d)) ≤ 20
  ∧ (history_writable d = true →
     ∀ xs' x, xs = xs' ++ [x] →
       persisted_history (after_sessions xs d) !! 0 = Some (session_entry x)
       ∧ persisted_history (after_sessions xs d)
         = session_entry x :: take 19 (persisted_history (after_sessions xs' d))).
Proof.
  intros H0. split.
  - induction xs as [|x xs IH] using rev_ind; [done|].
    rewrite after_sessions_snoc, append_history_persisted.
    destruct (history_writable _); [|done].
    simpl. rewrite length_take. lia.
  - intros Hw xs' x ->.
    rewrite after_sessions_snoc, append_history_persisted.
    by rewrite after_sessions_writable, Hw.
Qed.

Lemma history_capped_newest_first_witness :
  length (persisted_history (fresh_disk EmptyString)) ≤ 20
  ∧ length (persisted_history
              (after_sessions
                 (replicate 25 (CliSession "2026-01-01 00:00:00" sample_cli 3 2))
                 (fresh_disk EmptyString))) ≤ 20.
Proof.
  split; [simpl; lia|].
  apply (history_capped_newest_first
           (replicate 25 (CliSession "2026-01-01 00:00:00" sample_cli 3 2))
           (fresh_disk EmptyString)).
  simpl; lia.
Defined.

(** ** C6, C10: file names *)

Lemma app_cons c s t : String c s +:+ t = String c (s +:+ t).
Proof. reflexivity. Qed.

Lemma has_char_app a s t :
  Py.has_char a (s +:+ t) = Py.has_char a s || Py.has_char a t.
Proof.
  unfold Py.has_char. induction s as [|c s IH]; [done|].
  rewrite app_cons. simpl. by rewrite IH, orb_assoc.
Qed.

Lemma sub_unsafe_keeps s : Py.str_forall Py.keep_char (Py.sub_unsafe s) = true.
Proof.
  induction s as [|c s IH]; [done|].
  cbn [Py.sub_unsafe Py.str_forall]. rewrite IH, andb_true_r.
  by destruct (Py.keep_char c) eqn:Hc.
Qed.

Lemma sub_unsafe_no_slash s : Py.has_char "/" (Py.sub_unsafe s) = false.
Proof.
  unfold Py.has_char. induction s as [|c s IH]; [done|].
  cbn [Py.sub_unsafe Py.one_of]. rewrite IH, orb_false_r.
  destruct (Py.keep_char c) eqn:Hc; [|done].
  destruct (Ascii.eqb_spec c "/") as [->|]; [by vm_compute in Hc|done].
Qed.

Lemma sub_unsafe_get s i c :
  String.get i s = Some c →
  String.get i (Py.sub_unsafe s)
  = Some (if Py.keep_char c then c else "_"%char).
Proof.
  revert i. induction s as [|a s IH]; intros [|i] H;
    cbn [String.get Py.sub_unsafe] in *; simplify_eq; auto.
Qed.

Lemma sub_unsafe_length s : String.length (Py.sub_unsafe s) = String.length s.
Proof. induction s; cbn [String.length Py.sub_unsafe]; auto. Qed.

Lemma basename_no_slash s : Py.has_char "/" s = false → Py.basename s = s.
Proof.
  destruct s as [|c s]; [done|].
  cbn [Py.basename]. unfold Py.has_char. cbn [Py.one_of].
  intros [Hc Hs]%orb_false_elim. by rewrite Hs, Hc.
Qed.

Lemma basename_after_slash a b :
  Py.has_char "/" b = false → Py.basename (a +:+ "/" +:+ b) = b.
Proof.
  intros Hb. induction a as [|c a IH].
  - change (EmptyString +:+ "/" +:+ b) with (String "/"%char b).
    cbn [Py.basename]. by rewrite Hb.
  - rewrite app_cons. cbn [Py.basename].
    by rewrite has_char_app, orb_true_r.
Qed.

Lemma endswith_has_char a c : 
  Py.endswith_char c a = true → Py.has_char c a = true.
Proof.
  unfold Py.has_char. induction a as [|x a IH]; [done|].
  destruct a as [|y a].
  - simpl. intros ->. done.
  - intros H. simpl in *. rewrite (IH H). by rewrite orb_true_r.
Qed.

Lemma basename_after_dir a b :
  Py.has_char "/" b = false → Py.endswith_char "/" a = true →
  Py.basename (a +:+ b) = b.
Proof.
  intros Hb. induction a as [|c a IH]; [done|].
  destruct a as [|y a].
  - cbn [Py.endswith_char]. intros ->%Ascii.eqb_eq.
    change (String "/" EmptyString +:+ b) with (String "/"%char b).
    cbn [Py.basename]. by rewrite Hb.
  - intros Ha. specialize (IH Ha).
    rewrite app_cons. cbn [Py.basename].
    by rewrite has_char_app, (endswith_has_char (String y a) "/" Ha).
Qed.

(** The name under which a file is saved is the last component of the
    joined path. *)
Lemma basename_path_join dir name :
  Py.has_char "/" name = false →
  Py.basename (Py.path_join dir name) = name.
Proof.
  intros Hn.
  assert (Py.path_join dir name
          = if negb (Py.nonempty dir) || Py.endswith_char "/" dir
            then dir +:+ name else dir +:+ "/" +:+ name) as ->.
  { unfold Py.path_join. destruct name as [|c name]; [done|].
    destruct (Ascii.eqb_spec c "/") as [->|Hc]; [by vm_compute in Hn|].
    destruct c as [[] [] [] [] [] [] [] []]; done. }
  destruct (negb (Py.nonempty dir) || Py.endswith_char "/" dir) eqn:Hd.
  - destruct dir as [|d dir]; [by apply basename_no_slash|]. simpl in Hd.
    by apply basename_after_dir.
  - by apply basename_after_slash.
Qed.

Lemma stem_no_slash u stem ext :
  file_stem u = Some stem → Py.has_char "/" ext = false →
  Py.has_char "/" (stem +:+ ext) = false.
Proof.
  unfold file_stem. destruct (Py.urlparse u); [|done].
  intros [= <-] He. by rewrite has_char_app, sub_unsafe_no_slash, He.
Qed.

(** A successful capture of the CLI: the browser went to the page and
    saved a JPEG under the stem with the extension [.jpg]. *)
Lemma cli_capture_ok b self u :
  ok (CLI.capture_screenshot b self u) = true →
  ∃ stem, file_stem u = Some stem
    ∧ result (CLI.capture_screenshot b self u)
      = Py.path_join (CLI.output_dir self) (stem +:+ ".jpg")
    ∧ screenshot b u
        {| shot_path := Py.path_join (CLI.output_dir self) (stem +:+ ".jpg");
           shot_type := Jpeg; shot_quality := CLI.quality self;
           shot_full_page := false |} = None.
Proof.
  unfold CLI.capture_screenshot, file_stem.
  destruct (goto b u (CLI.timeout self)); [done|].
  destruct (Py.urlparse u) as [parsed|]; [|done].
  destruct (screenshot b u _) eqn:Hs; [done|]. intros _. eauto.
Qed.

(** A successful capture of the GUI: a JPEG again, under the extension
    [.png]. *)
Lemma gui_capture_ok b self active u :
  ok (GUI.capture b self active u) = true →
  ∃ stem, file_stem u = Some stem
    ∧ result (GUI.capture b self active u)
      = Py.path_join (GUI.output_dir self) (stem +:+ ".png")
    ∧ screenshot b u
        {| shot_path := Py.path_join (GUI.output_dir self) (stem +:+ ".png");
           shot_type := Jpeg; shot_quality := 85;
           shot_full_page := false |} = None.
Proof.
  unfold GUI.capture, file_stem. destruct active; [|done]. cbn [negb].
  destruct (goto b u 15000); [done|].
  destruct (Py.urlparse u) as [parsed|]; [|done].
  destruct (screenshot b u _) eqn:Hs; [done|]. intros _. eauto.
Qed.

(** C6, as amended.  For every successful capture the file name is the
    URL's netloc in which every character other than a word character, a
    hyphen, an underscore and a dot is replaced by an underscore (dots and
    hyphens are kept), followed by the entry point's extension.  The stem
    is a function of the URL alone, so two sessions fed the same URL save
    it under the same name, whatever their browser and output directory. *)
Theorem file_name_from_sanitised_netloc
    (b b' : Browser) (cli cli' : CLI.Self) (gui gui' : GUI.Self) (u : string) :
  (ok (CLI.capture_screenshot b cli u) = true →
   ∃ parsed, Py.urlparse u = Py.Parsed parsed
     ∧ Py.basename (result (CLI.capture_screenshot b cli u))
       = Py.sub_unsafe (Py.netloc parsed) +:+ ".jpg"
     ∧ (ok (CLI.capture_screenshot b' cli' u) = true →
        Py.basename (result (CLI.capture_screenshot b' cli' u))
        = Py.basename (result (CLI.capture_screenshot b cli u))))
  ∧ (ok (GUI.capture b gui true u) = true →
     ∃ parsed, Py.urlparse u = Py.Parsed parsed
       ∧ Py.basename (result (GUI.capture b gui true u))
         = Py.sub_unsafe (Py.netloc parsed) +:+ ".png"
       ∧ (ok (GUI.capture b' gui' true u) = true →
          Py.basename (result (GUI.capture b' gui' true u))
          = Py.basename (result (GUI.capture b gui true u))))
  ∧ (∀ s, String.length (Py.sub_unsafe s) = String.length s
        ∧ Py.str_forall (λ c, Py.isword c || Py.one_of "-_." c)
            (Py.sub_unsafe s) = true
        ∧ ∀ i c, String.get i s = Some c →
            String.get i (Py.sub_unsafe s)
            = Some (if Py.isword c || Py.one_of "-_." c then c else "_"%char)).
Proof.
  split_and!.
  - intros (stem & Hstem & Hres & _)%cli_capture_ok.
    pose proof (stem_no_slash u stem ".jpg" Hstem eq_refl) as Hns.
    unfold file_stem in Hstem.
    destruct (Py.urlparse u) as [parsed|] eqn:Hp; [|done].
    injection Hstem as <-. exists parsed. split_and!; [done| |].
    + by rewrite Hres, basename_path_join.
    + intros (stem' & Hstem' & Hres' & _)%cli_capture_ok.
      unfold file_stem in Hstem'. rewrite Hp in Hstem'.
      injection Hstem' as <-.
      by rewrite Hres, Hres', !basename_path_join.
  - intros (stem & Hstem & Hres & _)%gui_capture_ok.
    pose proof (stem_no_slash u stem ".png" Hstem eq_refl) as Hns.
    unfold file_stem in Hstem.
    destruct (Py.urlparse u) as [parsed|] eqn:Hp; [|done].
    injection Hstem as <-. exists parsed. split_and!; [done| |].
    + by rewrite Hres, basename_path_join.
    + intros (stem' & Hstem' & Hres' & _)%gui_capture_ok.
      unfold file_stem in Hstem'. rewrite Hp in Hstem'.
      injection Hstem' as <-.
      by rewrite Hres, Hres', !basename_path_join.
  - intros s. split; [apply sub_unsafe_length|].
    split; [apply sub_unsafe_keeps|].
    intros i c. apply sub_unsafe_get.
Qed.

Lemma file_name_from_sanitised_netloc_witness :
  ok (CLI.capture_screenshot obliging_browser sample_cli "http://a.com:8080")
  = true
  ∧ ∃ parsed, Py.urlparse "http://a.com:8080" = Py.Parsed parsed
      ∧ Py.basename
          (result (CLI.capture_screenshot obliging_browser sample_cli
                     "http://a.com:8080"))
        = Py.sub_unsafe (Py.netloc parsed) +:+ ".jpg".
Proof.
  split; [reflexivity|].
  destruct (file_name_from_sanitised_netloc obliging_browser obliging_browser
              sample_cli sample_cli sample_gui sample_gui "http://a.com:8080")
    as (H & _ & _).
  destruct (H eq_refl) as (parsed & Hp & Hb & _). eauto.
Defined.

(** C6 as worded fails: the dot of a host is not a word character, and it
    is kept. *)
Lemma non_word_characters_kept :
  ¬ (∀ (b : Browser) (cli : CLI.Self) (u : string) (parsed : Py.ParseResult),
       ok (CLI.capture_screenshot b cli u) = true →
       Py.urlparse u = Py.Parsed parsed →
       Py.basename (result (CLI.capture_screenshot b cli u))
       = replace_non_word (Py.netloc parsed) +:+ ".jpg").
Proof.
  intros H.
  specialize (H obliging_browser sample_cli "http://a.com"
                {| Py.scheme := "http"; Py.netloc := "a.com";
                   Py.rest := EmptyString |} eq_refl eq_refl).
  vm_compute in H. discriminate H.
Qed.



(** ** C8: the two extraction routines agree *)



(** ** C7: no URLs *)

Lemma extract_empty : CLI.extract EmptyString = ∅ ∧ GUI.extract EmptyString = ∅.
Proof. done. Qed.

(** C7.  When [read_content] finds no URL (as it does on an empty text),
    [run_scan] of either entry point reports it (the CLI prints the
    message, the GUI emits the progress signal and sets the status bar),
    returns without creating the executor or submitting a task, and
    leaves the disk, hence the history file, as it was. *)
Theorem no_urls_reported_before_pool
    (w : CLI.World) (cli : CLI.Self) (gw : GUI.World) (gui : GUI.Self) :
  (CLI.read_content (CLI.disk w) cli).1 = [] →
  (GUI.read_content (GUI.disk gw) gui).1 = [] →
  ((CLI.run_scan w cli).1.2 = CLI.disk w
   ∧ last (CLI.run_scan w cli).2 = Some (Print "[!] No valid URLs found in file")
   ∧ Forall (λ e, pool_event e = false) (CLI.run_scan w cli).2
   ∧ (CLI.run_scan w cli).1.1 = CLI.set_urls [] cli)
  ∧ ((GUI.run_scan gw gui).1.2 = GUI.disk gw
     ∧ (GUI.run_scan gw gui).2
       = (GUI.read_content (GUI.disk gw) gui).2
         ++ [EmitNoUrls; StatusNoUrls; EnableStart; DisableStop]
     ∧ Forall (λ e, pool_event e = false) (GUI.run_scan gw gui).2
     ∧ (GUI.run_scan gw gui).1.1 = GUI.set_urls [] gui)
  ∧ (∀ (d : Disk) path, texts d path = Some EmptyString →
       ∀ c g, CLI.input_file c = Some path → GUI.input_file g = Some path →
         (CLI.read_content d c).1 = [] ∧ (GUI.read_content d g).1 = []).
Proof.
  intros Hc Hg. split_and!.
  - unfold CLI.run_scan. destruct (CLI.read_content _ _) as [found ev].
    simpl in Hc. by subst.
  - unfold CLI.run_scan. destruct (CLI.read_content _ _) as [found ev].
    simpl in Hc. subst. cbn [length Nat.eqb snd].
    by rewrite app_assoc, last_snoc.
  - unfold CLI.run_scan.
    destruct (CLI.read_content _ _) as [found ev] eqn:Hr.
    simpl in Hc. subst. cbn [length Nat.eqb snd].
    repeat constructor.
    unfold CLI.read_content in Hr.
    repeat case_match; simplify_eq; repeat constructor.
  - unfold CLI.run_scan. destruct (CLI.read_content _ _) as [found ev].
    simpl in Hc. by subst.
  - unfold GUI.run_scan. destruct (GUI.read_content _ _) as [found ev].
    simpl in Hg. by subst.
  - unfold GUI.run_scan. destruct (GUI.read_content _ _) as [found ev].
    simpl in Hg. by subst.
  - unfold GUI.run_scan.
    destruct (GUI.read_content _ _) as [found ev] eqn:Hr.
    simpl in Hg. subst. cbn [length Nat.eqb snd].
    apply Forall_app. split; [|repeat constructor].
    unfold GUI.read_content in Hr.
    repeat case_match; simplify_eq; repeat constructor.
  - unfold GUI.run_scan. destruct (GUI.read_content _ _) as [found ev].
    simpl in Hg. by subst.
  - intros d path Hd c g Hci Hgi.
    unfold CLI.read_content, GUI.read_content. rewrite Hci, Hgi, Hd.
    destruct path; simpl; rewrite ?(proj1 extract_empty), ?(proj2 extract_empty);
      by rewrite ?elements_empty.
Qed.

Lemma no_urls_reported_before_pool_witness :
  (CLI.read_content (CLI.disk (sample_cli_world EmptyString)) sample_cli).1 = []
  ∧ (GUI.read_content (GUI.disk (sample_gui_world EmptyString)) sample_gui).1 = []
  ∧ (CLI.run_scan (sample_cli_world EmptyString) sample_cli).1.2
    = CLI.disk (sample_cli_world EmptyString).
Proof.
  split; [reflexivity|]. split; [reflexivity|].
  apply (no_urls_reported_before_pool (sample_cli_world EmptyString) sample_cli
           (sample_gui_world EmptyString) sample_gui); reflexivity.
Defined.

(** ** C9: the URL mapping only grows *)

(** One turn of either loop appends at most one image, writes the mapping
    only under that image's file name, and removes no key. *)
Lemma cli_body_frame i f st :
  ∃ new,
    CLI.images (CLI.self (CLI.loop_body i f st))
    = CLI.images (CLI.self st) ++ new
    ∧ (∀ k, k ∉ Py.basename <$> new →
         CLI.url_mapping (CLI.self (CLI.loop_body i f st)) !! k
         = CLI.url_mapping (CLI.self st) !! k)
    ∧ (∀ k, is_Some (CLI.url_mapping (CLI.self st) !! k) →
         is_Some (CLI.url_mapping (CLI.self (CLI.loop_body i f st)) !! k)).
Proof.
  unfold CLI.loop_body.
  destruct (future_result _ 60 f) as [o|e]; [destruct (ok o)|]; simpl.
  - exists [result o]. split_and!; [done|..].
    + intros k Hk. apply lookup_insert_ne. intros <-. apply Hk.
      cbn. constructor.
    + intros k Hk. rewrite lookup_insert. by case_decide.
  - exists []. by rewrite app_nil_r.
  - exists []. by rewrite app_nil_r.
Qed.

Lemma cli_loop_frame fs : ∀ i st,
  ∃ new,
    CLI.images (CLI.self (CLI.loop i fs st)) = CLI.images (CLI.self st) ++ new
    ∧ (∀ k, k ∉ Py.basename <$> new →
         CLI.url_mapping (CLI.self (CLI.loop i fs st)) !! k
         = CLI.url_mapping (CLI.self st) !! k)
    ∧ (∀ k, is_Some (CLI.url_mapping (CLI.self st) !! k) →
         is_Some (CLI.url_mapping (CLI.self (CLI.loop i fs st)) !! k)).
Proof.
  induction fs as [|f fs IH]; intros i st; simpl.
  { exists []. by rewrite app_nil_r. }
  destruct (cli_body_frame i f st) as (new1 & Hi1 & Hm1 & Hk1).
  destruct (IH (S i) (CLI.loop_body i f st)) as (new2 & Hi2 & Hm2 & Hk2).
  exists (new1 ++ new2). split_and!.
  - by rewrite Hi2, Hi1, app_assoc.
  - intros k Hk. rewrite fmap_app in Hk.
    rewrite Hm2, Hm1; [done|..]; intros Hin; apply Hk, elem_of_app; auto.
  - auto.
Qed.

Lemma gui_body_frame total i f st :
  ∃ new,
    GUI.images (GUI.self (GUI.loop_body total i f st))
    = GUI.images (GUI.self st) ++ new
    ∧ (∀ k, k ∉ Py.basename <$> new →
         GUI.url_mapping (GUI.self (GUI.loop_body total i f st)) !! k
         = GUI.url_mapping (GUI.self st) !! k)
    ∧ (∀ k, is_Some (GUI.url_mapping (GUI.self st) !! k) →
         is_Some (GUI.url_mapping (GUI.self (GUI.loop_body total i f st)) !! k)).
Proof.
  unfold GUI.loop_body.
  destruct (future_result _ 60 f) as [o|e]; [destruct (ok o)|]; simpl.
  - exists [result o]. split_and!; [done|..].
    + intros k Hk. apply lookup_insert_ne. intros <-. apply Hk.
      cbn. constructor.
    + intros k Hk. rewrite lookup_insert. by case_decide.
  - exists []. by rewrite app_nil_r.
  - exists []. by rewrite app_nil_r.
Qed.

Lemma gui_loop_frame stopped total fs : ∀ i st,
  ∃ new,
    GUI.images (GUI.self (GUI.loop stopped total i fs st))
    = GUI.images (GUI.self st) ++ new
    ∧ (∀ k, k ∉ Py.basename <$> new →
         GUI.url_mapping (GUI.self (GUI.loop stopped total i fs st)) !! k
         = GUI.url_mapping (GUI.self st) !! k)
    ∧ (∀ k, is_Some (GUI.url_mapping (GUI.self st) !! k) →
         is_Some (GUI.url_mapping (GUI.self (GUI.loop stopped total i fs st)) !! k)).
Proof.
  induction fs as [|f fs IH]; intros i st; simpl.
  { exists []. by rewrite app_nil_r. }
  destruct (stopped i).
  { exists []. by rewrite app_nil_r. }
  destruct (gui_body_frame total i f st) as (new1 & Hi1 & Hm1 & Hk1).
  destruct (IH (S i) (GUI.loop_body total i f st)) as (new2 & Hi2 & Hm2 & Hk2).
  exists (new1 ++ new2). split_and!.
  - by rewrite Hi2, Hi1, app_assoc.
  - intros k Hk. rewrite fmap_app in Hk.
    rewrite Hm2, Hm1; [done|..]; intros Hin; apply Hk, elem_of_app; auto.
  - auto.
Qed.

(** What a session leaves in the mapping file: the object's mapping when
    the file can be written, the old content otherwise. *)
Lemma cli_saved_mapping today self n k d :
  persisted_mapping
    (CLI.save_to_history today self n k (CLI.save_url_mapping self d).1).1
  = if mapping_writable d then CLI.url_mapping self else persisted_mapping d.
Proof.
  unfold CLI.save_to_history, CLI.save_url_mapping, CLI.load_history,
    persisted_mapping.
  destruct (mapping_writable d); simpl;
    destruct (history_json d); simpl; by destruct (history_writable d).
Qed.

Lemma gui_saved_mapping today self n k d :
  persisted_mapping
    (GUI.save_to_history today self n k (GUI.save_url_mapping self d).1).1
  = if mapping_writable d then GUI.url_mapping self else persisted_mapping d.
Proof.
  unfold GUI.save_to_history, GUI.save_url_mapping, GUI.load_history,
    persisted_mapping.
  destruct (mapping_writable d); simpl;
    destruct (history_json d); simpl; by destruct (history_writable d).
Qed.

(** The object and the disk at the end of [run_scan]. *)
Lemma cli_run_scan_end w cli :
  ((CLI.run_scan w cli).1.1 = CLI.set_urls [] cli
   ∧ (CLI.run_scan w cli).1.2 = CLI.disk w)
  ∨ ∃ fs st n k,
      CLI.self st = CLI.set_urls (CLI.read_content (CLI.disk w) cli).1 cli
      ∧ (CLI.run_scan w cli).1.1 = CLI.self (CLI.loop 0 fs st)
      ∧ (CLI.run_scan w cli).1.2
        = (CLI.save_to_history (CLI.today w) (CLI.self (CLI.loop 0 fs st)) n k
             (CLI.save_url_mapping (CLI.self (CLI.loop 0 fs st)) (CLI.disk w)).1).1.
Proof.
  unfold CLI.run_scan. destruct (CLI.read_content _ _) as [found ev].
  destruct found as [|u found];
    [left; cbn [length Nat.eqb fst snd]; by split|right].
  cbn [length Nat.eqb fst].
  destruct (CLI.threads (CLI.set_urls (u :: found) cli) <=? 0)%Z.
  - eexists [], {| CLI.self := CLI.set_urls (u :: found) cli;
                   CLI.successful_captures := 0; CLI.failed_captures := 0;
                   CLI.now := 0; CLI.log := [] |}, _, _.
    cbn [CLI.loop].
    destruct (CLI.save_url_mapping _ _) as [d1 e1] eqn:H1.
    destruct (CLI.save_to_history _ _ _ _ d1) as [d2 e2] eqn:H2.
    cbn [fst snd CLI.self] in *. split_and!; [done..|].
    symmetry. exact (f_equal fst H2).
  - set (n := Z.to_nat (CLI.threads (CLI.set_urls (u :: found) cli))).
    eexists (Pool.as_completed (CLI.scheduler w n (u :: found))),
      {| CLI.self := CLI.set_urls (u :: found) cli;
         CLI.successful_captures := 0; CLI.failed_captures := 0;
         CLI.now := 0; CLI.log := Executor n :: (Submit <$> u :: found) |},
      _, _.
    destruct (CLI.save_url_mapping _ _) as [d1 e1] eqn:H1.
    destruct (CLI.save_to_history _ _ _ _ d1) as [d2 e2] eqn:H2.
    cbn [fst snd CLI.self] in *. split_and!; [done..|].
    symmetry. exact (f_equal fst H2).
Qed.

Lemma gui_run_scan_end w gui :
  ((GUI.run_scan w gui).1.1 = GUI.set_urls [] gui
   ∧ (GUI.run_scan w gui).1.2 = GUI.disk w)
  ∨ ∃ fs st total n k,
      GUI.self st = GUI.set_urls (GUI.read_content (GUI.disk w) gui).1 gui
      ∧ (GUI.run_scan w gui).1.1
        = GUI.set_scan_active false
            (GUI.self (GUI.loop (GUI.stopped w) total 0 fs st))
      ∧ (GUI.run_scan w gui).1.2
        = (GUI.save_to_history (GUI.today w)
             (GUI.self (GUI.loop (GUI.stopped w) total 0 fs st)) n k
             (GUI.save_url_mapping
                (GUI.self (GUI.loop (GUI.stopped w) total 0 fs st))
                (GUI.disk w)).1).1.
Proof.
  unfold GUI.run_scan. destruct (GUI.read_content _ _) as [found ev].
  destruct found as [|u found];
    [left; cbn [length Nat.eqb fst snd]; by split|right].
  cbn [length Nat.eqb fst].
  set (n := Nat.min 4 match GUI.cpu_count w with
                     | Some 0 | None => 1
                     | Some n => n
                     end).
  eexists (Pool.as_completed (GUI.scheduler w n (u :: found))),
    {| GUI.self := GUI.set_urls (u :: found) gui;
       GUI.successful_captures := 0; GUI.now := 0;
       GUI.log := Executor n :: (Submit <$> u :: found) |},
    (length (u :: found)), _, _.
  destruct (GUI.save_url_mapping _ _) as [d1 e1] eqn:H1.
  destruct (GUI.save_to_history _ _ _ _ d1) as [d2 e2] eqn:H2.
  cbn [fst snd GUI.self] in *. split_and!; [done..|].
  symmetry. exact (f_equal fst H2).
Qed.

(** C9.  A scan only adds or overwrites mapping entries.  Let the object's
    mapping at the start of [run_scan] be the one loaded from the mapping
    file, and let [k] be one of its keys, with value [v].  Then [k] is still
    a key of the object's mapping and of the mapping file at the end of the
    run; and unless [k] is the file name of an image recorded in this run,
    its value is still [v] in both.  This holds for both entry points,
    whether or not the mapping file can be written. *)
Theorem scan_keeps_mapping_entries
    (w : CLI.World) (cli : CLI.Self) (gw : GUI.World) (gui : GUI.Self)
    (k v : string) :
  (CLI.url_mapping cli = persisted_mapping (CLI.disk w) →
   CLI.url_mapping cli !! k = Some v →
   is_Some (CLI.url_mapping (CLI.run_scan w cli).1.1 !! k)
   ∧ is_Some (persisted_mapping (CLI.run_scan w cli).1.2 !! k)
   ∧ (k ∉ Py.basename <$> drop (length (CLI.images cli))
                             (CLI.images (CLI.run_scan w cli).1.1) →
      CLI.url_mapping (CLI.run_scan w cli).1.1 !! k = Some v
      ∧ persisted_mapping (CLI.run_scan w cli).1.2 !! k = Some v))
  ∧ (GUI.url_mapping gui = persisted_mapping (GUI.disk gw) →
     GUI.url_mapping gui !! k = Some v →
     is_Some (GUI.url_mapping (GUI.run_scan gw gui).1.1 !! k)
     ∧ is_Some (persisted_mapping (GUI.run_scan gw gui).1.2 !! k)
     ∧ (k ∉ Py.basename <$> drop (length (GUI.images gui))
                               (GUI.images (GUI.run_scan gw gui).1.1) →
        GUI.url_mapping (GUI.run_scan gw gui).1.1 !! k = Some v
        ∧ persisted_mapping (GUI.run_scan gw gui).1.2 !! k = Some v)).
Proof.
  split.
  - intros Hload Hk.
    destruct (cli_run_scan_end w cli)
      as [[-> ->]|(fs & st & n & j & Hst & -> & ->)].
    { cbn [CLI.set_urls CLI.url_mapping CLI.images].
      rewrite <-Hload, Hk. eauto. }
    destruct (cli_loop_frame fs 0 st) as (new & Hi & Hm & Hdom).
    rewrite Hst in Hi, Hm, Hdom.
    cbn [CLI.set_urls CLI.url_mapping CLI.images] in Hi, Hm, Hdom.
    rewrite cli_saved_mapping, Hi, drop_app_length, <-Hload.
    assert (is_Some (CLI.url_mapping (CLI.self (CLI.loop 0 fs st)) !! k))
      as Hkept by (apply Hdom; eauto).
    split_and!; [done|by destruct (mapping_writable _); eauto|].
    intros Hfresh. rewrite (Hm k Hfresh).
    by destruct (mapping_writable _); rewrite ?Hm.
  - intros Hload Hk.
    destruct (gui_run_scan_end gw gui)
      as [[-> ->]|(fs & st & total & n & j & Hst & -> & ->)].
    { cbn [GUI.set_urls GUI.url_mapping GUI.images].
      rewrite <-Hload, Hk. eauto. }
    destruct (gui_loop_frame (GUI.stopped gw) total fs 0 st)
      as (new & Hi & Hm & Hdom).
    rewrite Hst in Hi, Hm, Hdom.
    cbn [GUI.set_urls GUI.set_scan_active GUI.url_mapping GUI.images]
      in Hi, Hm, Hdom |- *.
    rewrite gui_saved_mapping, Hi, drop_app_length, <-Hload.
    assert (is_Some (GUI.url_mapping
                       (GUI.self (GUI.loop (GUI.stopped gw) total 0 fs st)) !! k))
      as Hkept by (apply Hdom; eauto).
    split_and!; [done|by destruct (mapping_writable _); eauto|].
    intros Hfresh. rewrite (Hm k Hfresh).
    by destruct (mapping_writable _); rewrite ?Hm.
Qed.

Lemma scan_keeps_mapping_entries_witness :
  CLI.url_mapping later_cli = persisted_mapping (CLI.disk later_world)
  ∧ CLI.url_mapping later_cli !! "old.example.jpg" = Some "http://old.example"
  ∧ is_Some (persisted_mapping (CLI.run_scan later_world later_cli).1.2
               !! "old.example.jpg").
Proof.
  split; [reflexivity|]. split; [reflexivity|].
  apply (proj1 (scan_keeps_mapping_entries later_world later_cli
                  (sample_gui_world EmptyString) sample_gui
                  "old.example.jpg" "http://old.example")); reflexivity.
Defined.

Example later_scan_mapping :
  persisted_mapping (CLI.run_scan later_world later_cli).1.2
  = {[ "old.example.jpg" := "http://old.example";
       "b.org.jpg" := "https://b.org" ]}.
Proof. vm_compute. reflexivity. Qed.

(** ** C4: cancellation *)

Lemma turns_le stopped n : ∀ i, turns stopped i n ≤ n.
Proof.
  induction n as [|n IH]; intros i; simpl; [lia|].
  destruct (stopped i); [lia|]. specialize (IH (S i)). lia.
Qed.



(** The GUI's loop with a stop request is the loop without one on the
    futures of the completed turns, followed by the cancellations. *)
Lemma gui_loop_turns stopped total fs : ∀ i st,
  let j := turns stopped i (length fs) in
  let run := GUI.loop (λ _, false) total i (take j fs) st in
  GUI.self (GUI.loop stopped total i fs st) = GUI.self run
  ∧ GUI.successful_captures (GUI.loop stopped total i fs st)
    = GUI.successful_captures run
  ∧ GUI.log (GUI.loop stopped total i fs st)
    = GUI.log run
      ++ (if decide (j < length fs)
          then CancelFuture <$> seq (i + j) (total - (i + j)) else []).
Proof.
  induction fs as [|f fs IH]; intros i st; cbn zeta.
  { simpl. by rewrite app_nil_r. }
  cbn [length turns GUI.loop]. destruct (stopped i) eqn:Hi.
  - cbn [take GUI.loop]. rewrite Nat.add_0_r.
    rewrite decide_True by lia. done.
  - cbn [take GUI.loop].
    destruct (IH (S i) (GUI.loop_body total i f st)) as (H1 & H2 & H3).
    rewrite H1, H2, H3. split_and!; [done..|].
    replace (i + S (turns stopped (S i) (length fs)))
      with (S i + turns stopped (S i) (length fs)) by lia.
    f_equal. repeat case_decide; try done; lia.
Qed.

(** The loops only notify: they create no executor and submit no task. *)
Lemma gui_loop_submits_nothing stopped total fs : ∀ i st,
  ∃ added, GUI.log (GUI.loop stopped total i fs st) = GUI.log st ++ added
    ∧ Forall (λ e, pool_event e = false) added.
Proof.
  induction fs as [|f fs IH]; intros i st; cbn [GUI.loop].
  { exists []. by rewrite app_nil_r. }
  destruct (stopped i).
  { eexists. split; [done|]. cbn [GUI.log].
    apply Forall_fmap, Forall_true. done. }
  destruct (IH (S i) (GUI.loop_body total i f st)) as (added & -> & Hadd).
  unfold GUI.loop_body.
  destruct (future_result _ 60 f) as [o|e]; [destruct (ok o)|];
    cbn [GUI.log]; rewrite <-app_assoc; eexists; (split; [done|]);
    apply Forall_app; (split; [|done]); repeat constructor.
Qed.





(** ** C3: the 60-second budget *)

Lemma pool_ticks C task urls n : ∀ s,
  rtc (Pool.step C task urls) s
    {| Pool.futures := Pool.futures s; Pool.clock := n + Pool.clock s;
       Pool.active := Pool.active s; Pool.completed := Pool.completed s |}.
Proof.
  induction n as [|n IH]; intros s.
  - destruct s. apply rtc_refl.
  - eapply rtc_r; [apply IH|]. apply (Pool.step_tick C task urls
      {| Pool.futures := Pool.futures s; Pool.clock := n + Pool.clock s;
         Pool.active := Pool.active s; Pool.completed := Pool.completed s |}).
Qed.

Lemma slow_run_reachable C task :
  1 ≤ C → Pool.reachable C task [slow_url] (slow_run task).
Proof.
  intros HC. unfold Pool.reachable.
  eapply rtc_l.
  { apply (Pool.step_start C task [slow_url] (Pool.submit_all [slow_url]) 0 slow_url);
      [done|intros; lia|cbn; lia|done]. }
  etrans; [apply (pool_ticks _ _ _ 100)|].
  apply rtc_once.
  apply (Pool.step_finish C task [slow_url]
           {| Pool.futures := [Running (task true slow_url) 0];
              Pool.clock := 100; Pool.active := true; Pool.completed := [] |}
           0 (task true slow_url) 0).
  done.
Qed.

(** C3 on the code.  The call [future.result(timeout=60)] is made on
    futures that [as_completed] has already waited for, so it never raises
    TimeoutError: a capture that runs for 100 seconds and then succeeds is
    recorded as a success by both entry points. *)
Theorem slow_capture_recorded_as_success :
  let cli_task := λ _ : bool, CLI.capture_screenshot obliging_browser sample_cli in
  let gui_task := GUI.capture obliging_browser sample_gui in
  Pool.reachable 4 cli_task [slow_url] (slow_run cli_task)
  ∧ Pool.reachable 4 gui_task [slow_url] (slow_run gui_task)
  ∧ Pool.as_completed (slow_run cli_task)
    = [Done {| ok := true; url := slow_url;
               result := "screenshots/slow.example.jpg" |} 0 100]
  ∧ (let st := CLI.loop 0 (Pool.as_completed (slow_run cli_task)) cli_start in
     CLI.successful_captures st = 1 ∧ CLI.failed_captures st = 0
     ∧ CLI.images (CLI.self st) = ["screenshots/slow.example.jpg"]
     ∧ CLI.log st = [BarUpdate 1 "OK slow.example.jpg"])
  ∧ (let st := GUI.loop (λ _, false) 1 0 (Pool.as_completed (slow_run gui_task))
                 gui_start in
     GUI.successful_captures st = 1
     ∧ GUI.images (GUI.self st) = ["screenshots/slow.example.png"]
     ∧ GUI.log st = [EmitNewImage "screenshots/slow.example.png";
                     EmitProgress 1 1 1])
  ∧ (∀ now o t0 t1,
       future_result (Nat.max now (completion_time (Done o t0 t1))) 60
         (Done o t0 t1) = inl o).
Proof.
  cbn zeta.
  split; [apply slow_run_reachable; lia|].
  split; [apply slow_run_reachable; lia|].
  split; [reflexivity|].
  split; [vm_compute; by repeat split|].
  split; [vm_compute; by repeat split|].
  apply done_result.
Qed.

(** ** C2: URL extraction *)

(** Facts about single characters, by inspection of the 256 of them. *)
Ltac by_cases_on_char c :=
  destruct c as [[] [] [] [] [] [] [] []]; vm_compute; intuition congruence.

Lemma lower_letter_alpha c :
  Py.in_range 97 122 (Py.lower_char c) = true → Py.ascii_alpha c = true.
Proof. by_cases_on_char c. Qed.

Lemma lower_other_same c :
  Py.in_range 97 122 (Py.lower_char c) = false → Py.lower_char c = c.
Proof. by_cases_on_char c. Qed.

Lemma alpha_plain c :
  Py.ascii_alpha c = true →
  Py.c0_or_space c = false ∧ Py.unsafe_byte c = false
  ∧ Py.scheme_char c = true ∧ Ascii.eqb ":" c = false.
Proof. by_cases_on_char c. Qed.

Lemma url_char_plain c :
  Py.url_char c = true →
  Py.unsafe_byte c = false ∧ Ascii.eqb c "[" = false ∧ Ascii.eqb c "]" = false.
Proof. by_cases_on_char c. Qed.

Lemma str_forall_app p a b :
  Py.str_forall p (a +:+ b) = Py.str_forall p a && Py.str_forall p b.
Proof.
  induction a as [|c a IH]; [done|].
  rewrite app_cons. cbn [Py.str_forall]. by rewrite IH, andb_assoc.
Qed.

Lemma str_forall_impl (p q : ascii → bool) s :
  (∀ c, p c = true → q c = true) →
  Py.str_forall p s = true → Py.str_forall q s = true.
Proof.
  intros Hpq. induction s as [|c s IH]; [done|]. cbn [Py.str_forall].
  intros [Hc Hs]%andb_true_iff. by rewrite (Hpq c Hc), IH.
Qed.

Lemma str_filter_id p s :
  Py.str_forall p s = true → Py.str_filter p s = s.
Proof.
  induction s as [|c s IH]; [done|]. cbn [Py.str_forall Py.str_filter].
  intros [-> Hs]%andb_true_iff. by rewrite IH.
Qed.

Lemma split_at_app p a x b :
  Py.str_forall (λ c, negb (p c)) a = true → p x = true →
  Py.split_at p (a +:+ String x b) = Some (a, b).
Proof.
  intros Ha Hx. induction a as [|c a IH].
  - change (EmptyString +:+ String x b) with (String x b).
    cbn [Py.split_at]. by rewrite Hx.
  - cbn [Py.str_forall] in Ha. apply andb_true_iff in Ha as [Hc Ha].
    rewrite app_cons. cbn [Py.split_at].
    apply negb_true_iff in Hc. by rewrite Hc, IH.
Qed.

Lemma span_forall q p s :
  Py.str_forall q s = true → Py.str_forall q (Py.span p s).1 = true.
Proof.
  induction s as [|c s IH]; [done|]. cbn [Py.str_forall Py.span].
  intros [Hc Hs]%andb_true_iff. destruct (p c); [|done].
  specialize (IH Hs). destruct (Py.span p s) as [a b].
  cbn [fst Py.str_forall] in *. by rewrite Hc, IH.
Qed.

Lemma span_fst p s : Py.str_forall p (Py.span p s).1 = true.
Proof.
  induction s as [|c s IH]; [done|]. cbn [Py.span].
  destruct (p c) eqn:Hc; [|done].
  destruct (Py.span p s) as [a b]. cbn [fst Py.str_forall] in *.
  by rewrite Hc, IH.
Qed.

Lemma has_char_forall a s :
  Py.str_forall (λ c, negb (Ascii.eqb c a)) s = true → Py.has_char a s = false.
Proof.
  unfold Py.has_char. induction s as [|c s IH]; [done|].
  cbn [Py.str_forall Py.one_of].
  intros [Hc Hs]%andb_true_iff. apply negb_true_iff in Hc.
  by rewrite Hc, IH.
Qed.

(** A literal matched without regard to case has the literal's lower
    case. *)
Lemma match_literal_ci_lower lit : ∀ s pre r,
  Py.match_literal_ci lit s = Some (pre, r) → Py.lower pre = Py.lower lit.
Proof.
  induction lit as [|a lit IH]; intros s pre r; cbn [Py.match_literal_ci].
  { by intros [= <- <-]. }
  destruct s as [|c s]; [done|].
  destruct (Ascii.eqb_spec (Py.lower_char a) (Py.lower_char c)) as [Hac|];
    [|done].
  destruct (Py.match_literal_ci lit s) as [[m r']|] eqn:Hm; [|done].
  intros [= <- <-]. cbn [Py.lower]. by rewrite Hac, (IH _ _ _ Hm).
Qed.

(** Every string [re.findall] returns is a match of the pattern at some
    position of the text. *)
Lemma findall_from_sound s : ∀ skip m,
  m ∈ Py.findall_from skip s → ∃ s', Py.match_token s' = Some m.
Proof.
  induction s as [|c s IH]; intros skip m; cbn [Py.findall_from].
  { by intros ?%elem_of_nil. }
  destruct skip as [|k]; [|by apply IH].
  destruct (Py.match_token (String c s)) as [m'|] eqn:Hm; [|by apply IH].
  intros [->|Hin]%elem_of_cons; [eauto|by eapply IH].
Qed.

Lemma alpha_safe c :
  Py.ascii_alpha c = true → negb (Py.unsafe_byte c) = true.
Proof. by_cases_on_char c. Qed.

Lemma alpha_not_colon c :
  Py.ascii_alpha c = true → negb (Ascii.eqb ":" c) = true.
Proof. by_cases_on_char c. Qed.

Lemma alpha_scheme c : Py.ascii_alpha c = true → Py.scheme_char c = true.
Proof. by_cases_on_char c. Qed.

Lemma url_char_safe c :
  Py.url_char c = true → negb (Py.unsafe_byte c) = true.
Proof. by_cases_on_char c. Qed.

Lemma url_char_not_open c :
  Py.url_char c = true → negb (Ascii.eqb c "[") = true.
Proof. by_cases_on_char c. Qed.

Lemma url_char_not_close c :
  Py.url_char c = true → negb (Ascii.eqb c "]") = true.
Proof. by_cases_on_char c. Qed.

Lemma lower_not_letter c x :
  Py.lower_char c = x → Py.in_range 97 122 x = false → c = x.
Proof. intros <- H. symmetry. by apply lower_other_same. Qed.

(** A string whose lower case is a lower-case word followed by [://] is a
    word of ASCII letters followed by [://]. *)
Lemma lower_scheme_shape word : ∀ pre,
  Py.lower pre = word +:+ "://" →
  Py.str_forall (Py.in_range 97 122) word = true →
  ∃ sch, pre = sch +:+ "://" ∧ Py.lower sch = word
    ∧ Py.str_forall Py.ascii_alpha sch = true.
Proof.
  induction word as [|a word IH]; intros pre Hl Hw.
  - exists EmptyString. split_and!; [|done..].
    change (EmptyString +:+ "://") with "://" in *.
    destruct pre as [|c1 [|c2 [|c3 [|c4 pre]]]]; cbn [Py.lower] in Hl;
      try discriminate Hl.
    injection Hl as H1 H2 H3.
    by rewrite (lower_not_letter c1 _ H1 eq_refl),
      (lower_not_letter c2 _ H2 eq_refl), (lower_not_letter c3 _ H3 eq_refl).
  - cbn [Py.str_forall] in Hw. apply andb_true_iff in Hw as [Ha Hw].
    rewrite app_cons in Hl.
    destruct pre as [|c pre]; cbn [Py.lower] in Hl; [discriminate Hl|].
    injection Hl as Hc Hl.
    destruct (IH pre Hl Hw) as (sch & -> & Hsch & Halpha).
    exists (String c sch). rewrite app_cons. cbn [Py.lower Py.str_forall].
    rewrite Hc, Hsch, Halpha, andb_true_r. split_and!; [done..|].
    apply lower_letter_alpha. by rewrite Hc.
Qed.

(** [urlparse] on a token: the scheme is the lower-cased word before
    [://], the netloc what follows up to the first of [/], [?] and [#]. *)
Lemma urlparse_token sch body :
  Py.nonempty sch = true →
  Py.str_forall Py.ascii_alpha sch = true →
  Py.str_forall Py.url_char body = true →
  Py.urlparse (sch +:+ "://" +:+ body)
  = Py.Parsed
      {| Py.scheme := Py.lower sch;
         Py.netloc := (Py.span (λ c, negb (Py.netloc_delim c)) body).1;
         Py.rest := (Py.span (λ c, negb (Py.netloc_delim c)) body).2 |}.
Proof.
  intros Hne Halpha Hbody. unfold Py.urlparse.
  destruct sch as [|c0 sch]; [done|].
  cbn [Py.str_forall] in Halpha. apply andb_true_iff in Halpha as [Hc0 Hsch].
  destruct (alpha_plain c0 Hc0) as (Hc0a & Hc0b & Hc0c & Hc0d).
  rewrite app_cons. cbn [Py.lstrip]. rewrite Hc0a.
  rewrite <-app_cons.
  rewrite str_filter_id.
  2:{ rewrite !str_forall_app. cbn [Py.str_forall]. rewrite Hc0b.
      rewrite (str_forall_impl _ _ sch alpha_safe Hsch).
      by rewrite (str_forall_impl _ _ body url_char_safe Hbody). }
  change ("://" +:+ body) with (String ":"%char ("//" +:+ body)).
  rewrite split_at_app; [|cbn [Py.str_forall]|done].
  2:{ rewrite Hc0d. apply (str_forall_impl _ _ sch alpha_not_colon Hsch). }
  rewrite Hc0. cbn [andb Py.str_forall]. rewrite Hc0c.
  rewrite (str_forall_impl _ _ sch alpha_scheme Hsch). cbn [andb].
  change (Py.strip_prefix "//" ("//" +:+ body)) with (Some body).
  pose proof (span_forall Py.url_char (λ c, negb (Py.netloc_delim c)) body Hbody)
    as Hnl.
  cbv beta iota zeta.
  destruct (Py.span (λ c, negb (Py.netloc_delim c)) body) as [nl r].
  cbn [fst snd] in *.
  rewrite (has_char_forall "[" nl (str_forall_impl _ _ nl url_char_not_open Hnl)).
  by rewrite (has_char_forall "]" nl (str_forall_impl _ _ nl url_char_not_close Hnl)).
Qed.

Lemma str_app_assoc a b c : (a +:+ b) +:+ c = a +:+ b +:+ c.
Proof.
  induction a as [|x a IH]; [done|]. by rewrite !app_cons, IH.
Qed.

Lemma str_forall_and p q s :
  Py.str_forall p s = true → Py.str_forall q s = true →
  Py.str_forall (λ c, p c && q c) s = true.
Proof.
  induction s as [|c s IH]; [done|]. cbn [Py.str_forall].
  intros [-> Hp]%andb_true_iff [-> Hq]%andb_true_iff. by rewrite IH.
Qed.

(** A match of the pattern: ASCII letters spelling [http] or [https]
    whatever their case, [://], and characters of the class. *)
Lemma match_with_shape word s m :
  Py.str_forall (Py.in_range 97 122) word = true →
  Py.match_with (word +:+ "://") s = Some m →
  Py.lower (word +:+ "://") = word +:+ "://" →
  ∃ sch body, m = sch +:+ "://" +:+ body
    ∧ Py.lower sch = word
    ∧ Py.str_forall Py.ascii_alpha sch = true
    ∧ Py.str_forall Py.url_char body = true.
Proof.
  intros Hword Hm Hlow. unfold Py.match_with in Hm.
  destruct (Py.match_literal_ci _ s) as [[pre r]|] eqn:Hlit; [|done].
  destruct (Py.nonempty _); [|done]. injection Hm as <-.
  apply match_literal_ci_lower in Hlit. rewrite Hlow in Hlit.
  destruct (lower_scheme_shape word pre Hlit Hword) as (sch & -> & Hs & Ha).
  exists sch, (Py.span Py.url_char r).1. split_and!; [|done..|].
  - by rewrite str_app_assoc.
  - apply span_fst.
Qed.

Lemma match_token_shape s m :
  Py.match_token s = Some m →
  ∃ sch body, m = sch +:+ "://" +:+ body
    ∧ (Py.lower sch = "http" ∨ Py.lower sch = "https")
    ∧ Py.nonempty sch = true
    ∧ Py.str_forall Py.ascii_alpha sch = true
    ∧ Py.str_forall Py.url_char body = true.
Proof.
  unfold Py.match_token.
  destruct (Py.match_with "https://" s) as [m'|] eqn:H1.
  - intros [= <-].
    destruct (match_with_shape "https" s m' eq_refl H1 eq_refl)
      as (sch & body & -> & Hs & Ha & Hb).
    exists sch, body. split_and!; [done|by right| |done..].
    destruct sch; [discriminate Hs|done].
  - intros H2.
    destruct (match_with_shape "http" s m eq_refl H2 eq_refl)
      as (sch & body & -> & Hs & Ha & Hb).
    exists sch, body. split_and!; [done|by left| |done..].
    destruct sch; [discriminate Hs|done].
Qed.

(** The origin of a match is a scheme, [http] or [https], then [://], then
    a non-empty netloc without [/], [?] or [#]. *)
Lemma origin_of_match s m u :
  Py.match_token s = Some m → origin_of m = Some u →
  ∃ sch nl, u = sch +:+ "://" +:+ nl
    ∧ (sch = "http" ∨ sch = "https")
    ∧ Py.nonempty nl = true
    ∧ Py.str_forall netloc_char nl = true.
Proof.
  intros (sch & body & -> & Hs & Hne & Ha & Hb)%match_token_shape.
  unfold origin_of. rewrite (urlparse_token sch body Hne Ha Hb).
  cbn [Py.netloc Py.scheme].
  destruct (Py.nonempty (Py.span _ body).1) eqn:Hnl; [|done].
  intros Hu. injection Hu as <-.
  exists (Py.lower sch), (Py.span (λ c, negb (Py.netloc_delim c)) body).1.
  split_and!; [done|done|done|].
  apply str_forall_and; [by apply span_forall|apply span_fst].
Qed.

Lemma cli_add_match_origin urls m :
  CLI.add_match urls m
  = match origin_of m with Some u => urls ∪ {[u]} | None => urls end.
Proof.
  unfold CLI.add_match, origin_of.
  destruct (Py.urlparse m) as [parsed|]; [|done].
  by destruct (Py.nonempty _).
Qed.

(** The extracted set holds exactly the origins of the matches. *)
Lemma elem_of_foldl_add_match ms : ∀ acc u,
  u ∈ foldl CLI.add_match acc ms
  ↔ u ∈ acc ∨ ∃ m, m ∈ ms ∧ origin_of m = Some u.
Proof.
  induction ms as [|m ms IH]; intros acc u; cbn [foldl].
  { split; [auto|]. intros [?|(m & ?%elem_of_nil & _)]; done. }
  rewrite IH, cli_add_match_origin. split.
  - intros [Hu|(m' & Hm' & Ho)].
    + destruct (origin_of m) as [u'|] eqn:Hm; [|auto].
      apply elem_of_union in Hu as [?|Hu]; [auto|].
      apply elem_of_singleton in Hu as ->.
      right. exists m. split; [by left|done].
    + right. exists m'. split; [by right|done].
  - intros [Hu|(m' & Hin & Ho)].
    + left. destruct (origin_of m); [|done]. apply elem_of_union. auto.
    + apply elem_of_cons in Hin as [Heq|Hin]; [|right; eauto].
      subst m'. left. rewrite Ho. apply elem_of_union. right.
      by apply elem_of_singleton.
Qed.

Lemma elem_of_extract text u :
  u ∈ CLI.extract text ↔ ∃ m, m ∈ Py.findall text ∧ origin_of m = Some u.
Proof.
  unfold CLI.extract. rewrite elem_of_foldl_add_match. split; [|auto].
  intros [?%elem_of_empty|?]; done.
Qed.

Lemma gui_extract_cli text : GUI.extract text = CLI.extract text.
Proof.
  unfold CLI.extract, GUI.extract.
  induction (Py.findall text) as [|m ms IH] using rev_ind; [done|].
  rewrite !foldl_app. cbn [foldl]. rewrite IH.
  unfold CLI.add_match, GUI.add_match. by destruct (Py.urlparse m).
Qed.

(** C2.  For every text, the extraction of either entry point returns a
    set (the list handed to the scan has no duplicates) whose elements are
    exactly the origins of the matches of the token pattern: each is
    [http] or [https], then [://], then a non-empty netloc in which no
    [/], [?] or [#] is left; matches without a netloc contribute nothing.
    The empty text gives the empty set, and the text of scenario A gives
    the two origins [http://a.com] and [https://b.org]. *)
Theorem extraction_yields_origins :
  (∀ text u, u ∈ CLI.extract text →
     ∃ sch nl, u = sch +:+ "://" +:+ nl
       ∧ (sch = "http" ∨ sch = "https")
       ∧ Py.nonempty nl = true
       ∧ Py.str_forall netloc_char nl = true)
  ∧ (∀ text u, u ∈ CLI.extract text
       ↔ ∃ m, m ∈ Py.findall text ∧ origin_of m = Some u)
  ∧ (∀ text, GUI.extract text = CLI.extract text)
  ∧ (∀ d cli, NoDup (CLI.read_content d cli).1)
  ∧ (∀ d gui, NoDup (GUI.read_content d gui).1)
  ∧ CLI.extract EmptyString = ∅
  ∧ CLI.extract scenario_A = {[ "http://a.com"; "https://b.org" ]}
  ∧ size (CLI.extract scenario_A) = 2.
Proof.
  split_and!.
  - intros text u (m & Hm & Ho)%elem_of_extract.
    apply findall_from_sound in Hm as (s' & Hs').
    by eapply origin_of_match.
  - apply elem_of_extract.
  - apply gui_extract_cli.
  - intros d cli. unfold CLI.read_content.
    repeat case_match; cbn [fst]; try apply NoDup_nil_2. apply NoDup_elements.
  - intros d gui. unfold GUI.read_content.
    repeat case_match; cbn [fst]; try apply NoDup_nil_2. apply NoDup_elements.
  - done.
  - by vm_compute.
  - by vm_compute.
Qed.

(** C2 as worded fails: what is kept is the netloc, not the host.  A
    netloc made of a port alone is not empty, so its origin is extracted
    though it has no host. *)
Lemma hostless_origin_extracted :
  ¬ (∀ text u, u ∈ CLI.extract text → is_host_origin u = true).
Proof.
  intros H. specialize (H "see http://:80/x" "http://:80").
  assert (CLI.extract "see http://:80/x" = {[ "http://:80" ]}) as Hx
    by (by vm_compute).
  rewrite Hx in H. specialize (H ltac:(by apply elem_of_singleton)).
  vm_compute in H. discriminate H.
Qed.

(** The userinfo is part of the netloc too: one host can come out twice,
    once with it and once without; and the origins of scenario A are
    origins in the sense of C2 as well. *)
Example userinfo_kept :
  CLI.extract "http://user:pw@a.com/x and http://a.com/y"
  = {[ "http://user:pw@a.com"; "http://a.com" ]}
  ∧ is_host_origin "http://user:pw@a.com" = false
  ∧ is_host_origin "http://a.com" = true
  ∧ is_host_origin "https://b.org" = true
  ∧ is_host_origin "https://b.org:8080" = true.
Proof. split; [by vm_compute|]. by vm_compute. Qed.

(** ** End-to-end scenario B *)

(** One URL and a browser that always fails with [timeout]: the session
    completes with one failure, nothing in the mapping, and a history entry
    that counts one URL and no success. *)
Example scenario_B :
  let w := {| CLI.disk := fresh_disk "https://example.com";
              CLI.browser := failing_browser;
              CLI.today := "2026-01-01 00:00:00";
              CLI.scheduler := λ _,
                in_order (CLI.capture_screenshot failing_browser sample_cli) |} in
  let r := CLI.run_scan w sample_cli in
  CLI.urls r.1.1 = ["https://example.com"]
  ∧ CLI.images r.1.1 = []
  ∧ persisted_mapping r.1.2 = ∅
  ∧ persisted_history r.1.2
    = [{| date := "2026-01-01 00:00:00"; entry_input_file := Some "urls.txt";
          entry_output_dir := "screenshots"; total_urls := 1;
          successful := 0 |}]
  ∧ last r.2 = Some (Print "[!] 1 captures failed").
Proof. vm_compute. by repeat split. Qed.

(** * Further properties *)

(** ** Extraction: separators, paths, and a second pass *)

Lemma url_char_lower c : Py.url_char (Py.lower_char c) = Py.url_char c.
Proof. by_cases_on_char c. Qed.

Lemma netloc_char_url c : netloc_char c = true → Py.url_char c = true.
Proof. unfold netloc_char. by intros [? _]%andb_true_iff. Qed.

Lemma netloc_char_not_delim c :
  netloc_char c = true → negb (Py.netloc_delim c) = true.
Proof. unfold netloc_char. by intros [_ ?]%andb_true_iff. Qed.

Lemma str_length_app a b :
  String.length (a +:+ b) = String.length a + String.length b.
Proof.
  induction a as [|c a IH]; [done|].
  rewrite app_cons. cbn [String.length]. by rewrite IH.
Qed.

Lemma span_all p s : Py.str_forall p s = true → Py.span p s = (s, EmptyString).
Proof.
  induction s as [|c s IH]; [done|]. cbn [Py.str_forall Py.span].
  intros [-> Hs]%andb_true_iff. by rewrite (IH Hs).
Qed.

(** The greedy class stops at the first character outside it. *)
Lemma span_app_stop p a c b :
  Py.str_forall p a = true → p c = false →
  Py.span p (a +:+ String c b) = (a, String c b).
Proof.
  intros Ha Hc. induction a as [|x a IH].
  - change (EmptyString +:+ String c b) with (String c b).
    cbn [Py.span]. by rewrite Hc.
  - cbn [Py.str_forall] in Ha. apply andb_true_iff in Ha as [Hx Ha].
    rewrite app_cons. cbn [Py.span]. by rewrite Hx, (IH Ha).
Qed.

Lemma span_fst_app_stop p s c b :
  p c = false → (Py.span p (s +:+ String c b)).1 = (Py.span p s).1.
Proof.
  intros Hc. induction s as [|x s IH].
  - change (EmptyString +:+ String c b) with (String c b).
    cbn [Py.span]. by rewrite Hc.
  - rewrite app_cons. cbn [Py.span]. destruct (p x); [|done].
    destruct (Py.span p (s +:+ String c b)) as [a1 b1].
    destruct (Py.span p s) as [a2 b2]. cbn [fst] in *. by rewrite IH.
Qed.

(** A literal of the pattern cannot run over a character outside the
    class: the literals are made of characters of the class. *)
Lemma match_literal_ci_app_sep lit c b :
  Py.str_forall Py.url_char lit = true → Py.url_char c = false →
  ∀ s, Py.match_literal_ci lit (s +:+ String c b)
       = match Py.match_literal_ci lit s with
         | Some (m, r) => Some (m, r +:+ String c b)
         | None => None
         end.
Proof.
  intros Hlit Hc. induction lit as [|a lit IH]; intros s.
  { done. }
  cbn [Py.str_forall] in Hlit. apply andb_true_iff in Hlit as [Ha Hlit].
  destruct s as [|x s].
  - change (EmptyString +:+ String c b) with (String c b).
    cbn [Py.match_literal_ci].
    destruct (Ascii.eqb_spec (Py.lower_char a) (Py.lower_char c)) as [Heq|];
      [|done].
    rewrite <-(url_char_lower a), Heq, url_char_lower in Ha. congruence.
  - rewrite app_cons. cbn [Py.match_literal_ci].
    destruct (Ascii.eqb (Py.lower_char a) (Py.lower_char x)); [|done].
    rewrite (IH Hlit s).
    by destruct (Py.match_literal_ci lit s) as [[m r]|].
Qed.

Lemma match_with_app_sep lit c b s :
  Py.str_forall Py.url_char lit = true → Py.url_char c = false →
  Py.match_with lit (s +:+ String c b) = Py.match_with lit s.
Proof.
  intros Hlit Hc. unfold Py.match_with.
  rewrite (match_literal_ci_app_sep lit c b Hlit Hc).
  destruct (Py.match_literal_ci lit s) as [[m r]|]; [|done].
  by rewrite span_fst_app_stop.
Qed.

(** A match ends before the first character outside the class. *)
Lemma match_token_app_sep c b s :
  Py.url_char c = false →
  Py.match_token (s +:+ String c b) = Py.match_token s.
Proof.
  intros Hc. unfold Py.match_token.
  by rewrite !match_with_app_sep.
Qed.

Lemma match_literal_ci_length lit : ∀ s m r,
  Py.match_literal_ci lit s = Some (m, r) → s = m +:+ r.
Proof.
  induction lit as [|a lit IH]; intros s m r; cbn [Py.match_literal_ci].
  { by intros [= <- <-]. }
  destruct s as [|x s]; [done|].
  destruct (Ascii.eqb _ _); [|done].
  destruct (Py.match_literal_ci lit s) as [[m' r']|] eqn:Hm; [|done].
  intros [= <- <-]. by rewrite app_cons, <-(IH _ _ _ Hm).
Qed.

Lemma span_app p s : s = (Py.span p s).1 +:+ (Py.span p s).2.
Proof.
  induction s as [|c s IH]; [done|]. cbn [Py.span].
  destruct (p c); [|done]. destruct (Py.span p s) as [a b].
  cbn [fst snd] in *. by rewrite app_cons, <-IH.
Qed.

(** A match is a prefix of the text it is found in, and not empty. *)
Lemma match_token_prefix s m :
  Py.match_token s = Some m →
  ∃ r, s = m +:+ r ∧ 0 < String.length m.
Proof.
  assert (∀ lit, Py.match_with lit s = Some m →
            ∃ r, s = m +:+ r ∧ 0 < String.length m) as Hw.
  { intros lit. unfold Py.match_with.
    destruct (Py.match_literal_ci lit s) as [[pre r]|] eqn:Hl; [|done].
    destruct (Py.nonempty _) eqn:Hne; [|done]. intros [= <-].
    apply match_literal_ci_length in Hl.
    exists (Py.span Py.url_char r).2. split.
    - by rewrite str_app_assoc, <-span_app.
    - rewrite str_length_app.
      destruct (Py.span Py.url_char r).1; [done|]. simpl. lia. }
  unfold Py.match_token.
  destruct (Py.match_with "https://" s) as [m'|] eqn:H1.
  - intros [= <-]. by eapply Hw.
  - by apply Hw.
Qed.

Lemma findall_from_done s : ∀ skip,
  String.length s ≤ skip → Py.findall_from skip s = [].
Proof.
  induction s as [|c s IH]; intros skip; [done|].
  cbn [String.length Py.findall_from]. intros Hs.
  destruct skip as [|k]; [lia|]. apply IH. lia.
Qed.

Lemma match_token_sep c b : Py.url_char c = false → Py.match_token (String c b) = None.
Proof.
  intros Hc.
  pose proof (match_token_app_sep c b EmptyString Hc) as H.
  by change (EmptyString +:+ String c b) with (String c b) in H.
Qed.

(** Matches are found on each side of a character outside the class
    independently. *)
Lemma findall_from_app_sep c b : Py.url_char c = false →
  ∀ a skip, skip ≤ String.length a →
    Py.findall_from skip (a +:+ String c b)
    = Py.findall_from skip a ++ Py.findall b.
Proof.
  intros Hc. induction a as [|x a IH]; intros skip Hskip.
  - cbn [String.length] in Hskip. assert (skip = 0) as -> by lia.
    change (EmptyString +:+ String c b) with (String c b).
    cbn [Py.findall_from]. by rewrite match_token_sep.
  - rewrite app_cons. cbn [Py.findall_from String.length] in *.
    destruct skip as [|k]; [|apply IH; lia].
    rewrite <-app_cons, match_token_app_sep by done.
    destruct (Py.match_token (String x a)) as [m|] eqn:Hm.
    + apply match_token_prefix in Hm as (r & Hr & Hpos).
      apply (f_equal String.length) in Hr.
      rewrite str_length_app in Hr. cbn [String.length] in Hr.
      rewrite IH by lia. done.
    + apply IH. lia.
Qed.

Lemma cli_extract_list ms :
  ∀ acc, foldl CLI.add_match acc ms = acc ∪ foldl CLI.add_match ∅ ms.
Proof.
  induction ms as [|m ms IH] using rev_ind; intros acc.
  - cbn. by rewrite union_empty_r_L.
  - rewrite !foldl_app. cbn [foldl]. rewrite !cli_add_match_origin, IH.
    destruct (origin_of m); [|done]. by rewrite union_assoc_L.
Qed.

(** Extraction distributes over a character that cannot be part of a
    URL. *)
Lemma extract_app_sep a c b :
  Py.url_char c = false →
  CLI.extract (a +:+ String c b) = CLI.extract a ∪ CLI.extract b.
Proof.
  intros Hc. unfold CLI.extract, Py.findall.
  rewrite findall_from_app_sep by (done || lia).
  by rewrite foldl_app, cli_extract_list.
Qed.

(** A token made of an origin and a tail is matched whole. *)
Lemma match_token_origin sch body :
  sch = "http" ∨ sch = "https" →
  Py.nonempty body = true → Py.str_forall Py.url_char body = true →
  Py.match_token (sch +:+ "://" +:+ body) = Some (sch +:+ "://" +:+ body).
Proof.
  intros Hsch Hne Hbody. unfold Py.match_token, Py.match_with.
  destruct Hsch as [-> | ->].
  - change (Py.match_literal_ci "https://" ("http" +:+ "://" +:+ body))
      with (@None (string * string)).
    change (Py.match_literal_ci "http://" ("http" +:+ "://" +:+ body))
      with (Some ("http://", body)).
    cbv beta iota zeta. rewrite (span_all _ _ Hbody). cbn [fst].
    by rewrite Hne.
  - change (Py.match_literal_ci "https://" ("https" +:+ "://" +:+ body))
      with (Some ("https://", body)).
    cbv beta iota zeta. rewrite (span_all _ _ Hbody). cbn [fst].
    by rewrite Hne.
Qed.

Lemma findall_single m :
  Py.match_token m = Some m → Py.findall m = [m].
Proof.
  intros Hm. unfold Py.findall. destruct m as [|c m]; [done|].
  cbn [Py.findall_from]. rewrite Hm. f_equal.
  apply findall_from_done. cbn [String.length]. lia.
Qed.

Lemma origin_tail_shape u t :
  is_origin u → is_url_tail t →
  ∃ sch nl, u = sch +:+ "://" +:+ nl
    ∧ (sch = "http" ∨ sch = "https")
    ∧ Py.nonempty (nl +:+ t) = true
    ∧ Py.str_forall Py.url_char (nl +:+ t) = true
    ∧ (Py.span (λ c, negb (Py.netloc_delim c)) (nl +:+ t)).1 = nl
    ∧ Py.nonempty nl = true.
Proof.
  intros (sch & nl & -> & Hsch & Hne & Hnl) [Ht Hd].
  exists sch, nl. split_and!; [done|done| | | |done].
  - by destruct nl.
  - rewrite str_forall_app, Ht, andb_true_r.
    by apply (str_forall_impl _ _ nl netloc_char_url).
  - pose proof (str_forall_impl _ _ nl netloc_char_not_delim Hnl) as Hnd.
    destruct t as [|c t].
    + assert (nl +:+ EmptyString = nl) as ->.
      { clear. induction nl as [|x nl IH]; [done|]. by rewrite app_cons, IH. }
      by rewrite span_all.
    + rewrite span_app_stop; [done|done|by rewrite Hd].
Qed.

(** An origin followed by a path, query or fragment is one match, and its
    origin is the origin it starts with. *)
Lemma extract_origin_tail u t :
  is_origin u → is_url_tail t → CLI.extract (u +:+ t) = {[ u ]}.
Proof.
  intros Hu Ht.
  destruct (origin_tail_shape u t Hu Ht)
    as (sch & nl & -> & Hsch & Hne & Hbody & Hspan & Hnl).
  rewrite !str_app_assoc. unfold CLI.extract.
  rewrite findall_single by (by apply match_token_origin).
  cbn [foldl]. rewrite cli_add_match_origin. unfold origin_of.
  rewrite urlparse_token; [|by destruct Hsch as [-> | ->]..|done].
  cbn [Py.netloc Py.scheme]. rewrite Hspan, Hnl.
  rewrite union_empty_l_L. by destruct Hsch as [-> | ->].
Qed.

Lemma elements_extract_origins text u :
  u ∈ CLI.extract text → is_origin u.
Proof.
  intros (m & Hm & Ho)%elem_of_extract.
  apply findall_from_sound in Hm as (s' & Hs').
  by eapply origin_of_match.
Qed.

Lemma extract_one_per_line l :
  Forall is_origin l → CLI.extract (one_per_line l) = list_to_set l.
Proof.
  induction 1 as [|u l Hu Hl IH]; [done|].
  cbn [one_per_line foldr list_to_set].
  rewrite extract_app_sep by done.
  fold (one_per_line l). rewrite IH.
  pose proof (extract_origin_tail u EmptyString Hu) as Hx.
  assert (u +:+ EmptyString = u) as Heq.
  { clear. induction u as [|x u IH]; [done|]. by rewrite app_cons, IH. }
  rewrite Heq in Hx. by rewrite Hx.
Qed.

(** X1.  A character that cannot be part of a URL (white space, a quote,
    an angle bracket, ...) separates the text into two parts whose URLs
    are found independently: the extraction of the whole is the union of
    the extractions of the parts. *)
Theorem extraction_splits_at_separators (a b : string) (c : ascii) :
  Py.url_char c = false →
  CLI.extract (a +:+ String c b) = CLI.extract a ∪ CLI.extract b
  ∧ GUI.extract (a +:+ String c b) = GUI.extract a ∪ GUI.extract b.
Proof.
  intros Hc. split; [by apply extract_app_sep|].
  rewrite (gui_extract_cli (a +:+ String c b)).
  rewrite (gui_extract_cli a), (gui_extract_cli b).
  by apply extract_app_sep.
Qed.

Lemma extraction_splits_at_separators_witness :
  Py.url_char " " = false
  ∧ CLI.extract ("see http://a.com/x" +:+ String " " "and https://b.org")
    = CLI.extract "see http://a.com/x" ∪ CLI.extract "and https://b.org".
Proof.
  split; [reflexivity|].
  apply (extraction_splits_at_separators "see http://a.com/x"
           "and https://b.org" " "). reflexivity.
Defined.

(** X2.  The path, query and fragment of a URL are discarded: an origin
    followed by nothing, or by a tail that starts with [/], [?] or [#] and
    stays within the token class, extracts to that origin alone. *)
Theorem extraction_discards_the_tail (u t : string) :
  is_origin u → is_url_tail t →
  CLI.extract (u +:+ t) = {[ u ]} ∧ GUI.extract (u +:+ t) = {[ u ]}.
Proof.
  intros Hu Ht. rewrite (gui_extract_cli (u +:+ t)).
  split; by apply extract_origin_tail.
Qed.

Lemma extraction_discards_the_tail_witness :
  is_origin "https://b.org:8080"
  ∧ is_url_tail "/a/b?c=d#e"
  ∧ CLI.extract ("https://b.org:8080" +:+ "/a/b?c=d#e") = {[ "https://b.org:8080" ]}.
Proof.
  assert (is_origin "https://b.org:8080") as Hu.
  { exists "https", "b.org:8080". by split_and!; [|right|..]. }
  assert (is_url_tail "/a/b?c=d#e") as Ht by done.
  split_and!; [done..|].
  apply (extraction_discards_the_tail "https://b.org:8080" "/a/b?c=d#e" Hu Ht).
Defined.

(** X3.  A second pass changes nothing: the extraction of the list of
    extracted origins, written one per line, is the set they came from. *)
Theorem extraction_is_idempotent (text : string) :
  CLI.extract (one_per_line (elements (CLI.extract text))) = CLI.extract text
  ∧ GUI.extract (one_per_line (elements (GUI.extract text))) = GUI.extract text.
Proof.
  assert (CLI.extract (one_per_line (elements (CLI.extract text)))
          = CLI.extract text) as Hcli.
  { rewrite extract_one_per_line.
    - apply list_to_set_elements_L.
    - apply Forall_forall. intros u Hu%elem_of_elements.
      by eapply elements_extract_origins. }
  split; [done|].
  rewrite (gui_extract_cli (one_per_line _)), (gui_extract_cli text).
  exact Hcli.
Qed.

(** ** The executor and the scans *)

Lemma running_step C task urls s s' :
  Pool.step C task urls s s' → Pool.running s ≤ C → Pool.running s' ≤ C.
Proof.
  unfold Pool.running.
  destruct 1 as [s|s|s i u Hi Hfirst Hrun Hu|s i o t0 Hi|s i Hact Hi];
    cbn [Pool.futures]; try done; intros Hle.
  - pose proof (count_insert Pool.is_running _ _ _
                  (Running (task (Pool.active s) u) (Pool.clock s)) Hi) as H.
    simpl in H. unfold Pool.running in Hrun. lia.
  - pose proof (count_insert Pool.is_running _ _ _
                  (Done o t0 (Pool.clock s)) Hi) as H.
    simpl in H. lia.
  - pose proof (count_insert Pool.is_running _ _ _ Cancelled Hi) as H.
    simpl in H. lia.
Qed.

Lemma running_bounded C task urls s :
  Pool.reachable C task urls s → Pool.running s ≤ C.
Proof.
  unfold Pool.reachable. revert s. apply rtc_ind_r.
  - unfold Pool.running, Pool.submit_all. cbn [Pool.futures].
    assert (∀ l : list string,
              Pool.count Pool.is_running ((λ _, Pending) <$> l) = 0) as ->.
    { intros l. induction l as [|u l IH]; [done|].
      rewrite fmap_cons. cbn [Pool.count Pool.is_running]. by rewrite IH. }
    lia.
  - intros s1 s2 _ Hstep IH. by eapply running_step.
Qed.

(** What the save functions and the loops write to the log never shows the
    executor at work. *)
Lemma cli_loop_submits_nothing fs : ∀ i st,
  ∃ added, CLI.log (CLI.loop i fs st) = CLI.log st ++ added
    ∧ Forall (λ e, pool_event e = false) added.
Proof.
  induction fs as [|f fs IH]; intros i st; cbn [CLI.loop].
  { exists []. by rewrite app_nil_r. }
  destruct (IH (S i) (CLI.loop_body i f st)) as (added & -> & Hadd).
  unfold CLI.loop_body.
  destruct (future_result _ 60 f) as [o|e]; [destruct (ok o)|];
    cbn [CLI.log]; rewrite <-app_assoc; eexists; (split; [done|]);
    apply Forall_app; (split; [|done]); repeat constructor.
Qed.

Lemma save_events_quiet :
  (∀ self d, Forall (λ e, pool_event e = false) (CLI.save_url_mapping self d).2)
  ∧ (∀ t self n k d,
       Forall (λ e, pool_event e = false) (CLI.save_to_history t self n k d).2)
  ∧ (∀ self d, Forall (λ e, pool_event e = false) (GUI.save_url_mapping self d).2)
  ∧ (∀ t self n k d,
       Forall (λ e, pool_event e = false) (GUI.save_to_history t self n k d).2)
  ∧ (∀ d self, Forall (λ e, pool_event e = false) (CLI.read_content d self).2)
  ∧ (∀ d self, Forall (λ e, pool_event e = false) (GUI.read_content d self).2).
Proof.
  split_and!; intros;
    unfold CLI.save_url_mapping, CLI.save_to_history, CLI.load_history,
      GUI.save_url_mapping, GUI.save_to_history, GUI.load_history,
      CLI.read_content, GUI.read_content;
    repeat case_match; simplify_eq; cbn [snd app]; repeat constructor.
Qed.

Lemma quiet_not_in (l : list Event) e :
  Forall (λ e, pool_event e = false) l → pool_event e = true → e ∉ l.
Proof.
  intros Hl He Hin. rewrite Forall_forall in Hl.
  specialize (Hl e Hin). congruence.
Qed.

(** [run_scan] of the CLI once URLs were found. *)
Lemma cli_run_scan_found w cli found ev :
  CLI.read_content (CLI.disk w) cli = (found, ev) → found ≠ [] →
  let st := cli_scan_loop w cli found in
  let saved := CLI.save_url_mapping (CLI.self st) (CLI.disk w) in
  let logged :=
    CLI.save_to_history (CLI.today w) (CLI.self st)
      (length (CLI.urls (CLI.self st))) (CLI.successful_captures st) saved.1 in
  (CLI.run_scan w cli).1 = (CLI.self st, logged.1)
  ∧ last (CLI.run_scan w cli).2
    = Some (if 0 <? CLI.failed_captures st
            then Print ("[!] " +:+ str (CLI.failed_captures st)
                        +:+ " captures failed")
            else Print ("[->] Results saved to: " +:+ CLI.output_dir cli))
  ∧ (∀ e, pool_event e = true → e ∈ (CLI.run_scan w cli).2 → e ∈ CLI.log st).
Proof.
  intros Hread Hne. cbn zeta.
  pose proof (proj1 (proj2 (proj2 (proj2 (proj2 save_events_quiet))))
                (CLI.disk w) cli) as Hq.
  pose proof (proj1 save_events_quiet) as Hq1.
  pose proof (proj1 (proj2 save_events_quiet)) as Hq2.
  unfold CLI.run_scan. rewrite Hread in Hq |- *. cbn [snd] in Hq.
  destruct found as [|u found]; [done|].
  cbn [length Nat.eqb].
  change (CLI.threads (CLI.set_urls (u :: found) cli)) with (CLI.threads cli).
  change (CLI.output_dir (CLI.set_urls (u :: found) cli))
    with (CLI.output_dir cli).
  fold (cli_scan_loop w cli (u :: found)).
  generalize (cli_scan_loop w cli (u :: found)). intros st.
  specialize (Hq1 (CLI.self st) (CLI.disk w)).
  destruct (CLI.save_url_mapping (CLI.self st) (CLI.disk w)) as [d1 e1].
  cbn [fst snd] in *.
  specialize (Hq2 (CLI.today w) (CLI.self st)
                (length (CLI.urls (CLI.self st)))
                (CLI.successful_captures st) d1).
  destruct (CLI.save_to_history _ _ _ _ d1) as [d2 e2].
  cbn [fst snd] in *. split; [done|].
  generalize (str (CLI.successful_captures st) +:+ "/"
              +:+ str (S (length found)) +:+ " successful captures").
  intros summary. split.
  - destruct (0 <? CLI.failed_captures st).
    + by rewrite !app_assoc, last_snoc.
    + rewrite app_nil_r.
      change [BarFinish ("[OK] " +:+ summary);
              Print ("[OK] Scan completed! " +:+ summary);
              Print ("[->] Results saved to: " +:+ CLI.output_dir cli)]
        with ([BarFinish ("[OK] " +:+ summary);
               Print ("[OK] Scan completed! " +:+ summary)]
              ++ [Print ("[->] Results saved to: " +:+ CLI.output_dir cli)]).
      by rewrite !app_assoc, last_snoc.
  - intros e He. rewrite !elem_of_app.
    intros [Hin|[Hin|[Hin|[Hin|[Hin|[Hin|[Hin|Hin]]]]]]]; try done.
    + apply list_elem_of_singleton in Hin as ->. done.
    + by apply quiet_not_in in Hin.
    + repeat (apply elem_of_cons in Hin as [->|Hin]; [done|]).
      by apply elem_of_nil in Hin.
    + by apply quiet_not_in in Hin.
    + by apply quiet_not_in in Hin.
    + repeat (apply elem_of_cons in Hin as [->|Hin]; [done|]).
      by apply elem_of_nil in Hin.
    + destruct (0 <? CLI.failed_captures st).
      * apply list_elem_of_singleton in Hin as ->. done.
      * by apply elem_of_nil in Hin.
Qed.

Lemma gui_run_scan_found w gui found ev :
  GUI.read_content (GUI.disk w) gui = (found, ev) → found ≠ [] →
  let st := gui_scan_loop w gui found in
  let saved := GUI.save_url_mapping (GUI.self st) (GUI.disk w) in
  let logged :=
    GUI.save_to_history (GUI.today w) (GUI.self st)
      (length (GUI.urls (GUI.self st))) (GUI.successful_captures st) saved.1 in
  (GUI.run_scan w gui).1 = (GUI.set_scan_active false (GUI.self st), logged.1)
  ∧ last (GUI.run_scan w gui).2 = Some EmitCompleted
  ∧ (∀ e, pool_event e = true → e ∈ (GUI.run_scan w gui).2 → e ∈ GUI.log st).
Proof.
  intros Hread Hne. cbn zeta.
  pose proof (proj2 (proj2 (proj2 (proj2 (proj2 save_events_quiet))))
                (GUI.disk w) gui) as Hq.
  pose proof (proj1 (proj2 (proj2 save_events_quiet))) as Hq1.
  pose proof (proj1 (proj2 (proj2 (proj2 save_events_quiet)))) as Hq2.
  unfold GUI.run_scan. rewrite Hread in Hq |- *. cbn [snd] in Hq.
  destruct found as [|u found]; [done|].
  cbn [Nat.eqb]. change (length (u :: found) =? 0) with false. cbv iota.
  fold (gui_workers w). fold (gui_scan_loop w gui (u :: found)).
  generalize (gui_scan_loop w gui (u :: found)). intros st.
  specialize (Hq1 (GUI.self st) (GUI.disk w)).
  destruct (GUI.save_url_mapping (GUI.self st) (GUI.disk w)) as [d1 e1].
  cbn [fst snd] in *.
  specialize (Hq2 (GUI.today w) (GUI.self st)
                (length (GUI.urls (GUI.self st)))
                (GUI.successful_captures st) d1).
  destruct (GUI.save_to_history _ _ _ _ d1) as [d2 e2].
  cbn [fst snd] in *. split; [done|]. split.
  - by rewrite !app_assoc, last_snoc.
  - intros e He. rewrite !elem_of_app.
    intros [Hin|[Hin|[Hin|[Hin|[Hin|Hin]]]]]; try done.
    + by apply quiet_not_in in Hin.
    + apply list_elem_of_singleton in Hin as ->. done.
    + by apply quiet_not_in in Hin.
    + by apply quiet_not_in in Hin.
    + apply list_elem_of_singleton in Hin as ->. done.
Qed.

(** The loops leave the settings of the object alone. *)
Lemma cli_loop_static fs : ∀ i st,
  CLI.urls (CLI.self (CLI.loop i fs st)) = CLI.urls (CLI.self st)
  ∧ CLI.input_file (CLI.self (CLI.loop i fs st)) = CLI.input_file (CLI.self st)
  ∧ CLI.output_dir (CLI.self (CLI.loop i fs st)) = CLI.output_dir (CLI.self st).
Proof.
  induction fs as [|f fs IH]; intros i st; cbn [CLI.loop]; [done|].
  destruct (IH (S i) (CLI.loop_body i f st)) as (-> & -> & ->).
  unfold CLI.loop_body.
  by destruct (future_result _ 60 f) as [o|e]; [destruct (ok o)|].
Qed.

Lemma gui_loop_static stopped total fs : ∀ i st,
  GUI.urls (GUI.self (GUI.loop stopped total i fs st)) = GUI.urls (GUI.self st)
  ∧ GUI.input_file (GUI.self (GUI.loop stopped total i fs st))
    = GUI.input_file (GUI.self st)
  ∧ GUI.output_dir (GUI.self (GUI.loop stopped total i fs st))
    = GUI.output_dir (GUI.self st).
Proof.
  induction fs as [|f fs IH]; intros i st; cbn [GUI.loop]; [done|].
  destruct (stopped i); [done|].
  destruct (IH (S i) (GUI.loop_body total i f st)) as (-> & -> & ->).
  unfold GUI.loop_body.
  by destruct (future_result _ 60 f) as [o|e]; [destruct (ok o)|].
Qed.

(** What [as_completed] yields at any moment: finished futures only, and
    no more of them than URLs were submitted. *)
Lemma as_completed_reachable C task urls s :
  Pool.reachable C task urls s →
  Forall (λ f, ∃ o t0 t1, f = Done o t0 t1) (Pool.as_completed s)
  ∧ length (Pool.as_completed s) ≤ length urls.
Proof.
  intros Hr. pose proof (pool_inv_reachable C task urls s Hr) as Hinv.
  assert (∀ l, (∀ i, i ∈ l → ∃ o t0 t1, Pool.futures s !! i = Some (Done o t0 t1)) →
            Forall (λ f, ∃ o t0 t1, f = Done o t0 t1)
              (omap (λ i, Pool.futures s !! i) l)
            ∧ length (omap (λ i, Pool.futures s !! i) l) = length l) as Hl.
  { induction l as [|i l IH]; intros Hall; [by split|].
    destruct (Hall i) as (o & t0 & t1 & Hi); [by left|].
    destruct IH as [IH1 IH2]; [intros j Hj; apply Hall; by right|].
    cbn [omap list_omap]. rewrite Hi. cbn [omap list_omap]. split.
    - constructor; eauto.
    - simpl. by rewrite IH2. }
  destruct (Hl (Pool.completed s)) as [H1 H2].
  { intros i Hi. by apply (inv_completed _ _ _ Hinv). }
  unfold Pool.as_completed. split; [done|]. rewrite H2.
  assert (Pool.completed s ⊆+ seq 0 (length urls)) as Hsub.
  { apply NoDup_submseteq; [apply Hinv|].
    intros i (o & t0 & t1 & Hi)%(inv_completed _ _ _ Hinv).
    apply elem_of_seq. apply lookup_lt_Some in Hi.
    rewrite (inv_length _ _ _ Hinv) in Hi. lia. }
  apply submseteq_length in Hsub. by rewrite length_seq in Hsub.
Qed.

Lemma succeeded_length os : length (succeeded os) ≤ length os.
Proof. unfold succeeded. apply length_filter. Qed.

Lemma outcomes_length fs : length (outcomes fs) ≤ length fs.
Proof.
  unfold outcomes. induction fs as [|f fs IH]; [done|].
  cbn [omap list_omap]. destruct f; simpl; lia.
Qed.

Lemma save_mapping_keeps_history :
  (∀ self d, history_json (CLI.save_url_mapping self d).1 = history_json d
           ∧ history_writable (CLI.save_url_mapping self d).1 = history_writable d)
  ∧ (∀ self d, history_json (GUI.save_url_mapping self d).1 = history_json d
             ∧ history_writable (GUI.save_url_mapping self d).1
               = history_writable d).
Proof.
  split; intros self d; unfold CLI.save_url_mapping, GUI.save_url_mapping;
    by destruct (mapping_writable d).
Qed.

(** X4.  A scan of the CLI that found URLs and could create its executor
    ends with a history entry at the head of the history file that counts
    all the URLs found as total and the successful captures among the
    outcomes received as successful; the images recorded are the files of
    these captures, in the order of completion; and the last line printed
    is the count of failures when there is one. *)
Theorem cli_scan_history_entry
    (w : CLI.World) (cli : CLI.Self) (found : list string) :
  (CLI.read_content (CLI.disk w) cli).1 = found →
  found ≠ [] →
  (0 < CLI.threads cli)%Z →
  Pool.reachable (Z.to_nat (CLI.threads cli))
    (λ _, CLI.capture_screenshot (CLI.browser w) (CLI.set_urls found cli))
    found (CLI.scheduler w (Z.to_nat (CLI.threads cli)) found) →
  history_writable (CLI.disk w) = true →
  let yielded :=
    Pool.as_completed (CLI.scheduler w (Z.to_nat (CLI.threads cli)) found) in
  let k := length (succeeded (outcomes yielded)) in
  persisted_history (CLI.run_scan w cli).1.2 !! 0
  = Some {| date := CLI.today w; entry_input_file := CLI.input_file cli;
            entry_output_dir := CLI.output_dir cli;
            total_urls := length found; successful := k |}
  ∧ k ≤ length yielded ≤ length found
  ∧ CLI.images (CLI.run_scan w cli).1.1
    = CLI.images cli ++ (result <$> succeeded (outcomes yielded))
  ∧ last (CLI.run_scan w cli).2
    = Some (if k <? length yielded
            then Print ("[!] " +:+ str (length yielded - k)
                        +:+ " captures failed")
            else Print ("[->] Results saved to: " +:+ CLI.output_dir cli)).
Proof.
  intros Hread Hne Hthreads Hreach Hw. cbn zeta.
  destruct (CLI.read_content (CLI.disk w) cli) as [found' ev] eqn:Hrc.
  cbn [fst] in Hread. subst found'.
  destruct (cli_run_scan_found w cli found ev Hrc Hne) as (H1 & H2 & _).
  cbn zeta in H1, H2.
  destruct (as_completed_reachable _ _ _ _ Hreach) as [Hdone Hlen].
  unfold cli_scan_loop in H1, H2.
  assert ((CLI.threads cli <=? 0)%Z = false) as Htest by (by apply Z.leb_gt).
  rewrite Htest in H1, H2.
  set (yielded := Pool.as_completed _) in *.
  set (st0 := {| CLI.self := CLI.set_urls found cli |}) in *.
  destruct (cli_loop_done yielded 0 st0 Hdone) as (G1 & G2 & G3 & _).
  destruct (cli_loop_static yielded 0 st0) as (S1 & S2 & S3).
  cbn zeta in G1, G2, G3.
  set (st := CLI.loop 0 yielded st0) in *.
  cbn [st0 CLI.self CLI.successful_captures CLI.failed_captures CLI.set_urls
       CLI.urls CLI.input_file CLI.output_dir CLI.images] in G1, G2, G3, S1, S2, S3.
  assert (length (succeeded (outcomes yielded)) ≤ length yielded) as Hk.
  { etrans; [apply succeeded_length|apply outcomes_length]. }
  split_and!.
  - rewrite (f_equal snd H1). cbn [snd].
    change ((CLI.save_to_history ?t ?s ?n ?j ?d).1)
      with (append_history (CliSession t s n j) d).
    rewrite append_history_persisted.
    rewrite (proj2 (proj1 save_mapping_keeps_history _ _)), Hw.
    cbn [session_entry lookup list_lookup].
    by rewrite S1, S2, S3, G1.
  - done.
  - done.
  - by rewrite (f_equal fst H1).
  - rewrite H2.
    assert (CLI.failed_captures st
            = length yielded - length (succeeded (outcomes yielded))) as ->
      by lia.
    destruct (Nat.ltb_spec 0 (length yielded - length (succeeded (outcomes yielded))));
      destruct (Nat.ltb_spec (length (succeeded (outcomes yielded))) (length yielded));
      try done; lia.
Qed.

(** X5.  A scan of the GUI that found URLs always comes to its end, be it
    stopped on the way or not: the scan flag is cleared and the completion
    signal is the last thing emitted, after the shutdown of the executor.
    With [j] the number of turns the loop made before it saw the stop
    request, the images added are the files of the successful captures
    among the first [j] outcomes; the history file gets an entry that
    counts all the URLs found as total and these captures as successful;
    and the mapping file holds the mapping of the object. *)
Theorem gui_scan_always_recorded
    (w : GUI.World) (gui : GUI.Self) (found : list string) :
  (GUI.read_content (GUI.disk w) gui).1 = found →
  found ≠ [] →
  Pool.reachable (gui_workers w)
    (GUI.capture (GUI.browser w) (GUI.set_urls found gui))
    found (GUI.scheduler w (gui_workers w) found) →
  let yielded := Pool.as_completed (GUI.scheduler w (gui_workers w) found) in
  let j := turns (GUI.stopped w) 0 (length yielded) in
  let kept := succeeded (outcomes (take j yielded)) in
  GUI.scan_active (GUI.run_scan w gui).1.1 = false
  ∧ GUI.images (GUI.run_scan w gui).1.1 = GUI.images gui ++ (result <$> kept)
  ∧ length kept ≤ j ≤ length found
  ∧ (history_writable (GUI.disk w) = true →
     persisted_history (GUI.run_scan w gui).1.2 !! 0
     = Some {| date := GUI.today w;
               entry_input_file := Some (default "Unknown" (GUI.input_file gui));
               entry_output_dir := GUI.output_dir gui;
               total_urls := length found; successful := length kept |})
  ∧ (mapping_writable (GUI.disk w) = true →
     persisted_mapping (GUI.run_scan w gui).1.2
     = GUI.url_mapping (GUI.run_scan w gui).1.1)
  ∧ last (GUI.run_scan w gui).2 = Some EmitCompleted
  ∧ ExecutorShutdown ∈ (GUI.run_scan w gui).2.
Proof.
  intros Hread Hne Hreach. cbn zeta.
  destruct (GUI.read_content (GUI.disk w) gui) as [found' ev] eqn:Hrc.
  cbn [fst] in Hread. subst found'.
  destruct (gui_run_scan_found w gui found ev Hrc Hne) as (H1 & H2 & _).
  cbn zeta in H1.
  destruct (as_completed_reachable _ _ _ _ Hreach) as [Hdone Hlen].
  unfold gui_scan_loop in H1.
  set (yielded := Pool.as_completed _) in *.
  set (st0 := {| GUI.self := GUI.set_urls found gui |}) in *.
  destruct (gui_loop_turns (GUI.stopped w) (length found) yielded 0 st0)
    as (T1 & T2 & _).
  cbn zeta in T1, T2.
  set (j := turns (GUI.stopped w) 0 (length yielded)) in *.
  assert (j ≤ length yielded) as Hj by apply turns_le.
  assert (Forall (λ f, ∃ o t0 t1, f = Done o t0 t1) (take j yielded)) as Hdone'
    by (by apply Forall_take).
  destruct (gui_loop_done (length found) (take j yielded) 0 st0 Hdone')
    as (G1 & G2 & _).
  destruct (gui_loop_static (GUI.stopped w) (length found) yielded 0 st0)
    as (S1 & S2 & S3).
  cbn zeta in G1, G2.
  rewrite <-T1 in G2. rewrite <-T2 in G1.
  set (st := GUI.loop (GUI.stopped w) (length found) 0 yielded st0) in *.
  cbn [st0 GUI.self GUI.successful_captures GUI.set_urls
       GUI.urls GUI.input_file GUI.output_dir GUI.images] in G1, G2, S1, S2, S3.
  assert (length (succeeded (outcomes (take j yielded))) ≤ j) as Hk.
  { etrans; [apply succeeded_length|]. etrans; [apply outcomes_length|].
    rewrite length_take. lia. }
  split_and!.
  - by rewrite (f_equal fst H1).
  - by rewrite (f_equal fst H1).
  - done.
  - lia.
  - intros Hw. rewrite (f_equal snd H1). cbn [snd].
    change ((GUI.save_to_history ?t ?s ?n ?i ?d).1)
      with (append_history (GuiSession t s n i) d).
    rewrite append_history_persisted.
    rewrite (proj2 (proj2 save_mapping_keeps_history _ _)), Hw.
    cbn [session_entry lookup list_lookup].
    by rewrite S1, S2, S3, G1.
  - intros Hw. rewrite (f_equal snd H1), (f_equal fst H1). cbn [fst snd].
    by rewrite gui_saved_mapping, Hw.
  - done.
  - unfold GUI.run_scan. rewrite Hrc.
    destruct found as [|u found]; [done|].
    change (length (u :: found) =? 0) with false. cbv iota.
    destruct (GUI.save_url_mapping _ _) as [d1 e1].
    destruct (GUI.save_to_history _ _ _ _ d1) as [d2 e2].
    cbn [snd]. rewrite !elem_of_app. right. right. left.
    by apply list_elem_of_singleton.
Qed.

Lemma scan_without_urls_quiet :
  (∀ w cli, (CLI.read_content (CLI.disk w) cli).1 = [] →
     Forall (λ e, pool_event e = false) (CLI.run_scan w cli).2)
  ∧ (∀ w gui, (GUI.read_content (GUI.disk w) gui).1 = [] →
       Forall (λ e, pool_event e = false) (GUI.run_scan w gui).2).
Proof.
  split.
  - intros w cli Hnone.
    pose proof (proj1 (proj2 (proj2 (proj2 (proj2 save_events_quiet))))
                  (CLI.disk w) cli) as Hq.
    unfold CLI.run_scan.
    destruct (CLI.read_content _ _) as [found ev]. cbn [fst snd] in *.
    subst found. cbn [length Nat.eqb snd].
    apply Forall_cons. split; [done|].
    apply Forall_app. split; [done|]. by repeat constructor.
  - intros w gui Hnone.
    pose proof (proj2 (proj2 (proj2 (proj2 (proj2 save_events_quiet))))
                  (GUI.disk w) gui) as Hq.
    unfold GUI.run_scan.
    destruct (GUI.read_content _ _) as [found ev]. cbn [fst snd] in *.
    subst found. cbn [length Nat.eqb snd].
    apply Forall_app. split; [done|]. by repeat constructor.
Qed.

Lemma gui_workers_bounds w : 1 ≤ gui_workers w ≤ 4.
Proof.
  unfold gui_workers. destruct (GUI.cpu_count w) as [[|n]|]; lia.
Qed.

(** X6.  The number of workers.  An executor that a scan of the GUI
    creates has between one and four workers, whatever the number of
    processors; one that a scan of the CLI creates has as many workers as
    the [threads] option says, which is then positive; and in no state of
    an executor are more captures in progress than it has workers. *)
Theorem scan_workers_bounded
    (gw : GUI.World) (gui : GUI.Self) (w : CLI.World) (cli : CLI.Self)
    (n : nat) :
  (Executor n ∈ (GUI.run_scan gw gui).2 →
   n = gui_workers gw ∧ 1 ≤ n ≤ 4
   ∧ ∀ task urls s, Pool.reachable n task urls s → Pool.running s ≤ 4)
  ∧ (Executor n ∈ (CLI.run_scan w cli).2 →
     (0 < CLI.threads cli)%Z ∧ Z.of_nat n = CLI.threads cli
     ∧ ∀ task urls s, Pool.reachable n task urls s →
         (Z.of_nat (Pool.running s) ≤ CLI.threads cli)%Z).
Proof.
  split.
  - intros Hin.
    assert (n = gui_workers gw) as ->.
    { destruct (GUI.read_content (GUI.disk gw) gui) as [found ev] eqn:Hrc.
      destruct (decide (found = [])) as [->|Hne].
      { pose proof (proj2 scan_without_urls_quiet gw gui) as Hq.
        rewrite Hrc in Hq. by apply (quiet_not_in _ _ (Hq eq_refl)) in Hin. }
      destruct (gui_run_scan_found gw gui found ev Hrc Hne) as (_ & _ & Hlog).
      apply Hlog in Hin; [|done]. unfold gui_scan_loop in Hin.
      destruct (gui_loop_submits_nothing (GUI.stopped gw) (length found)
                  (Pool.as_completed (GUI.scheduler gw (gui_workers gw) found)) 0
                  {| GUI.self := GUI.set_urls found gui;
                     GUI.successful_captures := 0; GUI.now := 0;
                     GUI.log := Executor (gui_workers gw) :: (Submit <$> found) |})
        as (added & Hadd & Hquiet).
      rewrite Hadd in Hin. cbn [GUI.log] in Hin.
      apply elem_of_app in Hin as [Hin|Hin];
        [|by apply quiet_not_in in Hin].
      apply elem_of_cons in Hin as [[= ->]|Hin]; [done|].
      apply list_elem_of_fmap in Hin as (u & [=] & _). }
    pose proof (gui_workers_bounds gw) as Hb.
    split_and!; [done|lia|lia|].
    intros task urls s Hs. apply running_bounded in Hs. lia.
  - intros Hin.
    assert ((0 < CLI.threads cli)%Z ∧ n = Z.to_nat (CLI.threads cli))
      as [Hpos ->].
    { destruct (CLI.read_content (CLI.disk w) cli) as [found ev] eqn:Hrc.
      destruct (decide (found = [])) as [->|Hne].
      { pose proof (proj1 scan_without_urls_quiet w cli) as Hq.
        rewrite Hrc in Hq. by apply (quiet_not_in _ _ (Hq eq_refl)) in Hin. }
      destruct (cli_run_scan_found w cli found ev Hrc Hne) as (_ & _ & Hlog).
      apply Hlog in Hin; [|done]. unfold cli_scan_loop in Hin.
      destruct (Z.leb_spec (CLI.threads cli) 0) as [Hle|Hlt].
      { cbn [CLI.log] in Hin. by apply list_elem_of_singleton in Hin. }
      destruct (cli_loop_submits_nothing
                  (Pool.as_completed
                     (CLI.scheduler w (Z.to_nat (CLI.threads cli)) found)) 0
                  {| CLI.self := CLI.set_urls found cli;
                     CLI.successful_captures := 0; CLI.failed_captures := 0;
                     CLI.now := 0;
                     CLI.log := Executor (Z.to_nat (CLI.threads cli))
                                :: (Submit <$> found) |})
        as (added & Hadd & Hquiet).
      rewrite Hadd in Hin. cbn [CLI.log] in Hin.
      apply elem_of_app in Hin as [Hin|Hin];
        [|by apply quiet_not_in in Hin].
      apply elem_of_cons in Hin as [[= ->]|Hin]; [done|].
      apply list_elem_of_fmap in Hin as (u & [=] & _). }
    split_and!; [done|lia|].
    intros task urls s Hs. apply running_bounded in Hs. lia.
Qed.

(** X7.  A scan of the CLI with a [threads] option that is not positive.
    When URLs were found, the executor cannot be created: the error is
    printed, no task is submitted, the object keeps its images and its
    mapping; and the run still goes on to write the mapping file and a
    history entry, which counts all the URLs found and no success, and to
    print its closing lines, the last of which names the output
    directory. *)
Theorem cli_scan_without_workers
    (w : CLI.World) (cli : CLI.Self) (found : list string) :
  (CLI.read_content (CLI.disk w) cli).1 = found →
  found ≠ [] →
  (CLI.threads cli ≤ 0)%Z →
  (CLI.run_scan w cli).1.1 = CLI.set_urls found cli
  ∧ (∀ e, e ∈ (CLI.run_scan w cli).2 → pool_event e = false)
  ∧ PrintError "[!] Scan error: " ∈ (CLI.run_scan w cli).2
  ∧ (mapping_writable (CLI.disk w) = true →
     persisted_mapping (CLI.run_scan w cli).1.2 = CLI.url_mapping cli)
  ∧ (history_writable (CLI.disk w) = true →
     persisted_history (CLI.run_scan w cli).1.2 !! 0
     = Some {| date := CLI.today w; entry_input_file := CLI.input_file cli;
               entry_output_dir := CLI.output_dir cli;
               total_urls := length found; successful := 0 |})
  ∧ last (CLI.run_scan w cli).2
    = Some (Print ("[->] Results saved to: " +:+ CLI.output_dir cli)).
Proof.
  intros Hread Hne Hthreads.
  destruct (CLI.read_content (CLI.disk w) cli) as [found' ev] eqn:Hrc.
  cbn [fst] in Hread. subst found'.
  destruct (cli_run_scan_found w cli found ev Hrc Hne) as (H1 & H2 & H3).
  cbn zeta in H1, H2, H3. unfold cli_scan_loop in H1, H2, H3.
  assert ((CLI.threads cli <=? 0)%Z = true) as Htest by (by apply Z.leb_le).
  rewrite Htest in H1, H2, H3.
  cbn [CLI.self CLI.successful_captures CLI.failed_captures CLI.log
       CLI.set_urls CLI.urls] in H1, H2, H3.
  split_and!.
  - by rewrite (f_equal fst H1).
  - intros e He. destruct (pool_event e) eqn:Hp; [|done].
    specialize (H3 e Hp He). by apply list_elem_of_singleton in H3 as ->.
  - unfold CLI.run_scan. rewrite Hrc.
    destruct found as [|u found]; [done|].
    cbn [length Nat.eqb].
    change (CLI.threads (CLI.set_urls (u :: found) cli)) with (CLI.threads cli).
    rewrite Htest.
    destruct (CLI.save_url_mapping _ _) as [d1 e1].
    destruct (CLI.save_to_history _ _ _ _ d1) as [d2 e2].
    cbn [snd CLI.log]. rewrite !elem_of_app. right. right. right. left.
    by apply list_elem_of_singleton.
  - intros Hw. rewrite (f_equal snd H1). cbn [snd].
    by rewrite cli_saved_mapping, Hw.
  - intros Hw. rewrite (f_equal snd H1). cbn [snd].
    change ((CLI.save_to_history ?t ?s ?n ?j ?d).1)
      with (append_history (CliSession t s n j) d).
    rewrite append_history_persisted.
    by rewrite (proj2 (proj1 save_mapping_keeps_history _ _)), Hw.
  - done.
Qed.

Lemma cli_scan_history_entry_witness :
  (CLI.read_content (CLI.disk slow_cli_world) sample_cli).1 = [slow_url]
  ∧ (0 < CLI.threads sample_cli)%Z
  ∧ history_writable (CLI.disk slow_cli_world) = true
  ∧ total_urls <$> persisted_history
                     (CLI.run_scan slow_cli_world sample_cli).1.2 !! 0
    = Some 1.
Proof.
  split; [reflexivity|]. split; [reflexivity|]. split; [reflexivity|].
  rewrite (proj1 (cli_scan_history_entry slow_cli_world sample_cli [slow_url]
                    eq_refl ltac:(discriminate) eq_refl
                    (slow_run_reachable 4 _ ltac:(lia)) eq_refl)).
  reflexivity.
Defined.

Lemma gui_scan_always_recorded_witness :
  (GUI.read_content (GUI.disk slow_gui_world) sample_gui).1 = [slow_url]
  ∧ GUI.scan_active (GUI.run_scan slow_gui_world sample_gui).1.1 = false.
Proof.
  split; [reflexivity|].
  apply (gui_scan_always_recorded slow_gui_world sample_gui [slow_url]
           eq_refl ltac:(discriminate) (slow_run_reachable 4 _ ltac:(lia))).
Defined.

Lemma scan_workers_bounded_witness :
  Executor 4 ∈ (GUI.run_scan slow_gui_world sample_gui).2
  ∧ 1 ≤ 4 ≤ 4.
Proof.
  assert (Executor 4 ∈ (GUI.run_scan slow_gui_world sample_gui).2) as Hin.
  { vm_compute. apply list_elem_of_here. }
  split; [exact Hin|].
  apply (proj1 (scan_workers_bounded slow_gui_world sample_gui
                  slow_cli_world sample_cli 4) Hin).
Defined.

Lemma cli_scan_without_workers_witness :
  (CLI.read_content (CLI.disk slow_cli_world) idle_cli).1 = [slow_url]
  ∧ (CLI.threads idle_cli ≤ 0)%Z
  ∧ (CLI.run_scan slow_cli_world idle_cli).1.1 = CLI.set_urls [slow_url] idle_cli.
Proof.
  split; [reflexivity|]. split; [reflexivity|].
  apply (cli_scan_without_workers slow_cli_world idle_cli [slow_url]
           eq_refl ltac:(discriminate) ltac:(reflexivity)).
Defined.

(** ** From the scan to the viewer *)

(** Whatever the executor did, the value a future holds is the one the
    task function gives for the URL submitted at its place. *)
Lemma reachable_values C task urls s :
  Pool.reachable C task urls s →
  ∀ i f, Pool.futures s !! i = Some f →
    match f with
    | Running o _ | Done o _ _ => ∃ u a, urls !! i = Some u ∧ o = task a u
    | _ => True
    end.
Proof.
  unfold Pool.reachable. revert s.
  apply (rtc_ind_r
           (λ s, ∀ i f, Pool.futures s !! i = Some f →
              match f with
              | Running o _ | Done o _ _ =>
                  ∃ u a, urls !! i = Some u ∧ o = task a u
              | _ => True
              end)).
  - intros i f. unfold Pool.submit_all. cbn [Pool.futures].
    rewrite list_lookup_fmap. destruct (urls !! i); [|done].
    by intros [= <-].
  - intros s1 s2 _ Hstep IH i f.
    destruct Hstep as [s|s|s j u Hj Hfifo Hrun Hu|s j o t0 Hj|s j Hact Hj];
      cbn [Pool.futures]; try apply IH.
    + destruct (decide (j = i)) as [->|Hne].
      * rewrite list_lookup_insert_eq by (by eapply lookup_lt_Some).
        intros [= <-]. eauto.
      * rewrite list_lookup_insert_ne by done. apply IH.
    + destruct (decide (j = i)) as [->|Hne].
      * rewrite list_lookup_insert_eq by (by eapply lookup_lt_Some).
        intros [= <-]. apply (IH i (Running o t0) Hj).
      * rewrite list_lookup_insert_ne by done. apply IH.
    + destruct (decide (j = i)) as [->|Hne].
      * rewrite list_lookup_insert_eq by (by eapply lookup_lt_Some).
        by intros [= <-].
      * rewrite list_lookup_insert_ne by done. apply IH.
Qed.

Lemma reachable_outcomes C task urls s o :
  Pool.reachable C task urls s →
  o ∈ outcomes (Pool.as_completed s) →
  ∃ u a, u ∈ urls ∧ o = task a u.
Proof.
  intros Hr Ho. unfold outcomes, Pool.as_completed in Ho.
  apply list_elem_of_omap in Ho as (f & Hf & Hfo).
  apply list_elem_of_omap in Hf as (i & _ & Hi).
  pose proof (reachable_values C task urls s Hr i f Hi) as Hv.
  destruct f as [|o' t0|o' t0 t1|]; simplify_eq.
  destruct Hv as (u & a & Hu & ->).
  exists u, a. split; [|done]. by eapply list_elem_of_lookup_2.
Qed.

(** Every image the GUI's loop has added since the object had [n] images
    has a mapping entry under its file name, and the entry is the URL of a
    successful outcome whose file has that name. *)
Lemma gui_loop_mapped stopped total n fs : ∀ i st (known : Outcome → Prop),
  n ≤ length (GUI.images (GUI.self st)) →
  (∀ p, p ∈ drop n (GUI.images (GUI.self st)) →
     ∃ o, known o ∧ Py.basename (result o) = Py.basename p
          ∧ GUI.url_mapping (GUI.self st) !! Py.basename p = Some (url o)) →
  ∀ p, p ∈ drop n (GUI.images (GUI.self (GUI.loop stopped total i fs st))) →
    ∃ o, (known o ∨ (o ∈ outcomes fs ∧ ok o = true))
         ∧ Py.basename (result o) = Py.basename p
         ∧ GUI.url_mapping (GUI.self (GUI.loop stopped total i fs st))
             !! Py.basename p = Some (url o).
Proof.
  induction fs as [|f fs IH]; intros i st known Hn Hst p Hp.
  { destruct (Hst p Hp) as (o & ? & ? & ?). eauto. }
  cbn [GUI.loop] in Hp |- *.
  destruct (stopped i).
  { cbn [GUI.self] in Hp |- *. destruct (Hst p Hp) as (o & ? & ? & ?). eauto. }
  assert (∀ st1 : GUI.Loop, GUI.self st1 = GUI.self st →
            p ∈ drop n (GUI.images (GUI.self (GUI.loop stopped total (S i) fs st1))) →
            ∃ o, (known o ∨ (o ∈ outcomes (f :: fs) ∧ ok o = true))
                 ∧ Py.basename (result o) = Py.basename p
                 ∧ GUI.url_mapping (GUI.self (GUI.loop stopped total (S i) fs st1))
                     !! Py.basename p = Some (url o)) as Hsame.
  { intros st1 Hself Hp1.
    destruct (IH (S i) st1 known) with (p := p) as (o & Ho & Hb & Hm);
      [by rewrite Hself|by rewrite Hself|done|].
    exists o. split; [|done]. destruct Ho as [?|[Ho ?]]; [by left|right].
    split; [|done]. unfold outcomes in *. cbn [omap].
    destruct f; [done|done|by right|done]. }
  unfold GUI.loop_body in Hp |- *.
  destruct (future_result _ 60 f) as [o|e] eqn:Hres; [|by apply Hsame].
  destruct (ok o) eqn:Hok; [|by apply Hsame].
  assert (f = Done o match f with Done _ t0 _ => t0 | _ => 0 end
                     (completion_time f)) as Hf.
  { destruct f as [|o' t0|o' t0 t1|]; simplify_eq/=.
    by destruct (t1 <=? _); simplify_eq. }
  match type of Hp with
  | context [GUI.loop _ _ _ _ ?s] => set (st1 := s) in *
  end.
  destruct (IH (S i) st1 (λ o', known o' ∨ o' = o)) with (p := p)
    as (o' & Ho' & Hb & Hm).
  - cbn [st1 GUI.self GUI.set_url_mapping GUI.set_images GUI.images].
    rewrite length_app. lia.
  - cbn [st1 GUI.self GUI.set_url_mapping GUI.set_images GUI.images
         GUI.url_mapping].
    intros q Hq. rewrite drop_app_le in Hq by done.
    destruct (decide (Py.basename q = Py.basename (result o))) as [Heq|Hne].
    + exists o. rewrite Heq, lookup_insert_eq. auto.
    + apply elem_of_app in Hq as [Hq|Hq].
      * destruct (Hst q Hq) as (o1 & ? & ? & ?). exists o1.
        rewrite lookup_insert_ne by done. auto.
      * apply list_elem_of_singleton in Hq as ->. done.
  - done.
  - exists o'. split; [|done].
    destruct Ho' as [[?| ->]|[Ho' ?]]; [by left|right|right].
    + split; [|done]. rewrite Hf. unfold outcomes. cbn [omap]. by left.
    + split; [|done]. rewrite Hf. unfold outcomes in *. cbn [omap]. by right.
Qed.

Lemma cli_loop_mapped n fs : ∀ i st (known : Outcome → Prop),
  n ≤ length (CLI.images (CLI.self st)) →
  (∀ p, p ∈ drop n (CLI.images (CLI.self st)) →
     ∃ o, known o ∧ Py.basename (result o) = Py.basename p
          ∧ CLI.url_mapping (CLI.self st) !! Py.basename p = Some (url o)) →
  ∀ p, p ∈ drop n (CLI.images (CLI.self (CLI.loop i fs st))) →
    ∃ o, (known o ∨ (o ∈ outcomes fs ∧ ok o = true))
         ∧ Py.basename (result o) = Py.basename p
         ∧ CLI.url_mapping (CLI.self (CLI.loop i fs st))
             !! Py.basename p = Some (url o).
Proof.
  induction fs as [|f fs IH]; intros i st known Hn Hst p Hp.
  { destruct (Hst p Hp) as (o & ? & ? & ?). eauto. }
  cbn [CLI.loop] in Hp |- *.
  assert (∀ st1 : CLI.Loop, CLI.self st1 = CLI.self st →
            p ∈ drop n (CLI.images (CLI.self (CLI.loop (S i) fs st1))) →
            ∃ o, (known o ∨ (o ∈ outcomes (f :: fs) ∧ ok o = true))
                 ∧ Py.basename (result o) = Py.basename p
                 ∧ CLI.url_mapping (CLI.self (CLI.loop (S i) fs st1))
                     !! Py.basename p = Some (url o)) as Hsame.
  { intros st1 Hself Hp1.
    destruct (IH (S i) st1 known) with (p := p) as (o & Ho & Hb & Hm);
      [by rewrite Hself|by rewrite Hself|done|].
    exists o. split; [|done]. destruct Ho as [?|[Ho ?]]; [by left|right].
    split; [|done]. unfold outcomes in *. cbn [omap].
    destruct f; [done|done|by right|done]. }
  unfold CLI.loop_body in Hp |- *.
  destruct (future_result _ 60 f) as [o|e] eqn:Hres; [|by apply Hsame].
  destruct (ok o) eqn:Hok; [|by apply Hsame].
  assert (f = Done o match f with Done _ t0 _ => t0 | _ => 0 end
                     (completion_time f)) as Hf.
  { destruct f as [|o' t0|o' t0 t1|]; simplify_eq/=.
    by destruct (t1 <=? _); simplify_eq. }
  match type of Hp with
  | context [CLI.loop _ _ ?s] => set (st1 := s) in *
  end.
  destruct (IH (S i) st1 (λ o', known o' ∨ o' = o)) with (p := p)
    as (o' & Ho' & Hb & Hm).
  - cbn [st1 CLI.self CLI.set_url_mapping CLI.set_images CLI.images].
    rewrite length_app. lia.
  - cbn [st1 CLI.self CLI.set_url_mapping CLI.set_images CLI.images
         CLI.url_mapping].
    intros q Hq. rewrite drop_app_le in Hq by done.
    destruct (decide (Py.basename q = Py.basename (result o))) as [Heq|Hne].
    + exists o. rewrite Heq, lookup_insert_eq. auto.
    + apply elem_of_app in Hq as [Hq|Hq].
      * destruct (Hst q Hq) as (o1 & ? & ? & ?). exists o1.
        rewrite lookup_insert_ne by done. auto.
      * apply list_elem_of_singleton in Hq as ->. done.
  - done.
  - exists o'. split; [|done].
    destruct Ho' as [[?| ->]|[Ho' ?]]; [by left|right|right].
    + split; [|done]. rewrite Hf. unfold outcomes. cbn [omap]. by left.
    + split; [|done]. rewrite Hf. unfold outcomes in *. cbn [omap]. by right.
Qed.

Lemma cli_saved_mapping_json today self n k d :
  mapping_writable d = true →
  mapping_json
    (CLI.save_to_history today self n k (CLI.save_url_mapping self d).1).1
  = Content (CLI.url_mapping self).
Proof.
  intros Hw.
  unfold CLI.save_to_history, CLI.save_url_mapping, CLI.load_history.
  rewrite Hw. simpl. destruct (history_json d); simpl;
    by destruct (history_writable d).
Qed.

Lemma lookup_in_drop {A} (l : list A) n i x :
  n ≤ i → l !! i = Some x → x ∈ drop n l.
Proof.
  intros Hn Hi. apply list_elem_of_lookup. exists (i - n).
  rewrite lookup_drop. by replace (n + (i - n)) with i by lia.
Qed.

(** What the viewer shows for an image whose file name has a mapping entry. *)
Lemma show_mapped loadable win path u :
  (0 ≤ Viewer.current_index win)%Z →
  GUI.images (Viewer.self win) !! Z.to_nat (Viewer.current_index win) = Some path →
  loadable path = true →
  GUI.url_mapping (Viewer.self win) !! Py.basename path = Some u →
  Viewer.show_current_image loadable win = Viewer.Shown (Py.basename path) u.
Proof.
  intros H0 Hpath Hload Hmap. unfold Viewer.show_current_image.
  pose proof (lookup_lt_Some _ _ _ Hpath) as Hlt.
  assert ((0 <=? Viewer.current_index win)%Z = true) as -> by (by apply Z.leb_le).
  assert ((Viewer.current_index win <? Viewer.number_of_images win)%Z = true)
    as ->.
  { apply Z.ltb_lt. unfold Viewer.number_of_images. lia. }
  cbn [andb]. by rewrite Hpath, Hload, Hmap.
Qed.

(** X8.  What the viewer shows after a scan of the GUI.  For every image
    that the scan has added to the list and that can be loaded, the
    display names the file and a URL that the scan found and whose
    sanitised host is the stem of the file name: the address is taken from
    the mapping, never guessed from the file name. *)
Theorem scanned_image_shown_with_its_url
    (w : GUI.World) (gui : GUI.Self) (found : list string)
    (win : Viewer.Window) (loadable : string → bool) (path : string) :
  (GUI.read_content (GUI.disk w) gui).1 = found →
  Pool.reachable (gui_workers w)
    (GUI.capture (GUI.browser w) (GUI.set_urls found gui))
    found (GUI.scheduler w (gui_workers w) found) →
  Viewer.self win = (GUI.run_scan w gui).1.1 →
  (Z.of_nat (length (GUI.images gui)) ≤ Viewer.current_index win)%Z →
  GUI.images (Viewer.self win) !! Z.to_nat (Viewer.current_index win)
  = Some path →
  loadable path = true →
  ∃ u stem,
    u ∈ found ∧ file_stem u = Some stem
    ∧ Py.basename path = stem +:+ ".png"
    ∧ Viewer.show_current_image loadable win
      = Viewer.Shown (stem +:+ ".png") u.
Proof.
  intros Hread Hreach Hself Hidx Hpath Hload.
  destruct (GUI.read_content (GUI.disk w) gui) as [found' ev] eqn:Hrc.
  cbn [fst] in Hread. subst found'.
  assert (path ∈ drop (length (GUI.images gui)) (GUI.images (Viewer.self win)))
    as Hnew.
  { apply (lookup_in_drop _ _ (Z.to_nat (Viewer.current_index win)));
      [lia|done]. }
  destruct (decide (found = [])) as [->|Hne].
  { exfalso. unfold GUI.run_scan in Hself. rewrite Hrc in Hself.
    cbn [length Nat.eqb fst] in Hself. rewrite Hself in Hnew.
    cbn [GUI.set_urls GUI.images] in Hnew.
    rewrite drop_all in Hnew. by apply elem_of_nil in Hnew. }
  destruct (gui_run_scan_found w gui found ev Hrc Hne) as (H1 & _ & _).
  cbn zeta in H1. rewrite (f_equal fst H1) in Hself. cbn [fst] in Hself.
  unfold gui_scan_loop in Hself.
  set (yielded := Pool.as_completed _) in *.
  set (st0 := {| GUI.self := GUI.set_urls found gui |}) in *.
  destruct (gui_loop_mapped (GUI.stopped w) (length found)
              (length (GUI.images gui)) yielded 0 st0 (λ _, False))
    with (p := path) as (o & Ho & Hbase & Hmap).
  - done.
  - cbn [st0 GUI.self GUI.set_urls GUI.images]. rewrite drop_all.
    intros p Hp. by apply elem_of_nil in Hp.
  - by rewrite Hself in Hnew.
  - destruct Ho as [[]|[Ho Hok]].
    destruct (reachable_outcomes _ _ _ _ o Hreach Ho) as (u & a & Hu & ->).
    destruct (gui_capture_ok _ _ _ _ Hok) as (stem & Hstem & Hres & _).
    rewrite gui_capture_url in Hmap.
    rewrite Hres, basename_path_join in Hbase
      by (by apply (stem_no_slash u)).
    exists u, stem. split_and!; [done..|].
    rewrite Hbase. apply show_mapped; [lia|done..|].
    by rewrite Hself.
Qed.

(** X9.  What the viewer shows after a scan of the CLI.  Let the CLI have
    written its mapping file, and let the mapping of the window be the one
    the GUI loads from the disk the scan has left.  Then for every image
    the scan has recorded, once it is in the list of the viewer and can be
    loaded, the display names the file and a URL that the scan found and
    whose sanitised host is the stem of the file name. *)
Theorem cli_capture_shown_in_the_viewer
    (w : CLI.World) (cli : CLI.Self) (found : list string) (gui : GUI.Self)
    (win : Viewer.Window) (loadable : string → bool) (path : string) :
  (CLI.read_content (CLI.disk w) cli).1 = found →
  Pool.reachable (Z.to_nat (CLI.threads cli))
    (λ _, CLI.capture_screenshot (CLI.browser w) (CLI.set_urls found cli))
    found (CLI.scheduler w (Z.to_nat (CLI.threads cli)) found) →
  mapping_writable (CLI.disk w) = true →
  path ∈ drop (length (CLI.images cli)) (CLI.images (CLI.run_scan w cli).1.1) →
  GUI.url_mapping (Viewer.self win)
  = GUI.url_mapping (GUI.load_url_mapping (CLI.run_scan w cli).1.2 gui).1 →
  (0 ≤ Viewer.current_index win)%Z →
  GUI.images (Viewer.self win) !! Z.to_nat (Viewer.current_index win)
  = Some path →
  loadable path = true →
  ∃ u stem,
    u ∈ found ∧ file_stem u = Some stem
    ∧ Py.basename path = stem +:+ ".jpg"
    ∧ Viewer.show_current_image loadable win
      = Viewer.Shown (stem +:+ ".jpg") u.
Proof.
  intros Hread Hreach Hw Hnew Hself Hidx Hpath Hload.
  destruct (CLI.read_content (CLI.disk w) cli) as [found' ev] eqn:Hrc.
  cbn [fst] in Hread. subst found'.
  destruct (decide (found = [])) as [->|Hne].
  { exfalso. unfold CLI.run_scan in Hnew. rewrite Hrc in Hnew.
    cbn [length Nat.eqb fst CLI.set_urls CLI.images] in Hnew.
    rewrite drop_all in Hnew. by apply elem_of_nil in Hnew. }
  destruct (cli_run_scan_found w cli found ev Hrc Hne) as (H1 & _ & _).
  cbn zeta in H1.
  rewrite (f_equal fst H1) in Hnew. rewrite (f_equal snd H1) in Hself.
  cbn [fst snd] in Hnew, Hself.
  unfold GUI.load_url_mapping in Hself.
  rewrite cli_saved_mapping_json in Hself by done.
  cbn [fst GUI.set_url_mapping GUI.url_mapping] in Hself.
  unfold cli_scan_loop in Hnew, Hself.
  destruct (CLI.threads cli <=? 0)%Z.
  { exfalso. cbn [CLI.self CLI.set_urls CLI.images] in Hnew.
    rewrite drop_all in Hnew. by apply elem_of_nil in Hnew. }
  set (yielded := Pool.as_completed _) in *.
  set (st0 := {| CLI.self := CLI.set_urls found cli |}) in *.
  destruct (cli_loop_mapped (length (CLI.images cli)) yielded 0 st0 (λ _, False))
    with (p := path) as (o & Ho & Hbase & Hmap).
  - done.
  - cbn [st0 CLI.self CLI.set_urls CLI.images]. rewrite drop_all.
    intros p Hp. by apply elem_of_nil in Hp.
  - done.
  - destruct Ho as [[]|[Ho Hok]].
    destruct (reachable_outcomes _ _ _ _ o Hreach Ho) as (u & a & Hu & ->).
    destruct (cli_capture_ok _ _ _ Hok) as (stem & Hstem & Hres & _).
    rewrite cli_capture_url in Hmap.
    rewrite Hres, basename_path_join in Hbase
      by (by apply (stem_no_slash u)).
    exists u, stem. split_and!; [done..|].
    rewrite Hbase. apply show_mapped; [lia|done..|].
    by rewrite Hself.
Qed.

Lemma scanned_image_shown_with_its_url_witness :
  (GUI.read_content (GUI.disk slow_gui_world) sample_gui).1 = [slow_url]
  ∧ GUI.images (Viewer.self slow_gui_window)
      !! Z.to_nat (Viewer.current_index slow_gui_window)
    = Some "screenshots/slow.example.png"
  ∧ ∃ u stem,
      u ∈ [slow_url] ∧ file_stem u = Some stem
      ∧ Py.basename "screenshots/slow.example.png" = stem +:+ ".png"
      ∧ Viewer.show_current_image (λ _, true) slow_gui_window
        = Viewer.Shown (stem +:+ ".png") u.
Proof.
  split; [reflexivity|]. split; [vm_compute; reflexivity|].
  apply (scanned_image_shown_with_its_url slow_gui_world sample_gui [slow_url]
           slow_gui_window (λ _, true) "screenshots/slow.example.png").
  - reflexivity.
  - exact (slow_run_reachable 4 _ ltac:(lia)).
  - reflexivity.
  - simpl. lia.
  - vm_compute. reflexivity.
  - reflexivity.
Defined.

Lemma cli_capture_shown_in_the_viewer_witness :
  (CLI.read_content (CLI.disk slow_cli_world) sample_cli).1 = [slow_url]
  ∧ mapping_writable (CLI.disk slow_cli_world) = true
  ∧ ∃ u stem,
      u ∈ [slow_url] ∧ file_stem u = Some stem
      ∧ Py.basename "screenshots/slow.example.jpg" = stem +:+ ".jpg"
      ∧ Viewer.show_current_image (λ _, true) slow_cli_window
        = Viewer.Shown (stem +:+ ".jpg") u.
Proof.
  split; [reflexivity|]. split; [reflexivity|].
  apply (cli_capture_shown_in_the_viewer slow_cli_world sample_cli [slow_url]
           sample_gui slow_cli_window (λ _, true)
           "screenshots/slow.example.jpg").
  - reflexivity.
  - exact (slow_run_reachable 4 _ ltac:(lia)).
  - reflexivity.
  - vm_compute. apply list_elem_of_here.
  - reflexivity.
  - vm_compute. discriminate.
  - vm_compute. reflexivity.
  - reflexivity.
Defined.

(** ** The viewer *)

Lemma length_del_at {A} (l : list A) i :
  i < length l → length (Viewer.del_at i l) = length l - 1.
Proof.
  intros Hi. unfold Viewer.del_at. rewrite length_app, length_take, length_drop. lia.
Qed.

Lemma lookup_del_at {A} (l : list A) i j :
  i < length l →
  Viewer.del_at i l !! j = if decide (j < i) then l !! j else l !! S j.
Proof.
  intros Hi. unfold Viewer.del_at. case_decide as Hj.
  - rewrite lookup_app_l by (rewrite length_take; lia).
    by rewrite lookup_take_lt.
  - rewrite lookup_app_r by (rewrite length_take; lia).
    rewrite length_take, lookup_drop. f_equal. lia.
Qed.

(** What [delete_current_image] does once the user has confirmed and the
    file could be removed. *)
Lemma delete_current_image_removed d w path :
  index_in_range w →
  GUI.images (Viewer.self w) !! Z.to_nat (Viewer.current_index w) = Some path →
  let i := Z.to_nat (Viewer.current_index w) in
  let images := Viewer.del_at i (GUI.images (Viewer.self w)) in
  let n := Z.of_nat (length images) in
  let mapping := delete (Py.basename path) (GUI.url_mapping (Viewer.self w)) in
  let r := Viewer.delete_current_image true true d w in
  r.2 = Viewer.Removed (Py.basename path)
  ∧ GUI.images (Viewer.self r.1.1) = images
  ∧ GUI.url_mapping (Viewer.self r.1.1) = mapping
  ∧ Viewer.current_index r.1.1
    = (if (n <=? Viewer.current_index w)%Z then Z.max 0 (n - 1)
       else Viewer.current_index w)
  ∧ Viewer.thumbnails r.1.1 = Viewer.del_at i (Viewer.thumbnails w)
  ∧ r.1.2 = match GUI.url_mapping (Viewer.self w) !! Py.basename path with
            | Some _ =>
                (GUI.save_url_mapping
                   (GUI.set_url_mapping mapping (Viewer.self w)) d).1
            | None => d
            end.
Proof.
  intros [H0 Hn] Hpath. cbn zeta. unfold Viewer.delete_current_image.
  assert ((0 <=? Viewer.current_index w)%Z = true) as -> by (by apply Z.leb_le).
  assert ((Viewer.current_index w <? Viewer.number_of_images w)%Z = true)
    as -> by (by apply Z.ltb_lt).
  cbn [andb negb]. rewrite Hpath.
  destruct (GUI.url_mapping (Viewer.self w) !! Py.basename path) eqn:Hm;
    cbn [fst snd Viewer.self Viewer.current_index Viewer.thumbnails
         GUI.set_images GUI.set_url_mapping GUI.images GUI.url_mapping].
  - done.
  - split_and!; try done. symmetry. by apply delete_id.
Qed.

(** The index is on an image after a deletion, however it ends. *)
Lemma viewer_index_settled_after_delete w d :
  index_settled w →
  ∀ confirmed removable,
    index_settled (Viewer.delete_current_image confirmed removable d w).1.1.
Proof.
  intros Hw confirmed removable.
  destruct (decide (index_in_range w)) as [Hr|Hr].
  - pose proof Hr as [H0 Hn]. unfold Viewer.number_of_images in Hn.
    destruct (GUI.images (Viewer.self w) !! Z.to_nat (Viewer.current_index w))
      as [path|] eqn:Hpath;
      [|apply lookup_ge_None in Hpath; lia].
    destruct confirmed, removable.
    + destruct (delete_current_image_removed d w path Hr Hpath)
        as (_ & Hi & _ & Hc & _).
      cbn zeta in Hi, Hc.
      assert (length (Viewer.del_at (Z.to_nat (Viewer.current_index w))
                        (GUI.images (Viewer.self w)))
              = length (GUI.images (Viewer.self w)) - 1) as Hlen
        by (apply length_del_at; lia).
      unfold index_settled, index_in_range, Viewer.number_of_images.
      rewrite Hi, Hc.
      destruct (decide (length (GUI.images (Viewer.self w)) = 1)) as [H1|H1].
      { left. apply nil_length_inv. rewrite Hlen. lia. }
      right. rewrite Hlen.
      destruct (Z.leb_spec
                  (Z.of_nat (length (GUI.images (Viewer.self w)) - 1))
                  (Viewer.current_index w)); lia.
    + unfold Viewer.delete_current_image.
      rewrite Hpath. by destruct (negb _).
    + unfold Viewer.delete_current_image.
      rewrite Hpath. by destruct (negb _).
    + unfold Viewer.delete_current_image.
      rewrite Hpath. by destruct (negb _).
  - unfold Viewer.delete_current_image.
    assert (((0 <=? Viewer.current_index w)
             && (Viewer.current_index w <? Viewer.number_of_images w))%Z
            = false) as ->; [|done].
    apply andb_false_iff. unfold index_in_range in Hr.
    rewrite Z.leb_gt, Z.ltb_ge. lia.
Qed.

(** X10.  The index of the viewer stays on an image.  If the image list
    is empty or the index is that of one of its images, the same holds
    after the previous and next actions, after a deletion however it
    ends, and after the scan has appended an image and the window has
    taken its signal; it holds after every reload of the captures; and
    under it the viewer says that no image is selected exactly when the
    list is empty. *)
Theorem viewer_index_stays_settled (w : Viewer.Window) :
  index_settled w →
  index_settled (Viewer.prev_image w)
  ∧ index_settled (Viewer.next_image w)
  ∧ (∀ confirmed removable d,
       index_settled (Viewer.delete_current_image confirmed removable d w).1.1)
  ∧ (∀ p, index_settled
            (Viewer.add_new_image_to_list p
               (Viewer.with_images (GUI.images (Viewer.self w) ++ [p]) w)))
  ∧ (∀ listing w0, index_settled (Viewer.load_captures listing w0))
  ∧ (∀ loadable,
       Viewer.show_current_image loadable w = Viewer.NoSelection
       ↔ GUI.images (Viewer.self w) = []).
Proof.
  intros Hw. split_and!.
  - unfold Viewer.prev_image. destruct (Z.ltb_spec 0 (Viewer.current_index w));
      [|done].
    destruct Hw as [Hw|[H0 Hn]]; [by left|right].
    unfold index_in_range, Viewer.number_of_images in *.
    cbn [Viewer.with_index Viewer.current_index Viewer.self]. lia.
  - unfold Viewer.next_image.
    destruct (Z.ltb_spec (Viewer.current_index w) (Viewer.number_of_images w - 1));
      [|done].
    destruct Hw as [Hw|[H0 Hn]]; [by left|right].
    unfold index_in_range, Viewer.number_of_images in *.
    cbn [Viewer.with_index Viewer.current_index Viewer.self]. lia.
  - intros confirmed removable d.
    by apply viewer_index_settled_after_delete.
  - intros p. unfold index_settled, index_in_range, Viewer.number_of_images.
    cbn [Viewer.add_new_image_to_list Viewer.with_images Viewer.self
         Viewer.current_index GUI.set_images GUI.images].
    right. rewrite length_app. cbn [length].
    destruct Hw as [->|[H0 Hn]]; [simpl; lia|].
    unfold Viewer.number_of_images in Hn.
    destruct (Nat.eqb_spec (length (GUI.images (Viewer.self w)) + 1) 1); lia.
  - intros listing w0.
    unfold index_settled, index_in_range, Viewer.number_of_images,
      Viewer.load_captures.
    cbn [Viewer.self Viewer.current_index GUI.set_images GUI.images].
    destruct listing as [files|]; [|by left].
    destruct (PyStr.sorted _) as [|x l]; [by left|right].
    cbn [length]. lia.
  - intros loadable. unfold Viewer.show_current_image.
    destruct Hw as [Hw|[H0 Hn]].
    + rewrite Hw. split; [done|intros _]. rewrite lookup_nil.
      by destruct (_ && _).
    + assert ((0 <=? Viewer.current_index w)%Z = true) as ->
        by (by apply Z.leb_le).
      assert ((Viewer.current_index w <? Viewer.number_of_images w)%Z = true)
        as -> by (by apply Z.ltb_lt).
      cbn [andb]. unfold Viewer.number_of_images in Hn.
      destruct (GUI.images (Viewer.self w) !! Z.to_nat (Viewer.current_index w))
        as [path|] eqn:Hpath;
        [|apply lookup_ge_None in Hpath; lia].
      split.
      * by destruct (loadable path).
      * intros Himg. by rewrite Himg in Hpath.
Qed.

Lemma viewer_index_stays_settled_witness :
  index_settled two_image_window
  ∧ index_settled (Viewer.next_image two_image_window).
Proof.
  assert (index_settled two_image_window) as Hw.
  { right. unfold index_in_range. vm_compute. by split. }
  split; [exact Hw|].
  apply (viewer_index_stays_settled two_image_window Hw).
Defined.

Lemma with_index_same w : Viewer.with_index (Viewer.current_index w) w = w.
Proof. by destruct w. Qed.

(** X11.  The navigation buttons and the actions agree.  With the index
    on an image of the list, the previous button is enabled exactly when
    the previous action moves the index, the next button exactly when the
    next action does, and the delete button is enabled; the previous
    button is off on the first image only, the next button on the last
    only; and a move that a button offers is undone by the opposite
    action. *)
Theorem navigation_buttons_match_moves (w : Viewer.Window) :
  index_in_range w →
  ((Viewer.update_navigation w).1.1 = true ↔ Viewer.prev_image w ≠ w)
  ∧ ((Viewer.update_navigation w).1.2 = true ↔ Viewer.next_image w ≠ w)
  ∧ (Viewer.update_navigation w).2 = true
  ∧ ((Viewer.update_navigation w).1.1 = false ↔ Viewer.current_index w = 0%Z)
  ∧ ((Viewer.update_navigation w).1.2 = false
     ↔ Viewer.current_index w = (Viewer.number_of_images w - 1)%Z)
  ∧ ((Viewer.update_navigation w).1.2 = true →
     Viewer.prev_image (Viewer.next_image w) = w)
  ∧ ((Viewer.update_navigation w).1.1 = true →
     Viewer.next_image (Viewer.prev_image w) = w).
Proof.
  intros [H0 Hn].
  assert ((Viewer.update_navigation w).1.1 = (0 <? Viewer.current_index w)%Z
          ∧ (Viewer.update_navigation w).1.2
            = (Viewer.current_index w <? Viewer.number_of_images w - 1)%Z
          ∧ (Viewer.update_navigation w).2 = true) as (-> & -> & ->).
  { unfold Viewer.update_navigation. cbn [fst snd].
    assert ((0 <? Viewer.number_of_images w)%Z = true) as ->
      by (apply Z.ltb_lt; lia).
    done. }
  assert (∀ i, i ≠ Viewer.current_index w → Viewer.with_index i w ≠ w)
    as Hmoved.
  { intros i Hi Heq. apply (f_equal Viewer.current_index) in Heq. done. }
  assert (∀ i j, Viewer.with_index i (Viewer.with_index j w)
                 = Viewer.with_index i w) as Htwice by done.
  split_and!.
  - unfold Viewer.prev_image.
    destruct (Z.ltb_spec 0 (Viewer.current_index w)).
    + split; [intros _|done]. apply Hmoved. lia.
    + split; [done|by intros []].
  - unfold Viewer.next_image.
    destruct (Z.ltb_spec (Viewer.current_index w)
                (Viewer.number_of_images w - 1)).
    + split; [intros _|done]. apply Hmoved. lia.
    + split; [done|by intros []].
  - done.
  - rewrite Z.ltb_ge. lia.
  - rewrite Z.ltb_ge. lia.
  - intros Hon. unfold Viewer.next_image. rewrite Hon.
    unfold Viewer.prev_image. cbn [Viewer.with_index Viewer.current_index].
    assert ((0 <? Viewer.current_index w + 1)%Z = true) as ->
      by (apply Z.ltb_lt; lia).
    rewrite Htwice.
    replace (Viewer.current_index w + 1 - 1)%Z with (Viewer.current_index w)
      by lia.
    apply with_index_same.
  - intros Hon. unfold Viewer.prev_image. rewrite Hon.
    unfold Viewer.next_image, Viewer.number_of_images.
    cbn [Viewer.with_index Viewer.current_index Viewer.self].
    assert ((Viewer.current_index w - 1
             <? Z.of_nat (length (GUI.images (Viewer.self w))) - 1)%Z = true)
      as -> by (apply Z.ltb_lt; unfold Viewer.number_of_images in Hn; lia).
    fold (Viewer.with_index (Viewer.current_index w - 1 + 1)
            (Viewer.with_index (Viewer.current_index w - 1) w)).
    rewrite Htwice.
    replace (Viewer.current_index w - 1 + 1)%Z with (Viewer.current_index w)
      by lia.
    apply with_index_same.
Qed.

Lemma navigation_buttons_match_moves_witness :
  index_in_range two_image_window
  ∧ (Viewer.update_navigation two_image_window).2 = true.
Proof.
  assert (index_in_range two_image_window) as Hw.
  { unfold index_in_range. vm_compute. by split. }
  split; [exact Hw|].
  apply (navigation_buttons_match_moves two_image_window Hw).
Defined.

(** X12.  Deleting the image on display.  Once the user has confirmed
    and the file could be removed, the image and its thumbnail leave their
    lists and the other images keep their order; the display moves to the
    image that followed, or to the one before when the last image was
    deleted; the mapping loses the entry of the file name and no other,
    and when it had one the mapping file is rewritten with what is left.
    A deletion that the user declines, or whose file cannot be removed,
    changes neither the window nor the disk. *)
Theorem deletion_moves_to_the_neighbour
    (d : Disk) (w : Viewer.Window) (path : string) :
  index_in_range w →
  GUI.images (Viewer.self w) !! Z.to_nat (Viewer.current_index w) = Some path →
  let i := Z.to_nat (Viewer.current_index w) in
  let images := GUI.images (Viewer.self w) in
  let r := Viewer.delete_current_image true true d w in
  r.2 = Viewer.Removed (Py.basename path)
  ∧ length (GUI.images (Viewer.self r.1.1)) = length images - 1
  ∧ (∀ j, GUI.images (Viewer.self r.1.1) !! j
          = if decide (j < i) then images !! j else images !! S j)
  ∧ GUI.images (Viewer.self r.1.1) !! Z.to_nat (Viewer.current_index r.1.1)
    = match images !! S i with
      | Some next => Some next
      | None => if decide (i = 0) then None else images !! (i - 1)
      end
  ∧ index_settled r.1.1
  ∧ GUI.url_mapping (Viewer.self r.1.1) !! Py.basename path = None
  ∧ (∀ k, k ≠ Py.basename path →
       GUI.url_mapping (Viewer.self r.1.1) !! k
       = GUI.url_mapping (Viewer.self w) !! k)
  ∧ (is_Some (GUI.url_mapping (Viewer.self w) !! Py.basename path) →
     mapping_writable d = true →
     persisted_mapping r.1.2 = GUI.url_mapping (Viewer.self r.1.1))
  ∧ (GUI.url_mapping (Viewer.self w) !! Py.basename path = None → r.1.2 = d)
  ∧ (∀ removable,
       Viewer.delete_current_image false removable d w
       = (w, d, Viewer.Declined))
  ∧ Viewer.delete_current_image true false d w = (w, d, Viewer.RemoveFailed).
Proof.
  intros Hr Hpath. cbn zeta.
  destruct (delete_current_image_removed d w path Hr Hpath)
    as (H1 & H2 & H3 & H4 & _ & H6).
  cbn zeta in H1, H2, H3, H4, H6.
  pose proof Hr as [H0 Hn]. unfold Viewer.number_of_images in Hn.
  pose proof (lookup_lt_Some _ _ _ Hpath) as Hlt.
  set (i := Z.to_nat (Viewer.current_index w)) in *.
  set (images := GUI.images (Viewer.self w)) in *.
  assert (length (Viewer.del_at i images) = length images - 1) as Hlen
    by (by apply length_del_at).
  split_and!.
  - done.
  - by rewrite H2.
  - intros j. rewrite H2. by apply lookup_del_at.
  - rewrite H2, H4, Hlen, lookup_del_at by done.
    destruct (Z.leb_spec (Z.of_nat (length images - 1)) (Viewer.current_index w))
      as [Hlast|Hmid].
    + assert (S i = length images) as Hi by lia.
      rewrite (lookup_ge_None_2 images (S i)) by lia.
      destruct (decide (i = 0)) as [Hz|Hz].
      * rewrite decide_False by lia.
        apply lookup_ge_None_2. lia.
      * rewrite decide_True by lia. f_equal. lia.
    + rewrite decide_False by (fold i; lia). fold i.
      destruct (images !! S i) eqn:Hnext; [done|].
      apply lookup_ge_None in Hnext. lia.
  - apply (viewer_index_settled_after_delete w d). by right.
  - by rewrite H3, lookup_delete_eq.
  - intros k Hk. by rewrite H3, lookup_delete_ne.
  - intros [u Hu] Hw. rewrite H6, H3, Hu.
    unfold GUI.save_url_mapping, persisted_mapping. by rewrite Hw.
  - intros Hnone. by rewrite H6, Hnone.
  - intros removable. unfold Viewer.delete_current_image.
    assert ((0 <=? Viewer.current_index w)%Z = true) as ->
      by (by apply Z.leb_le).
    assert ((Viewer.current_index w <? Viewer.number_of_images w)%Z = true)
      as -> by (by apply Z.ltb_lt).
    cbn [andb negb]. fold images i. by rewrite Hpath.
  - unfold Viewer.delete_current_image.
    assert ((0 <=? Viewer.current_index w)%Z = true) as ->
      by (by apply Z.leb_le).
    assert ((Viewer.current_index w <? Viewer.number_of_images w)%Z = true)
      as -> by (by apply Z.ltb_lt).
    cbn [andb negb]. fold images i. by rewrite Hpath.
Qed.

Lemma deletion_moves_to_the_neighbour_witness :
  index_in_range two_image_window
  ∧ GUI.images (Viewer.self two_image_window)
      !! Z.to_nat (Viewer.current_index two_image_window)
    = Some "screenshots/a.com.png"
  ∧ (Viewer.delete_current_image true true (fresh_disk EmptyString)
       two_image_window).2
    = Viewer.Removed (Py.basename "screenshots/a.com.png").
Proof.
  assert (index_in_range two_image_window) as Hw.
  { unfold index_in_range. vm_compute. by split. }
  split; [exact Hw|]. split; [reflexivity|].
  apply (deletion_moves_to_the_neighbour (fresh_disk EmptyString)
           two_image_window "screenshots/a.com.png" Hw eq_refl).
Defined.

(** ** Searching and listing *)

Lemma strip_prefix_spec pre : ∀ s r,
  Py.strip_prefix pre s = Some r ↔ s = pre +:+ r.
Proof.
  induction pre as [|a pre IH]; intros s r.
  - change (EmptyString +:+ r) with r.
    destruct s; cbn [Py.strip_prefix]; (split; [by intros [= ->]|by intros ->]).
  - destruct s as [|c s]; cbn [Py.strip_prefix]; [done|].
    rewrite app_cons.
    destruct (Ascii.eqb_spec a c) as [->|Hne].
    + rewrite IH. split; [by intros ->|by intros [= ->]].
    + split; [done|]. by intros [= -> _].
Qed.

Lemma startswith_spec pre s :
  PyStr.startswith pre s = true ↔ ∃ r, s = pre +:+ r.
Proof.
  unfold PyStr.startswith.
  destruct (Py.strip_prefix pre s) as [r|] eqn:Hr.
  - apply strip_prefix_spec in Hr. split; eauto.
  - split; [done|]. intros [r Hs]. apply strip_prefix_spec in Hs. congruence.
Qed.

Lemma contains_spec sub : ∀ s,
  PyStr.contains sub s = true ↔ ∃ a b, s = a +:+ sub +:+ b.
Proof.
  induction s as [|c s IH].
  - cbn [PyStr.contains]. rewrite orb_false_r, startswith_spec. split.
    + intros [r Hr]. by exists EmptyString, r.
    + intros ([|x a] & b & Hab); [by exists b|done].
  - cbn [PyStr.contains]. rewrite orb_true_iff, startswith_spec, IH. split.
    + intros [[r Hr]|(a & b & Hab)].
      * by exists EmptyString, r.
      * exists (String c a), b. by rewrite Hab.
    + intros ([|x a] & b & Hab).
      * left. by exists b.
      * right. rewrite app_cons in Hab. injection Hab as -> ->. eauto.
Qed.

Lemma endswith_spec suf : ∀ s,
  PyStr.endswith suf s = true ↔ ∃ a, s = a +:+ suf.
Proof.
  induction s as [|c s IH].
  - cbn [PyStr.endswith]. rewrite orb_false_r, String.eqb_eq. split.
    + intros <-. by exists EmptyString.
    + intros ([|x a] & Ha); [done|by rewrite app_cons in Ha].
  - cbn [PyStr.endswith]. rewrite orb_true_iff, String.eqb_eq, IH. split.
    + intros [<-|[a ->]]; [by exists EmptyString|by exists (String c a)].
    + intros ([|x a] & Ha); [by left|right].
      rewrite app_cons in Ha. injection Ha as -> ->. eauto.
Qed.

Lemma pystr_lower_app a b : PyStr.lower (a +:+ b) = PyStr.lower a +:+ PyStr.lower b.
Proof.
  induction a as [|c a IH]; [done|].
  rewrite !app_cons. cbn [PyStr.lower]. by rewrite app_cons, IH.
Qed.

Lemma pystr_lower_char_idem c :
  PyStr.lower_char (PyStr.lower_char c) = PyStr.lower_char c.
Proof. by_cases_on_char c. Qed.

Lemma pystr_lower_idem s : PyStr.lower (PyStr.lower s) = PyStr.lower s.
Proof.
  induction s as [|c s IH]; [done|].
  cbn [PyStr.lower]. by rewrite pystr_lower_char_idem, IH.
Qed.

Lemma pystr_lower_nonempty s : Py.nonempty (PyStr.lower s) = Py.nonempty s.
Proof. by destruct s. Qed.

(** Whether [filter_thumbnails] hides the row of a file. *)
Lemma filter_thumbnails_lookup text w i :
  Viewer.filter_thumbnails text w !! i
  = (λ p, if Py.nonempty text
          then negb (PyStr.contains (PyStr.lower text)
                       (PyStr.lower (Py.basename p)))
          else false) <$> Viewer.thumbnails w !! i.
Proof. unfold Viewer.filter_thumbnails. by rewrite list_lookup_fmap. Qed.

Lemma contains_trans a b c :
  PyStr.contains a b = true → PyStr.contains b c = true →
  PyStr.contains a c = true.
Proof.
  rewrite !contains_spec. intros (x & y & ->) (x' & y' & ->).
  exists (x' +:+ x), (y +:+ y'). by rewrite !str_app_assoc.
Qed.

Lemma contains_refl s : PyStr.contains s s = true.
Proof.
  apply contains_spec. exists EmptyString, EmptyString.
  change (EmptyString +:+ ?t) with t.
  induction s as [|c s IH]; [done|]. by rewrite app_cons, <-IH.
Qed.

Lemma contains_empty sub : PyStr.contains sub EmptyString = true → sub = EmptyString.
Proof.
  rewrite contains_spec. intros ([|x a] & b & Hab); [|done].
  by destruct sub.
Qed.

(** X13.  The search box of the thumbnail list.  An empty text hides no
    row.  The rows a text hides depend on its lower case only: two texts
    with the same lower case hide the same rows, and so do a text and its
    lower case.  A row that is visible for a text is visible for every
    text whose lower case is a part of the lower case of the first; and a
    row is visible when the text is its own file name, in any case. *)
Theorem search_follows_the_lowered_text
    (w : Viewer.Window) (text other part : string) :
  Forall (λ hidden, hidden = false) (Viewer.filter_thumbnails EmptyString w)
  ∧ (PyStr.lower text = PyStr.lower other →
     Viewer.filter_thumbnails text w = Viewer.filter_thumbnails other w)
  ∧ Viewer.filter_thumbnails (PyStr.lower text) w
    = Viewer.filter_thumbnails text w
  ∧ (PyStr.contains (PyStr.lower part) (PyStr.lower text) = true →
     ∀ i, Viewer.filter_thumbnails text w !! i = Some false →
          Viewer.filter_thumbnails part w !! i = Some false)
  ∧ (∀ i p name, Viewer.thumbnails w !! i = Some p →
       PyStr.lower name = PyStr.lower (Py.basename p) →
       Viewer.filter_thumbnails name w !! i = Some false).
Proof.
  split_and!.
  - unfold Viewer.filter_thumbnails. cbn [Py.nonempty].
    apply Forall_fmap. by apply Forall_true.
  - intros Hsame. unfold Viewer.filter_thumbnails.
    by rewrite <-(pystr_lower_nonempty text), <-(pystr_lower_nonempty other),
      Hsame.
  - unfold Viewer.filter_thumbnails.
    by rewrite pystr_lower_nonempty, pystr_lower_idem.
  - intros Hpart i. rewrite !filter_thumbnails_lookup.
    destruct (Viewer.thumbnails w !! i) as [p|]; [|done].
    cbn [fmap option_fmap option_map].
    destruct (Py.nonempty part) eqn:Hp; [|done].
    destruct (Py.nonempty text) eqn:Htext.
    + intros [= Hvis]. f_equal. apply negb_false_iff in Hvis.
      apply negb_false_iff. by eapply contains_trans.
    + destruct text; [|done]. apply contains_empty in Hpart.
      rewrite <-pystr_lower_nonempty, Hpart in Hp. done.
  - intros i p name Hp Hname. rewrite filter_thumbnails_lookup, Hp.
    cbn [fmap option_fmap option_map]. f_equal.
    destruct (Py.nonempty name); [|done].
    apply negb_false_iff. rewrite Hname. apply contains_refl.
Qed.

Lemma image_names_with_suffix stem :
  (Tools.is_image_name (stem +:+ ".png") = true
   ∧ Viewer.is_image_name (stem +:+ ".png") = true)
  ∧ (Tools.is_image_name (stem +:+ ".jpg") = true
     ∧ Viewer.is_image_name (stem +:+ ".jpg") = true).
Proof.
  assert (∀ suf, PyStr.endswith suf (PyStr.lower stem +:+ suf) = true) as Hend.
  { intros suf. apply endswith_spec. eauto. }
  unfold Tools.is_image_name, Viewer.is_image_name.
  rewrite !pystr_lower_app.
  change (PyStr.lower ".png") with ".png".
  change (PyStr.lower ".jpg") with ".jpg".
  cbn [existsb]. by rewrite !Hend, ?orb_true_r.
Qed.

Lemma tools_image_name_viewer f :
  Tools.is_image_name f = true → Viewer.is_image_name f = true.
Proof.
  unfold Tools.is_image_name, Viewer.is_image_name. cbn [existsb].
  rewrite !orb_false_r, !orb_true_iff. tauto.
Qed.

(** X14.  Reloading the captures.  The list that [load_captures] builds
    from a directory listing holds exactly the image files of the listing,
    joined to the output directory, in the order of the code points, and
    the thumbnails are the same list.  A file written by a successful
    capture of either entry point is taken for an image by the viewer and
    by the listing and export commands of the CLI (which take no file the
    viewer would not take); so after a scan of the GUI a reload lists the
    path of every capture whose file is in the directory. *)
Theorem reload_lists_the_captures
    (files : list string) (w : Viewer.Window) (b : Browser)
    (cli : CLI.Self) (gui : GUI.Self) (u : string) :
  (let w' := Viewer.load_captures (Some files) w in
   GUI.images (Viewer.self w')
   ≡ₚ Py.path_join (GUI.output_dir (Viewer.self w))
        <$> List.filter Viewer.is_image_name files
   ∧ Sorted String.le (GUI.images (Viewer.self w'))
   ∧ Viewer.thumbnails w' = GUI.images (Viewer.self w')
   ∧ GUI.url_mapping (Viewer.self w') = GUI.url_mapping (Viewer.self w))
  ∧ (ok (CLI.capture_screenshot b cli u) = true →
     let name := Py.basename (result (CLI.capture_screenshot b cli u)) in
     Tools.is_image_name name = true ∧ Viewer.is_image_name name = true)
  ∧ (ok (GUI.capture b gui true u) = true →
     let name := Py.basename (result (GUI.capture b gui true u)) in
     Tools.is_image_name name = true ∧ Viewer.is_image_name name = true)
  ∧ (∀ f, Tools.is_image_name f = true → Viewer.is_image_name f = true)
  ∧ (ok (GUI.capture b gui true u) = true →
     GUI.output_dir (Viewer.self w) = GUI.output_dir gui →
     Py.basename (result (GUI.capture b gui true u)) ∈ files →
     result (GUI.capture b gui true u)
     ∈ GUI.images (Viewer.self (Viewer.load_captures (Some files) w))).
Proof.
  assert (GUI.images (Viewer.self (Viewer.load_captures (Some files) w))
          ≡ₚ Py.path_join (GUI.output_dir (Viewer.self w))
               <$> List.filter Viewer.is_image_name files) as Hperm.
  { unfold Viewer.load_captures, PyStr.sorted.
    cbn [Viewer.self GUI.set_images GUI.images].
    apply merge_sort_Permutation. }
  split_and!.
  - cbn zeta. split_and!; [done| |done..].
    unfold Viewer.load_captures, PyStr.sorted.
    cbn [Viewer.self GUI.set_images GUI.images].
    apply (Sorted_merge_sort String.le).
  - intros Hok. cbn zeta.
    destruct (cli_capture_ok _ _ _ Hok) as (stem & Hstem & -> & _).
    rewrite basename_path_join by (by apply (stem_no_slash u)).
    apply image_names_with_suffix.
  - intros Hok. cbn zeta.
    destruct (gui_capture_ok _ _ _ _ Hok) as (stem & Hstem & -> & _).
    rewrite basename_path_join by (by apply (stem_no_slash u)).
    apply image_names_with_suffix.
  - apply tools_image_name_viewer.
  - intros Hok Hdir.
    destruct (gui_capture_ok _ _ _ _ Hok) as (stem & Hstem & -> & _).
    rewrite basename_path_join by (by apply (stem_no_slash u)).
    intros Hin. rewrite Hperm, Hdir.
    apply list_elem_of_fmap. exists (stem +:+ ".png"). split; [done|].
    apply list_elem_of_In, filter_In. split; [by apply list_elem_of_In|].
    apply image_names_with_suffix.
Qed.

Lemma search_follows_the_lowered_text_witness :
  PyStr.contains (PyStr.lower ".CO") (PyStr.lower "a.COM") = true
  ∧ Viewer.filter_thumbnails ".CO" two_image_window !! 0 = Some false.
Proof.
  split; [reflexivity|].
  apply (proj1 (proj2 (proj2 (proj2
           (search_follows_the_lowered_text two_image_window
              "a.COM" EmptyString ".CO")))) eq_refl 0).
  reflexivity.
Defined.

Lemma reload_lists_the_captures_witness :
  "screenshots/a.com.png"
  ∈ GUI.images
      (Viewer.self
         (Viewer.load_captures (Some ["notes.txt"; "a.com.png"])
            two_image_window)).
Proof.
  apply (proj2 (proj2 (proj2 (proj2
           (reload_lists_the_captures ["notes.txt"; "a.com.png"]
              two_image_window obliging_browser sample_cli sample_gui
              "http://a.com"))))); [reflexivity|reflexivity|].
  vm_compute. apply list_elem_of_further, list_elem_of_here.
Defined.

(** ** The progress bar and the archive *)

Lemma length_substring_0 n : ∀ s,
  String.length (String.substring 0 n s) = Nat.min n (String.length s).
Proof.
  induction n as [|n IH]; intros [|c s]; cbn [String.substring String.length];
    try done.
  by rewrite IH.
Qed.

(** X15.  The line of the progress bar for a capture.  The loop of the
    CLI reports a finished capture with a message that starts with OK and
    names the file, or with ERR Failed: and the URL cut to 20 characters.
    The tag of the line is chosen by looking for OK anywhere in the
    message first: a success is tagged [OK], and so is a failure whose
    shortened URL contains OK; other failures are tagged [ERR].  The
    message is displayed whole up to 30 characters and cut to 30
    beyond. *)
Theorem failed_capture_can_be_tagged_ok
    (i : nat) (o : Outcome) (t0 t1 : nat) (st : CLI.Loop) :
  let message :=
    if ok o then "OK " +:+ Py.basename (result o)
    else "ERR Failed: " +:+ shorten 20 (url o) in
  CLI.log (CLI.loop_body i (Done o t0 t1) st)
  = CLI.log st ++ [BarUpdate (i + 1) message]
  ∧ Tools.status message
    = (if ok o then "[OK]"
       else if PyStr.contains "OK" (shorten 20 (url o)) then "[OK]"
       else "[ERR]")
  ∧ String.length (Tools.displayed message)
    = Nat.min (String.length message) 30
  ∧ (String.length message ≤ 30 → Tools.displayed message = message).
Proof.
  cbn zeta. split_and!.
  - unfold CLI.loop_body. rewrite done_result. by destruct (ok o).
  - unfold Tools.status. destruct (ok o); [done|].
    change (PyStr.contains "OK" ("ERR Failed: " +:+ shorten 20 (url o)))
      with (PyStr.contains "OK" (shorten 20 (url o))).
    by destruct (PyStr.contains "OK" (shorten 20 (url o))).
  - generalize (if ok o then "OK " +:+ Py.basename (result o)
                else "ERR Failed: " +:+ shorten 20 (url o)).
    intros m. unfold Tools.displayed.
    destruct (Nat.ltb_spec 30 (String.length m)); [|lia].
    rewrite str_length_app, length_substring_0. cbn [String.length]. lia.
  - generalize (if ok o then "OK " +:+ Py.basename (result o)
                else "ERR Failed: " +:+ shorten 20 (url o)).
    intros m Hlen. unfold Tools.displayed.
    destruct (Nat.ltb_spec 30 (String.length m)); [lia|done].
Qed.

Lemma failed_capture_can_be_tagged_ok_witness :
  Tools.status ("ERR Failed: " +:+ shorten 20 "http://BOOK.example") = "[OK]".
Proof.
  apply (proj1 (proj2
           (failed_capture_can_be_tagged_ok 0
              {| ok := false; url := "http://BOOK.example"; result := "timeout" |}
              0 1 cli_start))).
Defined.

(** The members [add_members] has written: the images up to the first
    that cannot be read, each under its base name. *)
Lemma add_members_prefix readable : ∀ images i,
  ∃ k, k ≤ length images
    ∧ (add_members_result readable i images).1
      = (λ p, (p, Py.basename p)) <$> take k images
    ∧ (if (add_members_result readable i images).2
       then k = length images
       else ∃ p, images !! k = Some p ∧ readable p = false).
Proof.
  unfold add_members_result.
  induction images as [|p images IH]; intros i.
  { exists 0. by cbn. }
  cbn [Tools.add_members].
  destruct (readable p) eqn:Hp.
  - destruct (IH (S i)) as (k & Hk & Hms & Hdone).
    destruct (Tools.add_members readable (S i) images) as [[ms ev] done].
    cbn [fst snd] in *. exists (S k). cbn [length take fmap list_fmap].
    split; [lia|]. split; [by rewrite Hms|].
    destruct done; [lia|done].
  - exists 0. cbn [fst snd take fmap list_fmap]. split; [lia|]. eauto.
Qed.

(** [export_to_zip] on an object that holds no image yet, as [main]
    calls it, in a directory whose listing is [files]. *)
Lemma export_to_zip_fresh files readable default_name filename self :
  CLI.images self = [] →
  let images :=
    Py.path_join (CLI.output_dir self) <$> List.filter Tools.is_image_name files in
  let name :=
    match filename with
    | None | Some EmptyString => default_name
    | Some n => n
    end in
  let added := Tools.add_members readable 0 images in
  Tools.export_to_zip (Some files) readable true default_name filename self
  = match images with
    | [] => (CLI.set_images [] self, None, [Print "[!] No images to export"])
    | _ =>
        (CLI.set_images images self,
         Some {| Tools.archive_name := name; Tools.members := added.1.1;
                 Tools.complete := added.2 |},
         [Print ("[->] Creating ZIP archive: " +:+ name)] ++ added.1.2 ++
         (if added.2
          then [BarFinish "[OK] ZIP export completed";
                Print ("[OK] ZIP export successful: " +:+ name)]
          else [BarFinish "[ERR] ZIP export failed";
                PrintError "[!] Error during ZIP export: "]))
    end.
Proof.
  intros Himg. cbn zeta. unfold Tools.export_to_zip. rewrite Himg.
  destruct (Py.path_join (CLI.output_dir self)
              <$> List.filter Tools.is_image_name files) as [|x l] eqn:Hl.
  - by cbn [CLI.set_images CLI.images].
  - cbn [CLI.set_images CLI.images].
    by destruct (Tools.add_members readable 0 (x :: l)) as [[ms ev] done].
Qed.

(** X16.  The archive of the export command.  Called on an object that
    holds no image yet, [export_to_zip] takes the image files of the
    output directory.  When there is none it says so and writes nothing.
    Otherwise the archive gets the name asked for, or the default one, and
    its members are the image files in the order of the listing, each
    under its own name, up to the first one that cannot be read; when
    every file can be read the archive is complete and the last line
    printed reports the success. *)
Theorem export_archives_the_directory
    (files : list string) (readable : string → bool)
    (default_name : string) (filename : option string) (self : CLI.Self) :
  CLI.images self = [] →
  Forall (λ f, Py.has_char "/" f = false) files →
  let names := List.filter Tools.is_image_name files in
  let dir := CLI.output_dir self in
  let name :=
    match filename with
    | None | Some EmptyString => default_name
    | Some n => n
    end in
  let r :=
    Tools.export_to_zip (Some files) readable true default_name filename self in
  CLI.images r.1.1 = Py.path_join dir <$> names
  ∧ (names = [] → r.1.2 = None ∧ r.2 = [Print "[!] No images to export"])
  ∧ (names ≠ [] →
     ∃ k, k ≤ length names
       ∧ r.1.2
         = Some {| Tools.archive_name := name;
                   Tools.members :=
                     (λ f, (Py.path_join dir f, f)) <$> take k names;
                   Tools.complete := bool_decide (k = length names) |}
       ∧ (k < length names →
          ∃ f, names !! k = Some f ∧ readable (Py.path_join dir f) = false)
       ∧ (k = length names →
          last r.2 = Some (Print ("[OK] ZIP export successful: " +:+ name)))).
Proof.
  intros Himg Hfiles. cbn zeta.
  rewrite (export_to_zip_fresh files readable default_name filename self Himg).
  cbn zeta.
  set (names := List.filter Tools.is_image_name files).
  assert (∀ f, f ∈ names → Py.has_char "/" f = false) as Hnames.
  { intros f Hf. apply list_elem_of_In, filter_In in Hf as [Hf _].
    rewrite Forall_forall in Hfiles. apply Hfiles. by apply list_elem_of_In. }
  set (images := Py.path_join (CLI.output_dir self) <$> names).
  destruct (decide (names = [])) as [Hnil|Hne].
  { unfold images. rewrite Hnil. cbn [fmap list_fmap]. by split_and!. }
  assert (∀ (B : Type) (a b : B),
            match images with [] => a | _ :: _ => b end = b) as Hcons.
  { intros B a b. unfold images. by destruct names. }
  rewrite Hcons. cbn [fst snd CLI.set_images CLI.images].
  split; [done|]. split; [done|]. intros _.
  destruct (add_members_prefix readable images 0) as (k & Hk & Hms & Hdone).
  unfold add_members_result in Hms, Hdone. cbn [fst snd] in Hms, Hdone.
  assert (length images = length names) as Hlen
    by (unfold images; by rewrite length_fmap).
  exists k. split; [lia|].
  assert ((Tools.add_members readable 0 images).2 = bool_decide (k = length names))
    as Hflag.
  { destruct (Tools.add_members readable 0 images).2.
    - by rewrite bool_decide_eq_true_2 by lia.
    - destruct Hdone as (p & Hp & _). apply lookup_lt_Some in Hp.
      by rewrite bool_decide_eq_false_2 by lia. }
  split_and!.
  - f_equal. f_equal; [|done]. rewrite Hms. unfold images.
    rewrite <-fmap_take, <-list_fmap_compose.
    apply list_fmap_ext. intros j f Hf. cbn.
    f_equal. apply basename_path_join, Hnames.
    apply lookup_take_Some in Hf as [Hf _]. by eapply list_elem_of_lookup_2.
  - intros Hlt. rewrite Hflag, bool_decide_eq_false_2 in Hdone by lia.
    destruct Hdone as (p & Hp & Hr). unfold images in Hp.
    rewrite list_lookup_fmap in Hp.
    destruct (names !! k) as [f|]; [|done]. injection Hp as <-. eauto.
  - intros Hall. rewrite Hflag, bool_decide_eq_true_2 by done.
    match goal with
    | |- last (?a ++ ?b ++ [?x; ?y]) = _ =>
        change (a ++ b ++ [x; y]) with (a ++ b ++ [x] ++ [y])
    end.
    by rewrite !app_assoc, last_snoc.
Qed.

Lemma export_archives_the_directory_witness :
  CLI.images sample_cli = []
  ∧ Forall (λ f, Py.has_char "/" f = false) ["a.com.jpg"; "notes.txt"]
  ∧ CLI.images
      (Tools.export_to_zip (Some ["a.com.jpg"; "notes.txt"]) (λ _, true) true
         "screenshots_20260101_000000.zip" None sample_cli).1.1
    = ["screenshots/a.com.jpg"].
Proof.
  assert (Forall (λ f, Py.has_char "/" f = false) ["a.com.jpg"; "notes.txt"])
    as Hfiles by (repeat constructor).
  split; [reflexivity|]. split; [exact Hfiles|].
  apply (export_archives_the_directory ["a.com.jpg"; "notes.txt"] (λ _, true)
           "screenshots_20260101_000000.zip" None sample_cli eq_refl Hfiles).
Defined.

(** ** The mapping file between sessions *)

(** X17.  Opening and closing the viewer keeps the mapping.  The object
    starts with an empty mapping and loads the mapping file; both entry
    points then hold what the file holds, or nothing when the file is
    missing or not readable as JSON.  If the window is closed with the
    mapping it loaded, the mapping file holds the same entries as before;
    when it can be written it is then well-formed, so that a missing or
    garbled file has become the empty object; and the history file is not
    touched. *)
Theorem mapping_survives_open_and_close
    (d : Disk) (gui : GUI.Self) (win : Viewer.Window)
    (input_file : option string) (output_dir : string)
    (threads quality timeout : Z) :
  GUI.url_mapping gui = ∅ →
  GUI.url_mapping (Viewer.self win)
  = GUI.url_mapping (GUI.load_url_mapping d gui).1 →
  GUI.url_mapping (Viewer.self win) = persisted_mapping d
  ∧ CLI.url_mapping (CLI.init d input_file output_dir threads quality timeout).1
    = persisted_mapping d
  ∧ persisted_mapping (Viewer.closeEvent d win) = persisted_mapping d
  ∧ (mapping_writable d = true →
     mapping_json (Viewer.closeEvent d win) = Content (persisted_mapping d))
  ∧ (mapping_writable d = false → Viewer.closeEvent d win = d)
  ∧ history_json (Viewer.closeEvent d win) = history_json d.
Proof.
  intros Hempty Hwin.
  assert (GUI.url_mapping (Viewer.self win) = persisted_mapping d) as Hm.
  { rewrite Hwin. unfold GUI.load_url_mapping, persisted_mapping.
    by destruct (mapping_json d). }
  split_and!.
  - done.
  - unfold CLI.init, CLI.load_url_mapping, persisted_mapping.
    by destruct (mapping_json d).
  - unfold Viewer.closeEvent, GUI.save_url_mapping.
    destruct (mapping_writable d); [|done].
    unfold persisted_mapping at 1. cbn [fst mapping_json]. by rewrite Hm.
  - intros Hw. unfold Viewer.closeEvent, GUI.save_url_mapping.
    rewrite Hw. cbn [fst mapping_json]. by rewrite Hm.
  - intros Hw. unfold Viewer.closeEvent, GUI.save_url_mapping. by rewrite Hw.
  - unfold Viewer.closeEvent, GUI.save_url_mapping.
    by destruct (mapping_writable d).
Qed.

Lemma mapping_survives_open_and_close_witness :
  GUI.url_mapping sample_gui = ∅
  ∧ persisted_mapping
      (Viewer.closeEvent later_disk
         {| Viewer.self := (GUI.load_url_mapping later_disk sample_gui).1;
            Viewer.current_index := 0; Viewer.thumbnails := [] |})
    = persisted_mapping later_disk.
Proof.
  split; [reflexivity|].
  apply (mapping_survives_open_and_close later_disk sample_gui
           {| Viewer.self := (GUI.load_url_mapping later_disk sample_gui).1;
              Viewer.current_index := 0; Viewer.thumbnails := [] |}
           None "screenshots" 4 85 15000 eq_refl eq_refl).
Defined.
